(** * Event consumption pipeline: worker handler and DLQ replay tool

    A shallow embedding of [services/worker/handler.ts] (the SQS consumer
    with its DynamoDB idempotency guard and partial batch response) and of
    [scripts/replay-dlq.ts] (the dead-letter replay script), followed by the
    properties of the consumption pipeline.

    The JavaScript values the code inspects are kept as JavaScript values
    (the worker casts the parsed JSON without checking it), exceptions are
    an explicit result, and the AWS services are explicit state: a table
    for DynamoDB, message lists for the two queues, and scripted answers
    for everything the environment decides (faults, received batches). *)

From Stdlib Require Import ZArith String Ascii List Floats.SpecFloat Lia DecimalString.
From stdpp Require Import base option gmap strings list.

Local Open Scope string_scope.
Local Open Scope Z_scope.
Local Set Warnings "-register-all".

(** ** JavaScript values and exceptions *)

Module Js.

(** The values [JSON.parse] can return, plus [undefined], which property
    reads produce. Numbers are IEEE doubles. *)
Inductive JsVal : Type :=
| JUndefined
| JNull
| JBool (b : bool)
| JNum (x : spec_float)
| JStr (s : string)
| JArr (elems : list JsVal)
| JObj (props : list (string * JsVal)).

(** ToBoolean: what [!v] and [if (v)] test. *)
Definition truthy (v : JsVal) : bool :=
  match v with
  | JUndefined | JNull => false
  | JBool b => b
  | JNum (S754_zero _) | JNum S754_nan => false
  | JNum _ => true
  | JStr s => negb (String.eqb s "")
  | JArr _ | JObj _ => true
  end.

(** Own property of an object literal, first binding of the key. *)
Fixpoint own_prop (props : list (string * JsVal)) (k : string) : JsVal :=
  match props with
  | [] => JUndefined
  | (k', v) :: rest => if String.eqb k' k then v else own_prop rest k
  end.

(** An exception value: the two fields the programs read. The text of
    engine-raised TypeErrors is implementation-defined. *)
Record JsError : Type := mkError { err_name : string; err_message : string }.

Definition Error (message : string) : JsError := mkError "Error" message.
Definition TypeError (message : string) : JsError := mkError "TypeError" message.

(** Result of evaluating an expression or statement that may throw. *)
Inductive Res (A : Type) : Type :=
| Ok (a : A)
| Throw (e : JsError).
Arguments Ok {A} a.
Arguments Throw {A} e.

(** [v.k] / [v[k]] for the keys these programs read ([detail], [source],
    [items], [sku], ...), none of which is inherited from a prototype:
    a TypeError on [null] and [undefined], the own property of an object,
    [undefined] on every other value. *)
Definition get (v : JsVal) (k : string) : Res JsVal :=
  match v with
  | JUndefined =>
    Throw (TypeError ("Cannot read properties of undefined (reading '" +:+ k +:+ "')"))
  | JNull =>
    Throw (TypeError ("Cannot read properties of null (reading '" +:+ k +:+ "')"))
  | JObj props => Ok (own_prop props k)
  | _ => Ok JUndefined
  end.

(** [v?.k] *)
Definition get_opt (v : JsVal) (k : string) : JsVal :=
  match get v k with
  | Ok x => x
  | Throw _ => JUndefined
  end.

(** [a ?? b] *)
Definition nullish (a b : JsVal) : JsVal :=
  match a with
  | JUndefined | JNull => b
  | _ => a
  end.

(** [v === 'lit'] against a string literal. *)
Definition strict_eq_str (v : JsVal) (lit : string) : bool :=
  match v with
  | JStr s => String.eqb s lit
  | _ => false
  end.

(** A string variable that may be unset ([process.env.X], optional SDK
    fields): [!x] holds when it is undefined or empty. *)
Definition falsy_str (x : option string) : bool :=
  match x with
  | None => true
  | Some s => String.eqb s ""
  end.

(** [x || dflt] on such a string. *)
Definition or_default (x : option string) (dflt : string) : string :=
  match x with
  | None => dflt
  | Some s => if String.eqb s "" then dflt else s
  end.

(** *** Computations over an explicit world that may throw *)

Definition M (W A : Type) : Type := W -> Res A * W.

Definition ret {W A} (a : A) : M W A := fun w => (Ok a, w).

Definition throw {W A} (e : JsError) : M W A := fun w => (Throw e, w).

Definition bind {W A B} (m : M W A) (k : A -> M W B) : M W B :=
  fun w =>
    match m w with
    | (Ok a, w') => k a w'
    | (Throw e, w') => (Throw e, w')
    end.

(** [try { body } catch (err) { handler }] *)
Definition try_catch {W A} (body : M W A) (handler : JsError -> M W A) : M W A :=
  fun w =>
    match body w with
    | (Ok a, w') => (Ok a, w')
    | (Throw e, w') => handler e w'
    end.

Definition lift {W A} (r : Res A) : M W A := fun w => (r, w).

Definition modify {W} (f : W -> W) : M W unit := fun w => (Ok tt, f w).

End Js.

Import Js.

Declare Scope js_scope.
Delimit Scope js_scope with js.
Notation "x <-- m ;;; k" := (bind m (fun x => k))
  (at level 20, m at level 100, k at level 200, only parsing) : js_scope.
Notation "m >>> k" := (bind m (fun _ => k))
  (at level 100, k at level 200, only parsing, right associativity) : js_scope.
Local Open Scope js_scope.

(** ** services/worker/handler.ts *)

Module Worker.

(** *** Data *)

(** The two fields of an [SQSRecord] the handler reads. *)
Record SQSRecord : Type := mkRecord { messageId : string; body : string }.

(** The [Item] of the [PutItemCommand]: three [S] attributes, whose values
    are whatever the detail holds, and the [N] attribute [expiresAt], kept
    as the number it prints ([None] is NaN). The numbers of the handler
    (the clock, the seconds, the days) are integers far below 2^53, where
    the arithmetic of doubles is exact: they are kept in [Z]. The table
    keeps the item of the command that wrote a key; how the service
    renders an [S] attribute whose value is not a string is its own
    affair, and the statements on stored attributes are made for
    strings. *)
Record Item : Type := mkItem {
  eventId : JsVal;
  orderId : JsVal;
  createdAt : JsVal;
  expiresAt : option Z
}.

(** The command always carries
    [ConditionExpression: 'attribute_not_exists(eventId)']. *)
Record PutItemCommand : Type := mkPut { TableName : string; PutItem : Item }.

Inductive IdempotencyStatus : Type := New | Duplicate.

(** One constructor per console call of the handler ([errorStack] left
    out). *)
Inductive LogLine : Type :=
| LogDuplicate (eventId orderId schemaVersion : JsVal)
| LogSuccess (eventId orderId schemaVersion customerId : JsVal) (itemCount : nat)
| LogFailed (eventId orderId : JsVal) (errorMessage : string).

(** What the handler runs against.
    - [table]: the DynamoDB table named by TABLE_NAME, keyed by [eventId];
    - [clock]: [Date.now()], milliseconds;
    - [store_faults]: the answers of the environment to the coming
      [dynamoClient.send] calls, one entry per call: [Some e] makes that
      call throw [e] (transport, throttling, any rejection by the service)
      and [None], or an exhausted script, lets the service evaluate the
      request;
    - [console]: lines printed, oldest first;
    - [processOrder_calls]: ghost history of the calls of [processOrder],
      which no function of the handler reads. *)
Record World : Type := mkWorld {
  table : gmap string Item;
  clock : Z;
  store_faults : list (option JsError);
  console : list LogLine;
  processOrder_calls : list JsVal
}.

Definition set_table (t : gmap string Item) (w : World) : World :=
  mkWorld t (clock w) (store_faults w) (console w) (processOrder_calls w).

Definition set_store_faults (f : list (option JsError)) (w : World) : World :=
  mkWorld (table w) (clock w) f (console w) (processOrder_calls w).

Definition console_write (line : LogLine) : M World unit :=
  modify (fun w =>
    mkWorld (table w) (clock w) (store_faults w) (console w ++ [line])%list
            (processOrder_calls w)).

Definition note_processOrder_call (detail : JsVal) : M World unit :=
  modify (fun w =>
    mkWorld (table w) (clock w) (store_faults w) (console w)
            (processOrder_calls w ++ [detail])%list).

Definition Date_now : M World Z := fun w => (Ok (clock w), w).

(** *** The DynamoDB client *)

Definition ConditionalCheckFailedException : JsError :=
  mkError "ConditionalCheckFailedException" "The conditional request failed".

Definition ValidationException : JsError :=
  mkError "ValidationException" "One or more parameter values were invalid".

(** The partition key of an item. The table is declared with the
    partition key [eventId] of type STRING
    (infra/lib/event-driven-stack.ts), so an item has a key when its
    [eventId] is a string; the other attributes are no part of the key
    schema and are taken as they come. *)
Definition item_key (it : Item) : option string :=
  match eventId it with
  | JStr k => Some k
  | _ => None
  end.

(** [dynamoClient.send(new PutItemCommand({..., ConditionExpression:
    'attribute_not_exists(eventId)'}))]: the service contract of an atomic
    insert-if-absent. The next entry of [store_faults] is consumed; without
    a fault, an item without a string key is rejected, an item whose key
    is present fails the condition, and any other item is inserted. *)
Definition dynamo_send (command : PutItemCommand) : M World unit :=
  fun w =>
    let w1 := set_store_faults (tail (store_faults w)) w in
    match head (store_faults w) with
    | Some (Some e) => (Throw e, w1)
    | _ =>
      match item_key (PutItem command) with
      | None => (Throw ValidationException, w1)
      | Some k =>
        match table w !! k with
        | Some _ => (Throw ConditionalCheckFailedException, w1)
        | None => (Ok tt, set_table (<[k := PutItem command]> (table w)) w1)
        end
      end
    end.

(** *** The shape the handler assumes

    [interface OrderItem] and [interface OrderCreatedDetail] as predicates
    on run-time values: the cast [envelope as EventBridgeEnvelope] checks
    nothing, so a detail has this shape only when the publisher sent it. *)

Definition is_string (v : JsVal) : bool :=
  match v with
  | JStr _ => true
  | _ => false
  end.

Definition is_number (v : JsVal) : bool :=
  match v with
  | JNum _ => true
  | _ => false
  end.

Definition is_OrderItem (v : JsVal) : bool :=
  match v with
  | JObj props => is_string (own_prop props "sku") && is_number (own_prop props "qty")
  | _ => false
  end.

Definition is_OrderCreatedDetail (v : JsVal) : bool :=
  match v with
  | JObj props =>
    is_string (own_prop props "schemaVersion")
    && is_string (own_prop props "eventId")
    && is_string (own_prop props "orderId")
    && is_string (own_prop props "createdAt")
    && match own_prop props "customerId" with
       | JUndefined | JStr _ => true
       | _ => false
       end
    && match own_prop props "items" with
       | JArr items => forallb is_OrderItem items
       | _ => false
       end
  | _ => false
  end.

(** The items of a detail, none when [items] is not an array. *)
Definition items_of (detail : JsVal) : list JsVal :=
  match get_opt detail "items" with
  | JArr items => items
  | _ => []
  end.

(** Some item of the detail has the sku [FAIL-ME]. *)
Definition contains_fail_sku (detail : JsVal) : Prop :=
  exists item, In item (items_of detail) /\ get_opt item "sku" = JStr "FAIL-ME".

(** The Order Event of the specification (sections 3 and 4.1): [eventId],
    [orderId] and [createdAt] present, [items] a non-empty array, every
    item with a non-empty [sku] and a strictly positive [qty]. *)
Definition positive_number (v : JsVal) : bool :=
  match v with
  | JNum (S754_finite false _ _) | JNum (S754_infinity false) => true
  | _ => false
  end.

Definition spec_valid_item (v : JsVal) : bool :=
  is_string (get_opt v "sku") && truthy (get_opt v "sku") && positive_number (get_opt v "qty").

Definition spec_valid_OrderEvent (detail : JsVal) : bool :=
  is_string (get_opt detail "eventId")
  && is_string (get_opt detail "orderId")
  && is_string (get_opt detail "createdAt")
  && match get_opt detail "items" with
     | JArr (item :: items) => forallb spec_valid_item (item :: items)
     | _ => false
     end.

(** The outcome of one envelope (section 4.2 and the taxonomy of section
    7 of the specification). *)
Inductive Outcome : Type :=
| ParseFailure
| StoreFailure
| BusinessFailure
| DuplicateIgnored
| Processed.

Definition failed (o : Outcome) : bool :=
  match o with
  | ParseFailure | StoreFailure | BusinessFailure => true
  | DuplicateIgnored | Processed => false
  end.

(** The world after a line is printed, after [processOrder] is entered,
    and the line [processOrder] prints on success. *)
Definition logged (line : LogLine) (w : World) : World :=
  mkWorld (table w) (clock w) (store_faults w) (console w ++ [line])%list
          (processOrder_calls w).

Definition entered (detail : JsVal) (w : World) : World :=
  mkWorld (table w) (clock w) (store_faults w) (console w)
          (processOrder_calls w ++ [detail])%list.

Definition success_line (detail : JsVal) : LogLine :=
  LogSuccess (get_opt detail "eventId") (get_opt detail "orderId")
             (get_opt detail "schemaVersion") (get_opt detail "customerId")
             (length (items_of detail)).

Definition duplicate_line (detail : JsVal) : LogLine :=
  LogDuplicate (get_opt detail "eventId") (get_opt detail "orderId")
               (get_opt detail "schemaVersion").

(** The line the [catch] block prints. *)
Definition failure_line (envelope detail : JsVal) (err : JsError) : LogLine :=
  LogFailed
    (nullish (nullish (get_opt detail "eventId") (get_opt envelope "id")) (JStr "unknown"))
    (nullish (get_opt detail "orderId") (JStr "unknown"))
    (err_message err).

(** No fault is scripted for the next call of the store. *)
Definition store_answers (w : World) : bool :=
  match head (store_faults w) with
  | Some (Some _) => false
  | _ => true
  end.

Section Handler.

(** [JSON.parse], [None] when it throws a SyntaxError; an object comes
    with its properties as [own_prop] reads them. *)
Variable JSON_parse : string -> option JsVal.
(** [parseInt(s, 10)], [None] for NaN. *)
Variable parseInt10 : string -> option Z.
(** [process.env.TABLE_NAME] and [process.env.TTL_DAYS]. *)
Variable env_TABLE_NAME : option string.
Variable env_TTL_DAYS : option string.

Definition TABLE_NAME : option string := env_TABLE_NAME.

Definition TTL_DAYS : option Z := parseInt10 (or_default env_TTL_DAYS "7").

Definition rbind {A B} (r : Res A) (k : A -> Res B) : Res B :=
  match r with
  | Ok a => k a
  | Throw e => Throw e
  end.

Definition parseEventBridgeEnvelope (record : SQSRecord) : Res JsVal :=
  if negb (truthy (JStr (body record))) then
    Throw (Error "SQS message body is empty")
  else
    match JSON_parse (body record) with
    | None => Throw (Error "Failed to parse SQS message body as JSON")
    | Some envelope =>
      rbind (get envelope "detail") (fun detail =>
      if negb (truthy detail) then
        Throw (Error "SQS message does not contain a valid EventBridge envelope")
      else
      rbind (get envelope "detail-type") (fun detail_type =>
      if negb (truthy detail_type) then
        Throw (Error "SQS message does not contain a valid EventBridge envelope")
      else
      rbind (get envelope "source") (fun source =>
      if negb (truthy source) then
        Throw (Error "SQS message does not contain a valid EventBridge envelope")
      else
        Ok envelope)))
    end.

(** The SDK class [ConditionalCheckFailedException] sets [name] to its own
    name, so the test on [err.name] covers the [instanceof] test. *)
Definition recordIdempotency (detail : JsVal) : M World IdempotencyStatus :=
  match TABLE_NAME with
  | Some name =>
    if String.eqb name "" then throw (Error "TABLE_NAME is not configured")
    else
      now <-- Date_now ;;;
      let nowSeconds := now / 1000 in
      let ttlSeconds := option_map (fun days => nowSeconds + days * 24 * 60 * 60) TTL_DAYS in
      eventId <-- lift (get detail "eventId") ;;;
      orderId <-- lift (get detail "orderId") ;;;
      createdAt <-- lift (get detail "createdAt") ;;;
      let command := mkPut name (mkItem eventId orderId createdAt ttlSeconds) in
      try_catch
        (dynamo_send command >>> ret New)
        (fun err =>
           if String.eqb (err_name err) "ConditionalCheckFailedException"
           then ret Duplicate
           else throw err)
  | None => throw (Error "TABLE_NAME is not configured")
  end.

(** [arr.some(callback)] *)
Fixpoint some_elem (elems : list JsVal) (callback : JsVal -> Res bool) : Res bool :=
  match elems with
  | [] => Ok false
  | item :: rest =>
    rbind (callback item) (fun hit => if hit then Ok true else some_elem rest callback)
  end.

Definition array_some (arr : JsVal) (callback : JsVal -> Res bool) : Res bool :=
  match arr with
  | JArr elems => some_elem elems callback
  | JUndefined => Throw (TypeError "Cannot read properties of undefined (reading 'some')")
  | JNull => Throw (TypeError "Cannot read properties of null (reading 'some')")
  | _ => Throw (TypeError "detail.items.some is not a function")
  end.

Definition array_length (arr : JsVal) : nat :=
  match arr with
  | JArr elems => length elems
  | _ => 0%nat
  end.

Definition processOrder (detail : JsVal) : M World unit :=
  note_processOrder_call detail >>>
  items <-- lift (get detail "items") ;;;
  hasFailSku <-- lift (array_some items (fun item =>
                   rbind (get item "sku") (fun sku => Ok (strict_eq_str sku "FAIL-ME")))) ;;;
  if hasFailSku : bool then
    throw (Error "Failure injection triggered for sku=FAIL-ME")
  else
    eventId <-- lift (get detail "eventId") ;;;
    orderId <-- lift (get detail "orderId") ;;;
    schemaVersion <-- lift (get detail "schemaVersion") ;;;
    customerId <-- lift (get detail "customerId") ;;;
    console_write (LogSuccess eventId orderId schemaVersion customerId (array_length items)).

(** The [catch] block of the loop body, given what the variables
    [envelope] and [detail] hold when the exception arrives. *)
Definition on_catch (record : SQSRecord) (batchItemFailures : list string)
    (envelope detail : JsVal) (err : JsError) : M World (list string) :=
  let eventId :=
    nullish (nullish (get_opt detail "eventId") (get_opt envelope "id")) (JStr "unknown") in
  let orderId := nullish (get_opt detail "orderId") (JStr "unknown") in
  console_write (LogFailed eventId orderId (err_message err)) >>>
  ret (batchItemFailures ++ [messageId record])%list.

(** One iteration of [for (const record of event.Records)]; the result is
    [batchItemFailures] after it. [envelope] and [detail] are [undefined]
    until the [try] block assigns them. *)
Definition handle_record (record : SQSRecord) (batchItemFailures : list string)
    : M World (list string) :=
  match parseEventBridgeEnvelope record with
  | Throw err => on_catch record batchItemFailures JUndefined JUndefined err
  | Ok envelope =>
    match get envelope "detail" with
    | Throw err => on_catch record batchItemFailures envelope JUndefined err
    | Ok detail =>
      try_catch
        (idempotencyStatus <-- recordIdempotency detail ;;;
         match idempotencyStatus with
         | Duplicate =>
           eventId <-- lift (get detail "eventId") ;;;
           orderId <-- lift (get detail "orderId") ;;;
           schemaVersion <-- lift (get detail "schemaVersion") ;;;
           console_write (LogDuplicate eventId orderId schemaVersion) >>>
           ret batchItemFailures
         | New =>
           processOrder detail >>>
           ret batchItemFailures
         end)
        (on_catch record batchItemFailures envelope detail)
    end
  end.

Fixpoint handler_loop (records : list SQSRecord) (batchItemFailures : list string)
    : M World (list string) :=
  match records with
  | [] => ret batchItemFailures
  | record :: rest =>
    failures <-- handle_record record batchItemFailures ;;;
    handler_loop rest failures
  end.

(** [handler(event)]: the [itemIdentifier]s of the returned
    [batchItemFailures], in order. *)
Definition handler (Records : list SQSRecord) : M World (list string) :=
  handler_loop Records [].

(** The deployment names its table and its TTL is a number. *)
Definition configured : bool :=
  negb (falsy_str TABLE_NAME) && match TTL_DAYS with Some _ => true | None => false end.

(** The command [recordIdempotency] sends for a detail at a given time. *)
Definition claim_command (name : string) (detail : JsVal) (now : Z) : PutItemCommand :=
  mkPut name
    (mkItem (get_opt detail "eventId") (get_opt detail "orderId") (get_opt detail "createdAt")
            (option_map (fun days => now / 1000 + days * 24 * 60 * 60) TTL_DAYS)).

(** The outcome of an envelope delivered in world [w], stage by stage. *)
Definition classify (record : SQSRecord) (w : World) : Outcome :=
  match parseEventBridgeEnvelope record with
  | Throw _ => ParseFailure
  | Ok envelope =>
    let detail := get_opt envelope "detail" in
    match recordIdempotency detail w with
    | (Throw _, _) => StoreFailure
    | (Ok Duplicate, _) => DuplicateIgnored
    | (Ok New, w1) =>
      match processOrder detail w1 with
      | (Throw _, _) => BusinessFailure
      | (Ok _, _) => Processed
      end
    end
  end.

(** The world an envelope leaves behind. *)
Definition world_after (record : SQSRecord) (w : World) : World :=
  snd (handle_record record [] w).

(** The world a sequence of envelopes leaves behind. *)
Definition world_after_all (records : list SQSRecord) (w : World) : World :=
  fold_left (fun w record => world_after record w) records w.

(** The identifiers of the envelopes of a batch that fail, each judged in
    the world its predecessors leave. *)
Fixpoint failed_ids (records : list SQSRecord) (w : World) : list string :=
  match records with
  | [] => []
  | record :: rest =>
    ((if failed (classify record w) then [messageId record] else [])
       ++ failed_ids rest (world_after record w))%list
  end.

End Handler.

End Worker.

(** ** scripts/replay-dlq.ts

    The script exits at once when MAIN_QUEUE_URL or DLQ_URL is unset; what
    follows is the script once both are set. *)

Module Replay.

(** The fields of an SQS [Message] the script reads; the SDK types all of
    them as optional. *)
Record Message : Type := mkMessage {
  MessageId : option string;
  ReceiptHandle : option string;
  Body : option string
}.

(** An entry of [DeleteMessageBatchCommand]: [m.MessageId!] and
    [m.ReceiptHandle!] (the assertion [!] does nothing at run time). *)
Record DeleteEntry : Type := mkEntry { Id : option string; EntryHandle : option string }.

Inductive LogLine : Type :=
| LogStart
| LogSendFailed (messageId : option string) (errorMessage : string)
| LogDeleteFailed (failedCount : nat)
| LogBatch (replayed totalReplayed : nat)
| LogDone (totalReplayed : nat).

(** What the script runs against.
    - [dlq]: the messages the dead-letter queue holds, each with the
      receipt handle under which it is handed out;
    - [main_queue]: the bodies the main queue has accepted, oldest first;
    - [receive_script]: the answers to the coming [ReceiveMessage] calls,
      one per call: an exception, or the [Messages] field of the result
      ([None] when absent); an exhausted script answers with no messages;
    - [send_script]: the answers to the coming [SendMessage] calls,
      [Some e] for a call that throws [e]; exhausted, every send succeeds;
    - [delete_script]: the answers to the coming [DeleteMessageBatch]
      calls: an exception, or the [Id]s of the [Failed] field ([None] when
      absent); exhausted, every entry is deleted;
    - [console]: lines printed, oldest first. *)
Record World : Type := mkWorld {
  dlq : list Message;
  main_queue : list string;
  receive_script : list (Res (option (list Message)));
  send_script : list (option JsError);
  delete_script : list (Res (option (list string)));
  console : list LogLine
}.

Definition console_write (line : LogLine) : M World unit :=
  modify (fun w =>
    mkWorld (dlq w) (main_queue w) (receive_script w) (send_script w) (delete_script w)
            (console w ++ [line])%list).

(** [sqsClient.send(new ReceiveMessageCommand({QueueUrl: DLQ_URL, ...}))] *)
Definition sqs_receive : M World (option (list Message)) :=
  fun w =>
    let w1 := mkWorld (dlq w) (main_queue w) (tail (receive_script w)) (send_script w)
                      (delete_script w) (console w) in
    match head (receive_script w) with
    | Some answer => (answer, w1)
    | None => (Ok None, w1)
    end.

(** [sqsClient.send(new SendMessageCommand({QueueUrl: MAIN_QUEUE_URL,
    MessageBody}))]: the body joins the main queue unless the call throws. *)
Definition sqs_send (MessageBody : string) : M World unit :=
  fun w =>
    match head (send_script w) with
    | Some (Some e) =>
      (Throw e, mkWorld (dlq w) (main_queue w) (receive_script w) (tail (send_script w))
                        (delete_script w) (console w))
    | _ =>
      (Ok tt, mkWorld (dlq w) (main_queue w ++ [MessageBody])%list (receive_script w)
                      (tail (send_script w)) (delete_script w) (console w))
    end.

Definition option_string_eqb (a b : option string) : bool :=
  match a, b with
  | Some x, Some y => String.eqb x y
  | None, None => true
  | _, _ => false
  end.

Definition id_listed (ids : list string) (id : option string) : bool :=
  match id with
  | Some i => existsb (String.eqb i) ids
  | None => false
  end.

(** The entries of a batch the service deletes: those whose [Id] it does
    not report in [Failed]. *)
Definition deleted_entries (entries : list DeleteEntry) (failed : list string)
    : list DeleteEntry :=
  List.filter (fun e => negb (id_listed failed (Id e))) entries.

(** A queued message goes away when a deleted entry carries its receipt
    handle. *)
Definition removed_by (entries : list DeleteEntry) (m : Message) : bool :=
  existsb (fun e => option_string_eqb (EntryHandle e) (ReceiptHandle m)) entries.

(** [sqsClient.send(new DeleteMessageBatchCommand({QueueUrl: DLQ_URL,
    Entries}))]: the result is the [Failed] field. *)
Definition sqs_delete_batch (Entries : list DeleteEntry) : M World (option (list string)) :=
  fun w =>
    let rest := tail (delete_script w) in
    match head (delete_script w) with
    | Some (Throw e) =>
      (Throw e, mkWorld (dlq w) (main_queue w) (receive_script w) (send_script w) rest
                        (console w))
    | Some (Ok Failed) =>
      let gone := deleted_entries Entries (default [] Failed) in
      (Ok Failed,
       mkWorld (List.filter (fun m => negb (removed_by gone m)) (dlq w)) (main_queue w)
               (receive_script w) (send_script w) rest (console w))
    | None =>
      (Ok None,
       mkWorld (List.filter (fun m => negb (removed_by Entries m)) (dlq w)) (main_queue w)
               (receive_script w) (send_script w) rest (console w))
    end.

(** The [for (const msg of messages)] loop of [replayOnce], on the two
    variables it updates. *)
Fixpoint forward_loop (messages : list Message) (processedCount : nat)
    (toDelete : list Message) : M World (nat * list Message) :=
  match messages with
  | [] => ret (processedCount, toDelete)
  | msg :: rest =>
    if falsy_str (Body msg) || falsy_str (ReceiptHandle msg) || falsy_str (MessageId msg)
    then forward_loop rest processedCount toDelete
    else
      state <-- try_catch
                  (sqs_send (default "" (Body msg)) >>>
                   ret (S processedCount, toDelete ++ [msg])%list)
                  (fun err =>
                     console_write (LogSendFailed (MessageId msg) (err_message err)) >>>
                     ret (processedCount, toDelete)) ;;;
      forward_loop rest (fst state) (snd state)
  end.

Definition replayOnce : M World nat :=
  result <-- sqs_receive ;;;
  let messages := default [] result in
  if (length messages =? 0)%nat then ret 0%nat
  else
    state <-- forward_loop messages 0%nat [] ;;;
    let processedCount := fst state in
    let toDelete := snd state in
    (if (0 <? length toDelete)%nat then
       Failed <-- sqs_delete_batch
                    (map (fun m => mkEntry (MessageId m) (ReceiptHandle m)) toDelete) ;;;
       let failed := default [] Failed in
       if (0 <? length failed)%nat
       then console_write (LogDeleteFailed (length failed))
       else ret tt
     else ret tt) >>>
    ret processedCount.

(** The [while (true)] loop of [main]; [None] when [fuel] iterations were
    not enough to leave it. *)
Fixpoint main_loop (fuel : nat) (totalReplayed : nat) : M World (option nat) :=
  match fuel with
  | O => ret None
  | S fuel' =>
    replayed <-- replayOnce ;;;
    if (replayed =? 0)%nat then ret (Some totalReplayed)
    else
      let totalReplayed := (totalReplayed + replayed)%nat in
      console_write (LogBatch replayed totalReplayed) >>>
      main_loop fuel' totalReplayed
  end.

Definition main (fuel : nat) : M World (option nat) :=
  console_write LogStart >>>
  total <-- main_loop fuel 0%nat ;;;
  match total with
  | Some totalReplayed => console_write (LogDone totalReplayed) >>> ret total
  | None => ret None
  end.


(** A message the loop does not skip: it has a body, a receipt handle and
    an identifier. *)
Definition forwardable (m : Message) : bool :=
  negb (falsy_str (Body m) || falsy_str (ReceiptHandle m) || falsy_str (MessageId m)).

(** The messages of a batch whose forward succeeds, given the answers to
    the coming sends: the i-th message that is not skipped meets the i-th
    answer. *)
Fixpoint forwarded (messages : list Message) (answers : list (option JsError))
    : list Message :=
  match messages with
  | [] => []
  | m :: rest =>
    if forwardable m then
      match head answers with
      | Some (Some _) => forwarded rest (tail answers)
      | _ => m :: forwarded rest (tail answers)
      end
    else forwarded rest answers
  end.

(** The messages a [ReceiveMessage] call hands to [replayOnce]. *)
Definition received (w : World) : list Message :=
  match head (receive_script w) with
  | Some (Ok (Some messages)) => messages
  | _ => []
  end.

Definition entry_of (m : Message) : DeleteEntry := mkEntry (MessageId m) (ReceiptHandle m).

(** The [MessageBody] a forward sends. *)
Definition body_of (m : Message) : string := default "" (Body m).

(** The world after a receive, and after a line is printed. *)
Definition after_receive (w : World) : World :=
  mkWorld (dlq w) (main_queue w) (tail (receive_script w)) (send_script w)
          (delete_script w) (console w).

Definition logged (line : LogLine) (w : World) : World :=
  mkWorld (dlq w) (main_queue w) (receive_script w) (send_script w) (delete_script w)
          (console w ++ [line])%list.

(** What [replayOnce] does once the forwarding loop has left [toDelete]:
    the batch delete, if there is anything to delete, and the warning. *)
Definition delete_phase (toDelete : list Message) : M World unit :=
  if (0 <? length toDelete)%nat then
    Failed <-- sqs_delete_batch (map entry_of toDelete) ;;;
    let failed := default [] Failed in
    if (0 <? length failed)%nat
    then console_write (LogDeleteFailed (length failed))
    else ret tt
  else ret tt.

End Replay.

(** ** The API handler (second module of the worker source file)

    The Lambda behind [POST /orders]: it validates the request, builds the
    OrderCreated detail and publishes it. Strings are UTF-8 text, so a
    substring of bytes is a substring of the text. *)

Module Api.

(** *** Strings and numbers *)

(** [s.includes(p)] *)
Fixpoint includes (s p : string) : bool :=
  String.prefix p s ||
  match s with
  | EmptyString => false
  | String _ rest => includes rest p
  end.

(** [toLowerCase] on ASCII text: the letters A to Z move down, every other
    character stays. *)
Definition lower_ascii (c : ascii) : ascii :=
  let n := nat_of_ascii c in
  if ((65 <=? n) && (n <=? 90))%nat then ascii_of_nat (n + 32) else c.

Fixpoint ascii_lower (s : string) : string :=
  match s with
  | EmptyString => EmptyString
  | String c rest => String (lower_ascii c) (ascii_lower rest)
  end.

Fixpoint is_ascii (s : string) : bool :=
  match s with
  | EmptyString => true
  | String c rest => (nat_of_ascii c <? 128)%nat && is_ascii rest
  end.

(** An array index inside a template literal: its decimal digits. *)
Definition dec (n : nat) : string := NilZero.string_of_uint (Nat.to_uint n).

(** [Number.isFinite(x)] and [x <= 0] on a double. *)
Definition Number_isFinite (x : spec_float) : bool :=
  match x with
  | S754_zero _ | S754_finite _ _ _ => true
  | S754_infinity _ | S754_nan => false
  end.

Definition le_zero (x : spec_float) : bool :=
  match x with
  | S754_zero _ | S754_finite true _ _ | S754_infinity true => true
  | S754_finite false _ _ | S754_infinity false | S754_nan => false
  end.

(** *** Data *)

Record OrderItem : Type := mkItem { sku : string; qty : spec_float }.

(** What [validateOrderPayload] returns:
    [{ customerId?: string; orderId?: string; items: OrderItem[] }]. *)
Record OrderPayload : Type := mkPayload {
  customerId : option string;
  orderId : option string;
  items : list OrderItem
}.

(** The two fields of the [APIGatewayProxyEvent] the handler reads:
    [event.body] (a string or null) and
    [event.requestContext.requestId]. *)
Record APIGatewayProxyEvent : Type := mkEvent {
  body : option string;
  requestId : option string
}.

(** The response; [result_body] is the value handed to [JSON.stringify],
    and the headers are always the JSON content type. *)
Record APIGatewayProxyResult : Type := mkResult {
  statusCode : nat;
  result_body : JsVal
}.

(** The entry of the [PutEventsCommand]; [Detail] is the value handed to
    [JSON.stringify]. *)
Record PutEventsEntry : Type := mkEntry {
  EventBusName : string;
  Source : string;
  DetailType : string;
  Detail : JsVal
}.

Inductive LogLine : Type :=
| LogMissingBus (requestId : string)
| LogPublishFailed (requestId eventId orderId : string) (failedEntryCount : nat)
| LogPublished (requestId eventId orderId : string) (customerId : option string)
               (itemCount : nat)
| LogRequestFailed (requestId errorMessage : string).

(** What the handler runs against.
    - [event_bus]: the entries the bus has accepted, oldest first;
    - [clock]: the time [new Date()] reads, milliseconds;
    - [uuid_supply], [uuid_next]: the identifiers [uuidv4()] returns, and
      how many it has handed out;
    - [put_events_script]: the answers to the coming [PutEvents] calls, one
      per call: an exception, or the [FailedEntryCount] of the response
      ([None] when absent); exhausted, every entry is accepted;
    - [console]: lines printed, oldest first. *)
Record World : Type := mkWorld {
  event_bus : list PutEventsEntry;
  clock : Z;
  uuid_supply : nat -> string;
  uuid_next : nat;
  put_events_script : list (Res (option nat));
  console : list LogLine
}.

Definition console_write (line : LogLine) : M World unit :=
  modify (fun w =>
    mkWorld (event_bus w) (clock w) (uuid_supply w) (uuid_next w) (put_events_script w)
            (console w ++ [line])%list).

Definition uuidv4 : M World string :=
  fun w =>
    (Ok (uuid_supply w (uuid_next w)),
     mkWorld (event_bus w) (clock w) (uuid_supply w) (S (uuid_next w))
             (put_events_script w) (console w)).

Definition Date_now : M World Z := fun w => (Ok (clock w), w).

(** [eventBridgeClient.send(new PutEventsCommand({Entries: [entry]}))]:
    the result is the [FailedEntryCount] of the response. The entry is on
    the bus when the call returns and reports no failed entry. *)
Definition eventbridge_send (entry : PutEventsEntry) : M World (option nat) :=
  fun w =>
    let rest := tail (put_events_script w) in
    match head (put_events_script w) with
    | Some (Throw e) =>
      (Throw e, mkWorld (event_bus w) (clock w) (uuid_supply w) (uuid_next w) rest (console w))
    | Some (Ok FailedEntryCount) =>
      (Ok FailedEntryCount,
       mkWorld (if (0 <? default 0 FailedEntryCount)%nat
                then event_bus w else (event_bus w ++ [entry])%list)
               (clock w) (uuid_supply w) (uuid_next w) rest (console w))
    | None =>
      (Ok None,
       mkWorld (event_bus w ++ [entry])%list (clock w) (uuid_supply w) (uuid_next w) rest
               (console w))
    end.

(** The values the handler builds. *)
Definition item_value (item : OrderItem) : JsVal :=
  JObj [("sku", JStr (sku item)); ("qty", JNum (qty item))].

Definition optional_string (x : option string) : JsVal :=
  match x with
  | Some s => JStr s
  | None => JUndefined
  end.

Definition SCHEMA_VERSION : string := "1.0".

(** The [detail] object of the handler. *)
Definition detail_value (eventId orderId createdAt : string) (customerId : option string)
    (items : list OrderItem) : JsVal :=
  JObj [("schemaVersion", JStr SCHEMA_VERSION); ("eventId", JStr eventId);
        ("orderId", JStr orderId); ("createdAt", JStr createdAt);
        ("customerId", optional_string customerId);
        ("items", JArr (map item_value items))].

(** What [JSON.parse] returns for the [JSON.stringify] of an object whose
    members are strings, finite numbers, arrays and objects of these, or
    [undefined]: the object without the members that hold [undefined]. *)
Definition is_undefined (v : JsVal) : bool :=
  match v with
  | JUndefined => true
  | _ => false
  end.

Definition on_the_wire (v : JsVal) : JsVal :=
  match v with
  | JObj props => JObj (List.filter (fun kv => negb (is_undefined (snd kv))) props)
  | _ => v
  end.

Section Handler.

(** [JSON.parse], [None] when it throws a SyntaxError. *)
Variable JSON_parse : string -> option JsVal.
(** [String.prototype.trim], [String.prototype.toLowerCase] and
    [Date.prototype.toISOString] of the time in milliseconds. *)
Variable trim : string -> string.
Variable toLowerCase : string -> string.
Variable toISOString : Z -> string.
(** [process.env.EVENT_BUS_NAME]. *)
Variable env_EVENT_BUS_NAME : option string.

Definition EVENT_BUS_NAME : option string := env_EVENT_BUS_NAME.

Definition parseBody (event : APIGatewayProxyEvent) : Res JsVal :=
  if falsy_str (body event) then Throw (Error "Missing request body")
  else
    match JSON_parse (default "" (body event)) with
    | Some payload => Ok payload
    | None => Throw (Error "Invalid JSON body")
    end.

(** The callback of [items.map] in [validateOrderPayload]. *)
Definition validate_item (item : JsVal) (index : nat) : Res OrderItem :=
  match (if truthy item then get_opt item "sku" else JUndefined) with
  | JStr sku_ =>
    if String.eqb (trim sku_) ""
    then Throw (Error ("items[" +:+ dec index +:+ "].sku must be a non-empty string"))
    else
      match get_opt item "qty" with
      | JNum qty_ =>
        if negb (Number_isFinite qty_) || le_zero qty_
        then Throw (Error ("items[" +:+ dec index +:+ "].qty must be a positive number"))
        else Ok (mkItem sku_ qty_)
      | _ => Throw (Error ("items[" +:+ dec index +:+ "].qty must be a positive number"))
      end
  | _ => Throw (Error ("items[" +:+ dec index +:+ "].sku must be a non-empty string"))
  end.

(** [items.map(callback)] from position [index] on. *)
Fixpoint validate_items (items : list JsVal) (index : nat) : Res (list OrderItem) :=
  match items with
  | [] => Ok []
  | item :: rest =>
    match validate_item item index with
    | Throw e => Throw e
    | Ok validated =>
      match validate_items rest (S index) with
      | Throw e => Throw e
      | Ok others => Ok (validated :: others)
      end
    end
  end.

(** [x !== undefined && typeof x !== 'string'] throws [message]. *)
Definition string_if_provided (x : JsVal) (message : string) : Res (option string) :=
  match x with
  | JUndefined => Ok None
  | JStr s => Ok (Some s)
  | _ => Throw (Error message)
  end.

Definition validateOrderPayload (payload : JsVal) : Res OrderPayload :=
  let source := if truthy payload then payload else JObj [] in
  let customerId := get_opt source "customerId" in
  let orderId := get_opt source "orderId" in
  match get_opt source "items" with
  | JArr (first :: others) =>
    match validate_items (first :: others) 0 with
    | Throw e => Throw e
    | Ok validatedItems =>
      match string_if_provided customerId "customerId must be a string if provided" with
      | Throw e => Throw e
      | Ok customerId =>
        match string_if_provided orderId "orderId must be a string if provided" with
        | Throw e => Throw e
        | Ok orderId => Ok (mkPayload customerId orderId validatedItems)
        end
      end
    end
  | _ => Throw (Error "items must be a non-empty array")
  end.

(** The status code of the [catch] block. *)
Definition error_status (message : string) : nat :=
  if includes (toLowerCase message) "must" || includes (toLowerCase message) "invalid"
  then 400%nat else 500%nat.

Definition message_body (message : string) : JsVal := JObj [("message", JStr message)].

Definition handler (event : APIGatewayProxyEvent) : M World APIGatewayProxyResult :=
  requestId <-- (if falsy_str (requestId event) then uuidv4
                 else ret (default "" (requestId event))) ;;;
  match EVENT_BUS_NAME with
  | Some busName =>
    if String.eqb busName "" then
      console_write (LogMissingBus requestId) >>>
      ret (mkResult 500 (message_body "Internal server error"))
    else
      try_catch
        (rawBody <-- lift (parseBody event) ;;;
         validated <-- lift (validateOrderPayload rawBody) ;;;
         eventId <-- uuidv4 ;;;
         orderId <-- (if falsy_str (orderId validated) then uuidv4
                      else ret (default "" (orderId validated))) ;;;
         now <-- Date_now ;;;
         let createdAt := toISOString now in
         let detail :=
           detail_value eventId orderId createdAt (customerId validated) (items validated) in
         response <-- eventbridge_send (mkEntry busName "myapp.orders" "OrderCreated" detail) ;;;
         let failedEntryCount := default 0%nat response in
         if (0 <? failedEntryCount)%nat then
           console_write (LogPublishFailed requestId eventId orderId failedEntryCount) >>>
           ret (mkResult 500 (message_body "Failed to publish event"))
         else
           console_write (LogPublished requestId eventId orderId (customerId validated)
                                       (length (items validated))) >>>
           ret (mkResult 202 (JObj [("orderId", JStr orderId); ("eventId", JStr eventId)])))
        (fun err =>
           console_write (LogRequestFailed requestId (err_message err)) >>>
           ret (mkResult (error_status (err_message err)) (message_body (err_message err))))
  | None =>
    console_write (LogMissingBus requestId) >>>
    ret (mkResult 500 (message_body "Internal server error"))
  end.

(** The order a request asks for: its body, parsed and validated. *)
Definition requested_order (event : APIGatewayProxyEvent) : Res OrderPayload :=
  match parseBody event with
  | Ok rawBody => validateOrderPayload rawBody
  | Throw e => Throw e
  end.

(** The payload a validated order stands for. *)
Definition payload_value (p : OrderPayload) : JsVal :=
  JObj [("customerId", optional_string (customerId p));
        ("orderId", optional_string (orderId p));
        ("items", JArr (map item_value (items p)))].

(** The item the validation accepts. *)
Definition valid_item (item : OrderItem) : bool :=
  negb (String.eqb (trim (sku item)) "")
  && match qty item with
     | S754_finite false _ _ => true
     | _ => false
     end.

End Handler.

(** The request identifier the handler logs under, and the world once it
    is chosen: the one of the request, or a fresh one. *)
Definition take_requestId (event : APIGatewayProxyEvent) (w : World) : string * World :=
  if falsy_str (requestId event)
  then (uuid_supply w (uuid_next w),
        mkWorld (event_bus w) (clock w) (uuid_supply w) (S (uuid_next w))
                (put_events_script w) (console w))
  else (default "" (requestId event), w).

Definition logged (line : LogLine) (w : World) : World :=
  mkWorld (event_bus w) (clock w) (uuid_supply w) (uuid_next w) (put_events_script w)
          (console w ++ [line])%list.

(** The identifiers the handler gives an accepted order in world [w]: a
    fresh eventId, and the orderId of the caller or a second fresh one. *)
Definition fresh_eventId (w : World) : string := uuid_supply w (uuid_next w).

Definition chosen_orderId (p : OrderPayload) (w : World) : string :=
  if falsy_str (orderId p) then uuid_supply w (S (uuid_next w))
  else default "" (orderId p).

(** The answer of the bus to the next [PutEvents] call: it throws, it
    reports failed entries, or it accepts the entry. *)
Inductive BusAnswer : Type :=
| BusThrows (e : JsError)
| BusRejects (failedEntryCount : nat)
| BusAccepts.

Definition next_bus_answer (w : World) : BusAnswer :=
  match head (put_events_script w) with
  | Some (Throw e) => BusThrows e
  | Some (Ok (Some (S n))) => BusRejects (S n)
  | _ => BusAccepts
  end.

End Api.

(** ** frontend/src/App.tsx: the order form *)

Module Frontend.

Record ItemForm : Type := mkItemForm { id : Z; sku : string; qty : spec_float }.

Section Form.

Variable trim : string -> string.

(** The [for] loop of [validateForm] from position [i] on. *)
Fixpoint validate_from (items : list ItemForm) (i : nat) : option string :=
  match items with
  | [] => None
  | item :: rest =>
    if String.eqb (trim (sku item)) "" then
      Some ("Item " +:+ Api.dec (i + 1) +:+ ": SKU must not be empty.")
    else if negb (Api.Number_isFinite (qty item)) || Api.le_zero (qty item) then
      Some ("Item " +:+ Api.dec (i + 1) +:+ ": quantity must be a positive number.")
    else validate_from rest (S i)
  end.

(** [validateForm()] on the items of the form; [None] is null. *)
Definition validateForm (items : list ItemForm) : option string :=
  if (length items =? 0)%nat then Some "Add at least one item before submitting."
  else validate_from items 0.

(** The payload [handleSubmit] hands to [createOrder]. *)
Definition submit_payload (customerId : string) (items : list ItemForm) : JsVal :=
  JObj [("customerId", if String.eqb customerId "" then JUndefined else JStr customerId);
        ("items", JArr (map (fun item => JObj [("sku", JStr (sku item));
                                               ("qty", JNum (qty item))]) items))].

(** [removeItem(id)] on the items of the form. *)
Definition removeItem (id_ : Z) (items : list ItemForm) : list ItemForm :=
  List.filter (fun item => negb (Z.eqb (id item) id_)) items.

End Form.

End Frontend.

(** ** The replay script as a process *)

Module ReplayScript.
Import Replay.

(** The script from its first line to its exit status, [None] when [fuel]
    passes were not enough: it stops with status 1 when a queue URL is
    unset and when [main] rejects, and ends with status 0 otherwise. *)
Definition script (MAIN_QUEUE_URL DLQ_URL : option string) (fuel : nat)
    : World -> option nat * World :=
  fun w =>
    if falsy_str MAIN_QUEUE_URL || falsy_str DLQ_URL then (Some 1%nat, w)
    else
      match main fuel w with
      | (Ok (Some _), w') => (Some 0%nat, w')
      | (Ok None, w') => (None, w')
      | (Throw _, w') => (Some 1%nat, w')
      end.


End ReplayScript.

(** ** A concrete environment for the examples *)

Module Examples.

Definition dq : string := String "034"%char EmptyString.

(** A JSON string literal and a member [key: value] of a JSON object. *)
Definition jstr (s : string) : string := dq +:+ s +:+ dq.
Definition member (k v : string) : string := jstr k +:+ ":" +:+ v.

(** The body EventBridge delivers for a detail. *)
Definition envelope_text (id detail : string) : string :=
  "{" +:+ member "id" (jstr id) +:+ ","
      +:+ member "detail-type" (jstr "OrderCreated") +:+ ","
      +:+ member "source" (jstr "myapp.orders") +:+ ","
      +:+ member "detail" detail +:+ "}".

Definition detail_text (eventId orderId sku qty : string) : string :=
  "{" +:+ member "schemaVersion" (jstr "1.0") +:+ ","
      +:+ member "eventId" (jstr eventId) +:+ ","
      +:+ member "orderId" (jstr orderId) +:+ ","
      +:+ member "createdAt" (jstr "2024-01-01T00:00:00.000Z") +:+ ","
      +:+ member "items" ("[{" +:+ member "sku" (jstr sku) +:+ ","
                                +:+ member "qty" qty +:+ "}]")
      +:+ "}".

Definition envelope_value (id : string) (detail : JsVal) : JsVal :=
  JObj [("id", JStr id); ("detail-type", JStr "OrderCreated");
        ("source", JStr "myapp.orders"); ("detail", detail)].

(** The doubles 1 and 2. *)
Definition one : spec_float := S754_finite false 1 0.
Definition two : spec_float := S754_finite false 1 1.

Definition detail_value (eventId orderId sku : string) (qty : spec_float) : JsVal :=
  JObj [("schemaVersion", JStr "1.0"); ("eventId", JStr eventId);
        ("orderId", JStr orderId); ("createdAt", JStr "2024-01-01T00:00:00.000Z");
        ("items", JArr [JObj [("sku", JStr sku); ("qty", JNum qty)]])].

(** Scenario A of the specification: event e1, order o1, two SKU-1. *)
Definition detail_e1 : JsVal := detail_value "e1" "o1" "SKU-1" two.
Definition body_e1 : string := envelope_text "evt-1" (detail_text "e1" "o1" "SKU-1" "2").

(** Scenario C: the fault-injection sku. *)
Definition detail_fail : JsVal := detail_value "e2" "o2" "FAIL-ME" one.
Definition body_fail : string := envelope_text "evt-2" (detail_text "e2" "o2" "FAIL-ME" "1").

(** A routing envelope whose detail is no Order Event at all. *)
Definition detail_note : JsVal := JObj [("note", JStr "hello")].
Definition body_note : string :=
  envelope_text "evt-3" ("{" +:+ member "note" (jstr "hello") +:+ "}").

(** Text that is not JSON. *)
Definition body_garbage : string := "not json".

(** [JSON.parse] on the bodies above; any other text is taken as not
    JSON. *)
Definition JSON_parse_demo (text : string) : option JsVal :=
  if String.eqb text body_e1 then Some (envelope_value "evt-1" detail_e1)
  else if String.eqb text body_fail then Some (envelope_value "evt-2" detail_fail)
  else if String.eqb text body_note then Some (envelope_value "evt-3" detail_note)
  else None.

(** [parseInt(s, 10)] on ASCII text: blanks, a sign, then the longest run
    of digits. *)
Definition digit_of (c : ascii) : option Z :=
  let n := Z.of_nat (nat_of_ascii c) in
  if (48 <=? n) && (n <=? 57) then Some (n - 48) else None.

Fixpoint digits (s : string) (acc : option Z) : option Z :=
  match s with
  | EmptyString => acc
  | String c rest =>
    match digit_of c with
    | Some d => digits rest (Some (10 * default 0 acc + d))
    | None => acc
    end
  end.

Fixpoint skip_blanks (s : string) : string :=
  match s with
  | String c rest =>
    let n := nat_of_ascii c in
    if ((n =? 32) || ((9 <=? n) && (n <=? 13)))%nat then skip_blanks rest else s
  | EmptyString => s
  end.

Definition parseInt10_ascii (s : string) : option Z :=
  match skip_blanks s with
  | String "-" rest => option_map Z.opp (digits rest None)
  | String "+" rest => digits rest None
  | rest => digits rest None
  end.

Definition record_e1 : Worker.SQSRecord := Worker.mkRecord "m-1" body_e1.
Definition record_e1_again : Worker.SQSRecord := Worker.mkRecord "m-1b" body_e1.
Definition record_fail : Worker.SQSRecord := Worker.mkRecord "m-2" body_fail.
Definition record_fail_again : Worker.SQSRecord := Worker.mkRecord "m-2b" body_fail.
Definition record_note : Worker.SQSRecord := Worker.mkRecord "m-3" body_note.
Definition record_garbage : Worker.SQSRecord := Worker.mkRecord "m-4" body_garbage.

(** An empty table at 2024-01-01T00:00:00Z, a store that answers. *)
Definition world0 : Worker.World := Worker.mkWorld ∅ 1704067200000 [] [] [].

(** The same with a store that is down for the next call. *)
Definition world_down : Worker.World :=
  Worker.mkWorld ∅ 1704067200000 [Some (mkError "TimeoutError" "socket hang up")] [] [].

(** The handler and its parts as deployed: the table is named and
    TTL_DAYS is set to 7. *)
Definition handler_demo : list Worker.SQSRecord -> M Worker.World (list string) :=
  Worker.handler JSON_parse_demo parseInt10_ascii (Some "orders-idempotency") (Some "7").

Definition after_demo : Worker.SQSRecord -> Worker.World -> Worker.World :=
  Worker.world_after JSON_parse_demo parseInt10_ascii (Some "orders-idempotency") (Some "7").

Definition claim_demo : JsVal -> M Worker.World Worker.IdempotencyStatus :=
  Worker.recordIdempotency parseInt10_ascii (Some "orders-idempotency") (Some "7").

(** The claim in a deployment that leaves TTL_DAYS unset. *)
Definition claim_default_ttl : JsVal -> M Worker.World Worker.IdempotencyStatus :=
  Worker.recordIdempotency parseInt10_ascii (Some "orders-idempotency") None.


(** Two messages of the dead-letter queue, and one the SDK returned
    without a body. *)
Definition msg_a : Replay.Message := Replay.mkMessage (Some "id-a") (Some "rh-a") (Some body_e1).
Definition msg_b : Replay.Message := Replay.mkMessage (Some "id-b") (Some "rh-b") (Some body_fail).
Definition msg_nobody : Replay.Message := Replay.mkMessage (Some "id-c") (Some "rh-c") None.

Definition main_queue_down : JsError := mkError "NetworkingError" "connect ETIMEDOUT".

(** The DLQ holds [msg_a] and [msg_b]; both are received; the forward of
    the first fails, the second goes through; the delete reports nothing. *)
Definition replay_world : Replay.World :=
  Replay.mkWorld [msg_a; msg_b] [] [Ok (Some [msg_a; msg_b])] [Some main_queue_down; None] [] [].

(** The same, with a delete that reports [id-b] as failed. *)
Definition replay_world_delete_fails : Replay.World :=
  Replay.mkWorld [msg_a; msg_b] [] [Ok (Some [msg_a; msg_b])] [Some main_queue_down; None]
                 [Ok (Some ["id-b"])] [].

(** Every receive hands out [msg_a], and the main queue is down for the
    first forward. *)
Definition replay_world_stuck : Replay.World :=
  Replay.mkWorld [msg_a] [] [Ok (Some [msg_a]); Ok (Some [msg_a])] [Some main_queue_down] [] [].

(** The only message received has no body. *)
Definition replay_world_nobody : Replay.World :=
  Replay.mkWorld [msg_nobody] [] [Ok (Some [msg_nobody]); Ok (Some [msg_nobody])] [] [] [].

End Examples.

(** ** A concrete environment for the API and the form *)

Module ApiExamples.
Import Examples.

(** [trim] on ASCII text: the blanks at both ends go. *)
Fixpoint rev_string (s acc : string) : string :=
  match s with
  | EmptyString => acc
  | String c rest => rev_string rest (String c acc)
  end.

Definition trim_ascii (s : string) : string :=
  rev_string (skip_blanks (rev_string (skip_blanks s) "")) "".

(** [n] in decimal, with zeros in front up to [width] digits. *)
Definition pad (width : nat) (n : Z) : string :=
  let digits := Api.dec (Z.to_nat n) in
  string_of_list_ascii (List.repeat "0"%char (width - String.length digits)) +:+ digits.

(** [toISOString] of a time in milliseconds, for the years 0000 to 9999:
    the proleptic Gregorian date of the day and the time of day, UTC. *)
Definition toISOString_utc (ms : Z) : string :=
  let days := ms / 86400000 in
  let rest := ms mod 86400000 in
  let z := days + 719468 in
  let era := z / 146097 in
  let doe := z - era * 146097 in
  let yoe := (doe - doe / 1460 + doe / 36524 - doe / 146096) / 365 in
  let doy := doe - (365 * yoe + yoe / 4 - yoe / 100) in
  let mp := (5 * doy + 2) / 153 in
  let d := doy - (153 * mp + 2) / 5 + 1 in
  let m := if mp <? 10 then mp + 3 else mp - 9 in
  let y := yoe + era * 400 + (if m <=? 2 then 1 else 0) in
  pad 4 y +:+ "-" +:+ pad 2 m +:+ "-" +:+ pad 2 d +:+ "T"
    +:+ pad 2 (rest / 3600000) +:+ ":" +:+ pad 2 (rest / 60000 mod 60) +:+ ":"
    +:+ pad 2 (rest / 1000 mod 60) +:+ "." +:+ pad 3 (rest mod 1000) +:+ "Z".

(** The body of a request that orders [qty] of one [sku]. *)
Definition order_text (customerId sku qty : string) : string :=
  "{" +:+ member "customerId" (jstr customerId) +:+ ","
      +:+ member "items" ("[{" +:+ member "sku" (jstr sku) +:+ ","
                                +:+ member "qty" qty +:+ "}]")
      +:+ "}".

Definition order_value (customerId sku : string) (qty : spec_float) : JsVal :=
  JObj [("customerId", JStr customerId);
        ("items", JArr [JObj [("sku", JStr sku); ("qty", JNum qty)]])].

(** Two SKU-1 for customer c-1, and the same order with quantity 0. *)
Definition body_order : string := order_text "c-1" "SKU-1" "2".
Definition body_order_zero : string := order_text "c-1" "SKU-1" "0".

(** An order whose second item has quantity 0. *)
Definition order_mixed : JsVal :=
  JObj [("items", JArr [JObj [("sku", JStr "SKU-1"); ("qty", JNum two)];
                        JObj [("sku", JStr "SKU-2"); ("qty", JNum (S754_zero false))]])].

(** [JSON.parse] on the bodies above; any other text is taken as not
    JSON. *)
Definition JSON_parse_api (text : string) : option JsVal :=
  if String.eqb text body_order then Some (order_value "c-1" "SKU-1" two)
  else if String.eqb text body_order_zero
       then Some (order_value "c-1" "SKU-1" (S754_zero false))
  else None.

Definition uuid_demo (n : nat) : string := "uuid-" +:+ Api.dec n.

(** An empty bus at 2024-01-01T00:00:00Z that accepts what it is sent, and
    one that reports the next entry as failed. *)
Definition api_world : Api.World := Api.mkWorld [] 1704067200000 uuid_demo 0 [] [].

Definition api_world_rejecting : Api.World :=
  Api.mkWorld [] 1704067200000 uuid_demo 0 [Ok (Some 1%nat)] [].

Definition event_order : Api.APIGatewayProxyEvent :=
  Api.mkEvent (Some body_order) (Some "req-1").
Definition event_zero : Api.APIGatewayProxyEvent :=
  Api.mkEvent (Some body_order_zero) (Some "req-2").

(** The API as deployed on the bus orders-bus. *)
Definition serve_demo : Api.APIGatewayProxyEvent -> M Api.World Api.APIGatewayProxyResult :=
  Api.handler JSON_parse_api trim_ascii Api.ascii_lower toISOString_utc (Some "orders-bus").

(** The detail the API publishes for [event_order] in [api_world], as it
    arrives at the worker, and the envelope EventBridge delivers it in. *)
Definition published_detail : JsVal :=
  Api.on_the_wire
    (Api.detail_value "uuid-0" "uuid-1" "2024-01-01T00:00:00.000Z" (Some "c-1")
                      [Api.mkItem "SKU-1" two]).

Definition published_body : string :=
  envelope_text "evt-9"
    ("{" +:+ member "schemaVersion" (jstr "1.0") +:+ ","
         +:+ member "eventId" (jstr "uuid-0") +:+ ","
         +:+ member "orderId" (jstr "uuid-1") +:+ ","
         +:+ member "createdAt" (jstr "2024-01-01T00:00:00.000Z") +:+ ","
         +:+ member "customerId" (jstr "c-1") +:+ ","
         +:+ member "items" ("[{" +:+ member "sku" (jstr "SKU-1") +:+ ","
                                   +:+ member "qty" "2" +:+ "}]")
         +:+ "}").

Definition JSON_parse_published (text : string) : option JsVal :=
  if String.eqb text published_body then Some (envelope_value "evt-9" published_detail)
  else None.

Definition record_published : Worker.SQSRecord := Worker.mkRecord "m-9" published_body.

(** The form as it opens: one SKU-1 and two SKU-2. *)
Definition form_items : list Frontend.ItemForm :=
  [Frontend.mkItemForm 1 "SKU-1" one; Frontend.mkItemForm 2 "SKU-2" two].

End ApiExamples.

(** ** Properties of the worker *)

Module WorkerProps.
Import Worker.

(** *** Property reads *)

Lemma get_truthy (v : JsVal) (k : string) :
  truthy v = true -> get v k = Ok (get_opt v k).
Proof. destruct v; simpl; try discriminate; reflexivity. Qed.

Lemma get_Ok_get_opt (v x : JsVal) (k : string) :
  get v k = Ok x -> get_opt v k = x.
Proof. unfold get_opt. intros ->. reflexivity. Qed.

(** *** The store *)

Lemma dynamo_send_present (command : PutItemCommand) (w : World) (k : string) (it : Item) :
  store_answers w = true ->
  item_key (PutItem command) = Some k ->
  table w !! k = Some it ->
  dynamo_send command w
  = (Throw ConditionalCheckFailedException, set_store_faults (tail (store_faults w)) w).
Proof.
  unfold dynamo_send, store_answers. intros Ha -> ->.
  destruct (head (store_faults w)) as [[e|]|]; try discriminate; reflexivity.
Qed.

Lemma dynamo_send_absent (command : PutItemCommand) (w : World) (k : string) :
  store_answers w = true ->
  item_key (PutItem command) = Some k ->
  table w !! k = None ->
  dynamo_send command w
  = (Ok tt, set_table (<[k := PutItem command]> (table w))
                      (set_store_faults (tail (store_faults w)) w)).
Proof.
  unfold dynamo_send, store_answers. intros Ha -> ->.
  destruct (head (store_faults w)) as [[e|]|]; try discriminate; reflexivity.
Qed.

(** A send that succeeds wrote its item under a fresh key. *)
Lemma dynamo_send_Ok_inv (command : PutItemCommand) (w w1 : World) :
  dynamo_send command w = (Ok tt, w1) ->
  exists k, item_key (PutItem command) = Some k /\ table w !! k = None /\
            store_answers w = true /\
            w1 = set_table (<[k := PutItem command]> (table w))
                           (set_store_faults (tail (store_faults w)) w).
Proof.
  unfold dynamo_send, store_answers.
  destruct (head (store_faults w)) as [[e|]|]; try discriminate;
    (destruct (item_key (PutItem command)) as [k|]; try discriminate;
     destruct (table w !! k) eqn:Hk; try discriminate;
     intros [= <-]; exists k; auto).
Qed.

(** Whatever a send answers, it only ever adds to the table, and leaves
    the clock, the console and the call history alone. *)
Lemma dynamo_send_frame (command : PutItemCommand) (w w1 : World) (r : Res unit) :
  dynamo_send command w = (r, w1) ->
  clock w1 = clock w /\ console w1 = console w /\
  processOrder_calls w1 = processOrder_calls w /\
  store_faults w1 = tail (store_faults w) /\
  (forall k it, table w !! k = Some it -> table w1 !! k = Some it) /\
  (forall e, r = Throw e -> table w1 = table w).
Proof.
  unfold dynamo_send.
  destruct (head (store_faults w)) as [[e|]|];
    try (intros [= <- <-]; simpl; repeat split; auto; fail);
    (destruct (item_key (PutItem command)) as [k|];
     [ destruct (table w !! k) eqn:Hk | ];
     intros [= <- <-]; simpl; repeat split; auto; try discriminate;
     intros k' it' Hk'; rewrite lookup_insert_ne; auto; congruence).
Qed.

(** *** The three stages of the handler *)

Section Stages.

Variable JSON_parse : string -> option JsVal.
Variable parseInt10 : string -> option Z.
Variable env_TABLE_NAME : option string.
Variable env_TTL_DAYS : option string.

Local Abbreviation parse := (parseEventBridgeEnvelope JSON_parse).
Local Abbreviation claim := (recordIdempotency parseInt10 env_TABLE_NAME env_TTL_DAYS).
Local Abbreviation command_for := (claim_command parseInt10 env_TTL_DAYS).
Local Abbreviation step := (handle_record JSON_parse parseInt10 env_TABLE_NAME env_TTL_DAYS).
Local Abbreviation outcome := (classify JSON_parse parseInt10 env_TABLE_NAME env_TTL_DAYS).
Local Abbreviation after := (world_after JSON_parse parseInt10 env_TABLE_NAME env_TTL_DAYS).
Local Abbreviation ready := (configured parseInt10 env_TABLE_NAME env_TTL_DAYS).
Local Abbreviation days := (TTL_DAYS parseInt10 env_TTL_DAYS).
Local Abbreviation after_all :=
  (world_after_all JSON_parse parseInt10 env_TABLE_NAME env_TTL_DAYS).
Local Abbreviation failures :=
  (failed_ids JSON_parse parseInt10 env_TABLE_NAME env_TTL_DAYS).
Local Abbreviation loop := (handler_loop JSON_parse parseInt10 env_TABLE_NAME env_TTL_DAYS).
Local Abbreviation run := (handler JSON_parse parseInt10 env_TABLE_NAME env_TTL_DAYS).

(** What a successful parse says about the record. *)
Lemma parse_Ok_inv (record : SQSRecord) (envelope : JsVal) :
  parse record = Ok envelope ->
  body record <> "" /\ JSON_parse (body record) = Some envelope /\
  truthy (get_opt envelope "detail") = true /\
  truthy (get_opt envelope "detail-type") = true /\
  truthy (get_opt envelope "source") = true /\
  get envelope "detail" = Ok (get_opt envelope "detail").
Proof.
  unfold parseEventBridgeEnvelope. simpl truthy.
  destruct (String.eqb (body record) "") eqn:Hb; simpl; [discriminate|].
  apply String.eqb_neq in Hb.
  destruct (JSON_parse (body record)) as [v|]; [|discriminate].
  destruct (get v "detail") as [d|e] eqn:Hd; simpl; [|discriminate].
  destruct (truthy d) eqn:Td; simpl; [|discriminate].
  destruct (get v "detail-type") as [t|e] eqn:Ht; simpl; [|discriminate].
  destruct (truthy t) eqn:Tt; simpl; [|discriminate].
  destruct (get v "source") as [s|e] eqn:Hs; simpl; [|discriminate].
  destruct (truthy s) eqn:Ts; simpl; [|discriminate].
  intros [= <-]. unfold get_opt. rewrite Hd, Ht, Hs. repeat split; auto.
Qed.

Lemma parse_Ok_intro (record : SQSRecord) (envelope : JsVal) :
  body record <> "" -> JSON_parse (body record) = Some envelope ->
  truthy (get_opt envelope "detail") = true ->
  truthy (get_opt envelope "detail-type") = true ->
  truthy (get_opt envelope "source") = true ->
  parse record = Ok envelope.
Proof.
  intros Hb Hj Hd Ht Hs. unfold parseEventBridgeEnvelope. simpl truthy.
  apply String.eqb_neq in Hb. rewrite Hb, Hj. simpl.
  assert (Hne : truthy envelope = true).
  { destruct envelope; simpl in *; try discriminate; reflexivity. }
  rewrite !(get_truthy _ _ Hne). simpl. rewrite Hd, Ht, Hs. reflexivity.
Qed.

Lemma get_defined (v : JsVal) (k : string) :
  v <> JUndefined -> v <> JNull -> get v k = Ok (get_opt v k).
Proof. destruct v; simpl; try reflexivity; congruence. Qed.

(** [recordIdempotency] on a detail that is neither null nor undefined:
    one send, whose answer decides between the three ways out. *)
Lemma claim_run_defined (detail : JsVal) (name : string) (w : World) :
  env_TABLE_NAME = Some name -> name <> "" ->
  detail <> JUndefined -> detail <> JNull ->
  claim detail w =
  match dynamo_send (command_for name detail (clock w)) w with
  | (Ok _, w1) => (Ok New, w1)
  | (Throw e, w1) =>
    if String.eqb (err_name e) "ConditionalCheckFailedException"
    then (Ok Duplicate, w1) else (Throw e, w1)
  end.
Proof.
  intros Hn Hne Hu Hnull. unfold recordIdempotency, TABLE_NAME. rewrite Hn.
  apply String.eqb_neq in Hne. rewrite Hne.
  unfold bind, Date_now, lift, try_catch, claim_command, ret, throw.
  rewrite !(get_defined _ _ Hu Hnull).
  destruct (dynamo_send _ w) as [[[]|e] w1]; [reflexivity|].
  destruct (String.eqb (err_name e) _); reflexivity.
Qed.

Lemma claim_run (detail : JsVal) (name : string) (w : World) :
  env_TABLE_NAME = Some name -> name <> "" -> truthy detail = true ->
  claim detail w =
  match dynamo_send (command_for name detail (clock w)) w with
  | (Ok _, w1) => (Ok New, w1)
  | (Throw e, w1) =>
    if String.eqb (err_name e) "ConditionalCheckFailedException"
    then (Ok Duplicate, w1) else (Throw e, w1)
  end.
Proof.
  intros Hn Hne Ht. apply claim_run_defined; auto; intros ->; discriminate.
Qed.

(** Without a table name nothing is sent. *)
Lemma claim_unconfigured (detail : JsVal) (w : World) :
  falsy_str env_TABLE_NAME = true ->
  claim detail w = (Throw (Error "TABLE_NAME is not configured"), w).
Proof.
  unfold recordIdempotency, TABLE_NAME, falsy_str.
  destruct env_TABLE_NAME as [name|]; [intros -> |]; reflexivity.
Qed.

(** A claim answered [New] or [Duplicate] was evaluated by a configured
    store. *)
Lemma claim_Ok_configured (detail : JsVal) (w w1 : World) (st : IdempotencyStatus) :
  claim detail w = (Ok st, w1) ->
  exists name, env_TABLE_NAME = Some name /\ name <> "".
Proof.
  destruct (falsy_str env_TABLE_NAME) eqn:Hf.
  - rewrite claim_unconfigured by assumption. discriminate.
  - intros _. unfold falsy_str in Hf. destruct env_TABLE_NAME as [name|]; [|discriminate].
    exists name. split; [reflexivity|]. now apply String.eqb_neq.
Qed.

(** *** Business processing *)

Lemma strict_eq_str_true (v : JsVal) (lit : string) :
  strict_eq_str v lit = true <-> v = JStr lit.
Proof.
  destruct v; simpl; split; try discriminate.
  - intros H. apply String.eqb_eq in H. now subst.
  - intros [= ->]. apply String.eqb_refl.
Qed.

(** On items that are objects the callback of [some] cannot throw. *)
Lemma some_elem_items (items : list JsVal) :
  forallb is_OrderItem items = true ->
  some_elem items (fun item =>
    rbind (get item "sku") (fun sku => Ok (strict_eq_str sku "FAIL-ME")))
  = Ok (existsb (fun item => strict_eq_str (get_opt item "sku") "FAIL-ME") items).
Proof.
  induction items as [|item items IH]; simpl; [reflexivity|].
  intros H. apply andb_prop in H as [Hi Hs].
  destruct item; simpl in Hi; try discriminate. simpl.
  unfold get_opt at 1. simpl.
  destruct (strict_eq_str (own_prop props "sku") "FAIL-ME"); simpl; [reflexivity|].
  now apply IH.
Qed.

Lemma existsb_fail_sku (detail : JsVal) :
  existsb (fun item => strict_eq_str (get_opt item "sku") "FAIL-ME") (items_of detail) = true
  <-> contains_fail_sku detail.
Proof.
  unfold contains_fail_sku. rewrite existsb_exists.
  split; intros [item [Hin H]]; exists item; split; auto; now apply strict_eq_str_true.
Qed.

Lemma typed_detail_items (detail : JsVal) :
  is_OrderCreatedDetail detail = true ->
  truthy detail = true /\
  get_opt detail "items" = JArr (items_of detail) /\
  forallb is_OrderItem (items_of detail) = true.
Proof.
  destruct detail; simpl; try discriminate.
  unfold items_of, get_opt. simpl.
  intros H. apply andb_prop in H as [_ H].
  destruct (own_prop props "items"); try discriminate. auto.
Qed.

Lemma typed_detail_strings (detail : JsVal) :
  is_OrderCreatedDetail detail = true ->
  exists e o c, get_opt detail "eventId" = JStr e /\ get_opt detail "orderId" = JStr o /\
                get_opt detail "createdAt" = JStr c.
Proof.
  destruct detail; simpl; try discriminate. unfold get_opt. simpl.
  intros H. repeat (apply andb_prop in H as [H ?]).
  destruct (own_prop props "eventId"); try discriminate.
  destruct (own_prop props "orderId"); try discriminate.
  destruct (own_prop props "createdAt"); try discriminate.
  eexists _, _, _. repeat split.
Qed.

Lemma processOrder_fail_sku (detail : JsVal) (w : World) :
  is_OrderCreatedDetail detail = true -> contains_fail_sku detail ->
  processOrder detail w
  = (Throw (Error "Failure injection triggered for sku=FAIL-ME"), entered detail w).
Proof.
  intros Ht Hc. destruct (typed_detail_items _ Ht) as (Hd & Hi & Hf).
  apply existsb_fail_sku in Hc.
  unfold processOrder, bind, note_processOrder_call, modify, lift.
  rewrite (get_truthy _ _ Hd), Hi. simpl array_some.
  rewrite (some_elem_items _ Hf), Hc. reflexivity.
Qed.

Lemma processOrder_no_fail_sku (detail : JsVal) (w : World) :
  is_OrderCreatedDetail detail = true -> ~ contains_fail_sku detail ->
  processOrder detail w = (Ok tt, logged (success_line detail) (entered detail w)).
Proof.
  intros Ht Hc. destruct (typed_detail_items _ Ht) as (Hd & Hi & Hf).
  rewrite <- existsb_fail_sku in Hc. apply not_true_is_false in Hc.
  unfold processOrder, bind, note_processOrder_call, modify, lift.
  rewrite !(get_truthy _ _ Hd), Hi. simpl array_some.
  rewrite (some_elem_items _ Hf), Hc.
  unfold console_write, modify, success_line, logged, entered. simpl.
  unfold items_of. rewrite Hi. reflexivity.
Qed.

(** Whatever the detail, [processOrder] touches only the console and the
    call history, and its verdict does not depend on the world. *)
Lemma processOrder_frame (detail : JsVal) (w w' : World) (r : Res unit) :
  processOrder detail w = (r, w') ->
  table w' = table w /\ clock w' = clock w /\ store_faults w' = store_faults w /\
  processOrder_calls w' = (processOrder_calls w ++ [detail])%list /\
  match r with
  | Ok _ => w' = logged (success_line detail) (entered detail w)
  | Throw _ => w' = entered detail w
  end.
Proof.
  unfold processOrder, bind, note_processOrder_call, modify, lift, throw, console_write.
  destruct (get detail "items") as [items|e] eqn:Hi.
  2:{ intros [= <- <-]. simpl. auto. }
  destruct (array_some items _) as [[|]|e] eqn:Hs.
  1,3: intros [= <- <-]; simpl; auto.
  assert (Hg : forall k, get detail k = Ok (get_opt detail k)).
  { intros k. destruct detail; simpl in Hi; try discriminate; reflexivity. }
  rewrite !Hg. unfold modify. intros [= <- <-]. simpl. repeat split; auto.
  unfold logged, entered, success_line, items_of. simpl.
  rewrite Hg in Hi. injection Hi as Hi. rewrite Hi.
  destruct items; simpl in Hs; try discriminate. reflexivity.
Qed.

Lemma processOrder_deterministic (detail : JsVal) (w w' : World) :
  fst (processOrder detail w) = fst (processOrder detail w').
Proof.
  unfold processOrder, bind, note_processOrder_call, modify, lift, throw, console_write.
  destruct (get detail "items") as [items|e]; [|reflexivity].
  destruct (array_some items _) as [[|]|e]; try reflexivity.
  destruct (get detail "eventId"); [|reflexivity].
  destruct (get detail "orderId"); [|reflexivity].
  destruct (get detail "schemaVersion"); [|reflexivity].
  destruct (get detail "customerId"); reflexivity.
Qed.

(** *** One iteration of the loop *)

(** The loop body, path by path. *)
Lemma step_run (record : SQSRecord) (acc : list string) (w : World) :
  step record acc w =
  match parse record with
  | Throw err =>
    (Ok (acc ++ [messageId record])%list, logged (failure_line JUndefined JUndefined err) w)
  | Ok envelope =>
    let detail := get_opt envelope "detail" in
    match claim detail w with
    | (Throw err, w1) =>
      (Ok (acc ++ [messageId record])%list, logged (failure_line envelope detail err) w1)
    | (Ok Duplicate, w1) => (Ok acc, logged (duplicate_line detail) w1)
    | (Ok New, w1) =>
      match processOrder detail w1 with
      | (Ok _, w2) => (Ok acc, w2)
      | (Throw err, w2) =>
        (Ok (acc ++ [messageId record])%list, logged (failure_line envelope detail err) w2)
      end
    end
  end.
Proof.
  unfold handle_record.
  destruct (parse record) as [envelope|err] eqn:Hp; [|reflexivity].
  destruct (parse_Ok_inv _ _ Hp) as (_ & _ & Ht & _ & _ & Hg).
  rewrite Hg. cbv zeta. set (detail := get_opt envelope "detail") in *.
  unfold try_catch, bind at 1.
  destruct (claim detail w) as [[[|]|err] w1]; [| |reflexivity].
  - unfold bind. destruct (processOrder detail w1) as [[u|err] w2]; reflexivity.
  - unfold bind, lift. rewrite !(get_truthy _ _ Ht). reflexivity.
Qed.

(** An iteration appends the identifier of the record exactly when its
    outcome is a failure; it never throws. *)
Lemma step_outcome (record : SQSRecord) (acc : list string) (w : World) :
  step record acc w
  = (Ok (acc ++ (if failed (outcome record w) then [messageId record] else []))%list,
     after record w).
Proof.
  unfold world_after. rewrite !step_run. unfold classify.
  destruct (parse record) as [envelope|err]; simpl; [|reflexivity].
  destruct (claim _ w) as [[[|]|err] w1]; simpl;
    [| now rewrite app_nil_r | reflexivity].
  destruct (processOrder _ w1) as [[u|err] w2]; simpl; [now rewrite app_nil_r | reflexivity].
Qed.

Lemma loop_run (records : list SQSRecord) (acc : list string) (w : World) :
  loop records acc w = (Ok (acc ++ failures records w)%list, after_all records w).
Proof.
  revert acc w. induction records as [|record rest IH]; intros acc w; simpl.
  - unfold ret. now rewrite app_nil_r.
  - unfold bind. rewrite step_outcome, IH. now rewrite <- app_assoc.
Qed.

Lemma run_single (record : SQSRecord) (w : World) (ids : list string) :
  fst (step record [] w) = Ok ids -> fst (run [record] w) = Ok ids.
Proof.
  unfold handler. simpl. unfold bind.
  destruct (step record [] w) as [[f|err] w']; simpl; [|discriminate].
  now intros [= ->].
Qed.

(** An identifier is reported exactly when some record carrying it fails
    in the world its predecessors leave. *)
Lemma failures_In (records : list SQSRecord) (w : World) (id : string) :
  In id (failures records w) <->
  exists pre record post,
    records = (pre ++ record :: post)%list /\ messageId record = id /\
    failed (outcome record (after_all pre w)) = true.
Proof.
  revert w. induction records as [|r rest IH]; intros w; simpl.
  - split; [tauto|]. intros (pre & record & post & H & _). destruct pre; discriminate.
  - rewrite in_app_iff, IH. split.
    + intros [H|(pre & record & post & -> & Hid & Hf)].
      * destruct (failed (outcome r w)) eqn:Hf; simpl in H; [|tauto].
        destruct H as [<-|[]]. exists [], r, rest. auto.
      * exists (r :: pre), record, post. auto.
    + intros (pre & record & post & Heq & Hid & Hf). destruct pre as [|r' pre].
      * simpl in Heq. injection Heq as -> ->. left. simpl in Hf. rewrite Hf. simpl. auto.
      * simpl in Heq. injection Heq as -> ->. right. exists pre, record, post. auto.
Qed.

(** *** Claims against the store *)

Lemma ready_inv :
  ready = true ->
  exists name d, env_TABLE_NAME = Some name /\ name <> "" /\ days = Some d.
Proof.
  unfold configured, TABLE_NAME, falsy_str. intros H. apply andb_prop in H as [Hn Hd].
  destruct env_TABLE_NAME as [name|]; [|discriminate].
  destruct days as [d|]; [|discriminate].
  exists name, d. repeat split. apply String.eqb_neq. now destruct (String.eqb name "").
Qed.

(** The key under which a typed detail is claimed. *)
Lemma typed_detail_key (detail : JsVal) (name e : string) (now : Z) :
  is_OrderCreatedDetail detail = true -> days <> None ->
  get_opt detail "eventId" = JStr e ->
  item_key (PutItem (command_for name detail now)) = Some e.
Proof.
  intros Ht Hd He. unfold claim_command, item_key. simpl. now rewrite He.
Qed.

Lemma typed_detail_truthy (detail : JsVal) :
  is_OrderCreatedDetail detail = true -> truthy detail = true.
Proof. intros H. now destruct (typed_detail_items _ H). Qed.

Lemma claim_duplicate (detail : JsVal) (e : string) (it : Item) (w : World) :
  is_OrderCreatedDetail detail = true -> get_opt detail "eventId" = JStr e ->
  ready = true -> store_answers w = true -> table w !! e = Some it ->
  claim detail w = (Ok Duplicate, set_store_faults (tail (store_faults w)) w).
Proof.
  intros Ht He Hr Ha Hk. destruct (ready_inv Hr) as (name & d & Hn & Hne & Hd).
  rewrite (claim_run _ _ _ Hn Hne (typed_detail_truthy _ Ht)).
  erewrite dynamo_send_present; eauto.
  apply typed_detail_key; auto. congruence.
Qed.

Lemma claim_new (detail : JsVal) (e : string) (w : World) :
  is_OrderCreatedDetail detail = true -> get_opt detail "eventId" = JStr e ->
  ready = true -> store_answers w = true -> table w !! e = None ->
  exists name,
    env_TABLE_NAME = Some name /\
    claim detail w
    = (Ok New, set_table (<[e := PutItem (command_for name detail (clock w))]> (table w))
                         (set_store_faults (tail (store_faults w)) w)).
Proof.
  intros Ht He Hr Ha Hk. destruct (ready_inv Hr) as (name & d & Hn & Hne & Hd).
  exists name. split; [assumption|].
  rewrite (claim_run _ _ _ Hn Hne (typed_detail_truthy _ Ht)).
  erewrite dynamo_send_absent; eauto.
  apply typed_detail_key; auto. congruence.
Qed.

(** A claim answered [New] wrote the item of its command under a key that
    was free. *)
Lemma claim_New_inv (detail : JsVal) (w w1 : World) :
  claim detail w = (Ok New, w1) ->
  exists name k,
    env_TABLE_NAME = Some name /\ name <> "" /\
    item_key (PutItem (command_for name detail (clock w))) = Some k /\
    table w !! k = None /\ store_answers w = true /\
    w1 = set_table (<[k := PutItem (command_for name detail (clock w))]> (table w))
                   (set_store_faults (tail (store_faults w)) w).
Proof.
  intros H. destruct (claim_Ok_configured _ _ _ _ H) as (name & Hn & Hne).
  exists name.
  assert (Hu : detail <> JUndefined /\ detail <> JNull).
  { split; intros ->; revert H; unfold recordIdempotency, TABLE_NAME; rewrite Hn;
      apply String.eqb_neq in Hne; rewrite Hne; discriminate. }
  destruct Hu as [Hu Hnull].
  rewrite (claim_run_defined _ _ _ Hn Hne Hu Hnull) in H.
  destruct (dynamo_send _ w) as [[[]|e] w0] eqn:Hs.
  - injection H as <-. apply dynamo_send_Ok_inv in Hs as (k & Hk & Hnone & Ha & ->).
    exists k. repeat split; assumption.
  - destruct (String.eqb (err_name e) _); discriminate.
Qed.

(** *** What an iteration leaves alone *)

Lemma claim_frame (detail : JsVal) (w w1 : World) (r : Res IdempotencyStatus) :
  claim detail w = (r, w1) ->
  clock w1 = clock w /\ console w1 = console w /\
  processOrder_calls w1 = processOrder_calls w /\
  (store_faults w1 = store_faults w \/ store_faults w1 = tail (store_faults w)) /\
  (forall k it, table w !! k = Some it -> table w1 !! k = Some it) /\
  (r <> Ok New -> table w1 = table w).
Proof.
  unfold recordIdempotency, TABLE_NAME.
  destruct env_TABLE_NAME as [name|].
  2:{ intros [= <- <-]. repeat split; auto. }
  destruct (String.eqb name "").
  { intros [= <- <-]. repeat split; auto. }
  unfold bind, Date_now, lift, try_catch, ret, throw.
  destruct (get detail "eventId") as [e|err].
  2:{ intros [= <- <-]. repeat split; auto. }
  destruct (get detail "orderId") as [o|err].
  2:{ intros [= <- <-]. repeat split; auto. }
  destruct (get detail "createdAt") as [c|err].
  2:{ intros [= <- <-]. repeat split; auto. }
  destruct (dynamo_send _ w) as [[[]|err] w0] eqn:Hs;
    destruct (dynamo_send_frame _ _ _ _ Hs) as (Hc & Hl & Hp & Hf & Hm & Ht).
  - intros [= <- <-]. repeat split; auto. congruence.
  - destruct (String.eqb (err_name err) _); intros [= <- <-];
      repeat split; eauto.
Qed.

Lemma after_frame (record : SQSRecord) (w : World) :
  clock (after record w) = clock w /\
  (store_faults (after record w) = store_faults w
   \/ store_faults (after record w) = tail (store_faults w)) /\
  (forall k it, table w !! k = Some it -> table (after record w) !! k = Some it).
Proof.
  unfold world_after. rewrite step_run.
  destruct (parse record) as [envelope|err]; simpl; [|auto].
  destruct (claim _ w) as [[[|]|err] w1] eqn:Hc;
    destruct (claim_frame _ _ _ _ Hc) as (Hk & _ & _ & Hf & Hm & _); simpl; auto.
  destruct (processOrder _ w1) as [[u|err] w2] eqn:Hp;
    destruct (processOrder_frame _ _ _ _ Hp) as (Ht & Hk2 & Hf2 & _); simpl;
    rewrite ?Ht, ?Hk2, ?Hf2; auto.
Qed.

(** No run of the handler removes or replaces a record of the table. *)
Lemma after_all_keeps (records : list SQSRecord) (w : World) (k : string) (it : Item) :
  table w !! k = Some it -> table (after_all records w) !! k = Some it.
Proof.
  revert w. induction records as [|r rest IH]; intros w H; simpl; [assumption|].
  apply IH. now apply after_frame.
Qed.

Lemma tail_no_fault (faults : list (option JsError)) :
  Forall (fun f => f = None) faults -> Forall (fun f => f = None) (tail faults).
Proof. intros H. destruct faults; simpl; [constructor|]. now inversion H. Qed.

Lemma after_all_no_fault (records : list SQSRecord) (w : World) :
  Forall (fun f => f = None) (store_faults w) ->
  Forall (fun f => f = None) (store_faults (after_all records w)).
Proof.
  revert w. induction records as [|r rest IH]; intros w H; simpl; [assumption|].
  apply IH. destruct (after_frame r w) as (_ & [-> | ->] & _); auto using tail_no_fault.
Qed.

Lemma no_fault_answers (w : World) :
  Forall (fun f => f = None) (store_faults w) -> store_answers w = true.
Proof.
  unfold store_answers. destruct (store_faults w) as [|[e|] rest]; simpl; auto.
  intros H. inversion H. discriminate.
Qed.

(** *** Duplicate suppression *)

Lemma step_duplicate (record : SQSRecord) (envelope : JsVal) (e : string) (it : Item)
    (acc : list string) (w : World) :
  parse record = Ok envelope ->
  is_OrderCreatedDetail (get_opt envelope "detail") = true ->
  get_opt (get_opt envelope "detail") "eventId" = JStr e ->
  ready = true -> store_answers w = true -> table w !! e = Some it ->
  step record acc w
  = (Ok acc, logged (duplicate_line (get_opt envelope "detail"))
                    (set_store_faults (tail (store_faults w)) w)).
Proof.
  intros Hp Ht He Hr Ha Hk. rewrite step_run, Hp. cbv zeta.
  now rewrite (claim_duplicate _ _ _ _ Ht He Hr Ha Hk).
Qed.

(** The first delivery of a key: the record is written and
    [processOrder] is entered once. *)
Lemma after_first_delivery (record : SQSRecord) (envelope : JsVal) (e : string) (w : World) :
  parse record = Ok envelope ->
  is_OrderCreatedDetail (get_opt envelope "detail") = true ->
  get_opt (get_opt envelope "detail") "eventId" = JStr e ->
  ready = true -> store_answers w = true -> table w !! e = None ->
  exists name,
    env_TABLE_NAME = Some name /\
    table (after record w)
    = <[e := PutItem (command_for name (get_opt envelope "detail") (clock w))]> (table w) /\
    processOrder_calls (after record w)
    = (processOrder_calls w ++ [get_opt envelope "detail"])%list.
Proof.
  intros Hp Ht He Hr Ha Hk.
  destruct (claim_new _ _ _ Ht He Hr Ha Hk) as (name & Hn & Hc).
  exists name. split; [assumption|].
  unfold world_after. rewrite step_run, Hp. cbv zeta. rewrite Hc.
  match goal with |- context [processOrder ?d ?w1] =>
    destruct (processOrder d w1) as [[u|err] w2] eqn:Hpo end;
    destruct (processOrder_frame _ _ _ _ Hpo) as (Htab & _ & _ & Hcalls & _);
    simpl; rewrite Htab, Hcalls; auto.
Qed.

(** C1. An envelope whose Order Event carries an eventId that the
    idempotency store already holds is claimed as Duplicate, is not handed
    to business processing, and is left out of batchItemFailures (the store
    being configured and answering the claim). In particular, when an
    eventId is delivered a second time, in any later world that kept the
    table, business processing has run exactly once over the two
    deliveries and the table holds exactly one record more than before. *)
Theorem C1_duplicate_acknowledged_once
    (record : SQSRecord) (envelope : JsVal) (e : string) :
  parse record = Ok envelope ->
  is_OrderCreatedDetail (get_opt envelope "detail") = true ->
  get_opt (get_opt envelope "detail") "eventId" = JStr e ->
  ready = true ->
  (forall (w : World) (it : Item) (acc : list string),
     store_answers w = true -> table w !! e = Some it ->
     fst (claim (get_opt envelope "detail") w) = Ok Duplicate /\
     fst (step record acc w) = Ok acc /\
     outcome record w = DuplicateIgnored /\
     processOrder_calls (after record w) = processOrder_calls w /\
     table (after record w) = table w /\
     console (after record w)
     = (console w ++ [duplicate_line (get_opt envelope "detail")])%list) /\
  (forall (first : SQSRecord) (envelope1 : JsVal) (w w' : World),
     parse first = Ok envelope1 ->
     is_OrderCreatedDetail (get_opt envelope1 "detail") = true ->
     get_opt (get_opt envelope1 "detail") "eventId" = JStr e ->
     store_answers w = true -> table w !! e = None ->
     table w' = table (after first w) ->
     processOrder_calls w' = processOrder_calls (after first w) ->
     store_answers w' = true ->
     outcome record w' = DuplicateIgnored /\
     fst (run [record] w') = Ok [] /\
     processOrder_calls (after record w')
     = (processOrder_calls w ++ [get_opt envelope1 "detail"])%list /\
     (exists it, table (after record w') = <[e := it]> (table w)) /\
     size (table (after record w')) = S (size (table w))).
Proof.
  intros Hp Ht He Hr.
  assert (Hdup : forall (w : World) (it : Item) (acc : list string),
     store_answers w = true -> table w !! e = Some it ->
     fst (claim (get_opt envelope "detail") w) = Ok Duplicate /\
     fst (step record acc w) = Ok acc /\
     outcome record w = DuplicateIgnored /\
     processOrder_calls (after record w) = processOrder_calls w /\
     table (after record w) = table w /\
     console (after record w)
     = (console w ++ [duplicate_line (get_opt envelope "detail")])%list).
  { intros w it acc Ha Hk.
    pose proof (claim_duplicate _ _ _ _ Ht He Hr Ha Hk) as Hc.
    unfold world_after, classify.
    rewrite !(step_duplicate _ _ _ _ _ _ Hp Ht He Hr Ha Hk), Hp, Hc.
    repeat split. }
  split; [exact Hdup|].
  intros first envelope1 w w' Hp1 Ht1 He1 Ha Hk Htab Hcalls Ha'.
  destruct (after_first_delivery _ _ _ _ Hp1 Ht1 He1 Hr Ha Hk) as (name & Hn & Htab1 & Hcalls1).
  assert (Hk' : table w' !! e
                = Some (PutItem (command_for name (get_opt envelope1 "detail") (clock w)))).
  { rewrite Htab, Htab1. apply lookup_insert_eq. }
  destruct (Hdup w' _ [] Ha' Hk') as (_ & Hs & Ho & Hc & Htb & _).
  repeat split.
  - exact Ho.
  - now apply run_single.
  - rewrite Hc, Hcalls, Hcalls1. reflexivity.
  - eexists. rewrite Htb, Htab, Htab1. reflexivity.
  - rewrite Htb, Htab, Htab1. now apply map_size_insert_None.
Qed.

(** *** Claim first, execute second *)

Lemma parse_body (r1 r2 : SQSRecord) : body r1 = body r2 -> parse r1 = parse r2.
Proof. unfold parseEventBridgeEnvelope. now intros ->. Qed.

Lemma item_key_any_time (name : string) (detail : JsVal) (now now' : Z) (k : string) :
  item_key (PutItem (command_for name detail now)) = Some k ->
  item_key (PutItem (command_for name detail now')) = Some k /\
  get_opt detail "eventId" = JStr k.
Proof.
  unfold claim_command, item_key. simpl.
  destruct (get_opt detail "eventId"); try discriminate.
  intros [= ->]. auto.
Qed.

Lemma claim_duplicate_key (detail : JsVal) (name k : string) (it : Item) (w : World) :
  env_TABLE_NAME = Some name -> name <> "" -> truthy detail = true ->
  item_key (PutItem (command_for name detail (clock w))) = Some k ->
  store_answers w = true -> table w !! k = Some it ->
  claim detail w = (Ok Duplicate, set_store_faults (tail (store_faults w)) w).
Proof.
  intros Hn Hne Ht Hk Ha Hl. rewrite (claim_run _ _ _ Hn Hne Ht).
  now rewrite (dynamo_send_present _ _ _ _ Ha Hk Hl).
Qed.

(** The loop body on a record whose key the table holds. *)
Lemma step_duplicate_key (record : SQSRecord) (envelope : JsVal) (name k : string)
    (it : Item) (acc : list string) (w : World) :
  parse record = Ok envelope ->
  env_TABLE_NAME = Some name -> name <> "" ->
  item_key (PutItem (command_for name (get_opt envelope "detail") (clock w))) = Some k ->
  store_answers w = true -> table w !! k = Some it ->
  step record acc w
  = (Ok acc, logged (duplicate_line (get_opt envelope "detail"))
                    (set_store_faults (tail (store_faults w)) w))
  /\ outcome record w = DuplicateIgnored.
Proof.
  intros Hp Hn Hne Hk Ha Hl.
  destruct (parse_Ok_inv _ _ Hp) as (_ & _ & Ht & _).
  pose proof (claim_duplicate_key _ _ _ _ _ Hn Hne Ht Hk Ha Hl) as Hc.
  unfold classify. rewrite step_run, Hp. cbv zeta. now rewrite Hc.
Qed.

(** C2. The idempotency record is written before business processing
    runs: when the claim of an envelope succeeds as New and business
    processing then throws, the envelope is reported in batchItemFailures
    while its record stays in the table through every later batch, so a
    redelivery of the same body is claimed as Duplicate and acknowledged
    without [processOrder] being entered again; the console shows the
    failure and the duplicate, never a success. *)
Theorem C2_claim_then_execute
    (record : SQSRecord) (envelope : JsVal) (w w1 w2 : World) (err : JsError) :
  parse record = Ok envelope ->
  claim (get_opt envelope "detail") w = (Ok New, w1) ->
  processOrder (get_opt envelope "detail") w1 = (Throw err, w2) ->
  exists (e : string) (it : Item),
    get_opt (get_opt envelope "detail") "eventId" = JStr e /\
    table w !! e = None /\
    table w1 !! e = Some it /\
    (forall acc, fst (step record acc w) = Ok (acc ++ [messageId record])%list) /\
    outcome record w = BusinessFailure /\
    table (after record w) = <[e := it]> (table w) /\
    console (after record w)
    = (console w ++ [failure_line envelope (get_opt envelope "detail") err])%list /\
    (forall later, table (after_all later (after record w)) !! e = Some it) /\
    (forall (redelivered : SQSRecord) (w' : World) (it' : Item) (acc : list string),
       body redelivered = body record ->
       table w' !! e = Some it' -> store_answers w' = true ->
       fst (claim (get_opt envelope "detail") w') = Ok Duplicate /\
       fst (step redelivered acc w') = Ok acc /\
       outcome redelivered w' = DuplicateIgnored /\
       processOrder_calls (after redelivered w') = processOrder_calls w' /\
       console (after redelivered w')
       = (console w' ++ [duplicate_line (get_opt envelope "detail")])%list).
Proof.
  intros Hp Hc Hpo. set (detail := get_opt envelope "detail") in *.
  destruct (parse_Ok_inv _ _ Hp) as (_ & _ & Ht & _).
  destruct (claim_New_inv _ _ _ Hc) as (name & e & Hn & Hne & Hk & Hfree & Ha & Hw1).
  destruct (item_key_any_time _ _ _ 0 _ Hk) as (_ & He).
  destruct (processOrder_frame _ _ _ _ Hpo) as (Htab & _ & _ & _ & Hw2).
  exists e, (PutItem (command_for name detail (clock w))).
  assert (Hafter : after record w = logged (failure_line envelope detail err) w2).
  { unfold world_after. rewrite step_run, Hp. cbv zeta. fold detail. now rewrite Hc, Hpo. }
  assert (Htab1 : table w1 = <[e := PutItem (command_for name detail (clock w))]> (table w)).
  { now rewrite Hw1. }
  assert (Hstep : forall (redelivered : SQSRecord) (w' : World) (it' : Item) acc,
            body redelivered = body record ->
            table w' !! e = Some it' -> store_answers w' = true ->
            step redelivered acc w'
            = (Ok acc, logged (duplicate_line detail)
                              (set_store_faults (tail (store_faults w')) w'))
            /\ outcome redelivered w' = DuplicateIgnored).
  { intros redelivered w' it' acc Hb Hl Ha'.
    apply (step_duplicate_key redelivered envelope name e it'); auto.
    now rewrite (parse_body _ _ Hb). }
  repeat split.
  - exact He.
  - exact Hfree.
  - rewrite Htab1. apply lookup_insert_eq.
  - intros acc. rewrite step_run, Hp. cbv zeta. fold detail. now rewrite Hc, Hpo.
  - unfold classify. rewrite Hp. fold detail. now rewrite Hc, Hpo.
  - rewrite Hafter. simpl. now rewrite Htab, Htab1.
  - rewrite Hafter, Hw2, Hw1. reflexivity.
  - intros later. apply after_all_keeps. rewrite Hafter. simpl.
    rewrite Htab, Htab1. apply lookup_insert_eq.
  - rewrite (claim_duplicate_key detail name e it' w'); auto.
  - now rewrite (proj1 (Hstep _ _ _ acc H H0 H1)).
  - exact (proj2 (Hstep _ _ _ acc H H0 H1)).
  - unfold world_after. now rewrite (proj1 (Hstep _ _ _ [] H H0 H1)).
  - unfold world_after. now rewrite (proj1 (Hstep _ _ _ [] H H0 H1)).
Qed.

(** *** Store failures *)

(** C5. When the send to the idempotency store throws anything but the
    conditional-check failure, [recordIdempotency] answers neither New nor
    Duplicate but rethrows that error; [processOrder] is not entered, the
    envelope is reported in batchItemFailures, and the table is left as it
    was, so a later delivery meets a store that still has no record of the
    event and claims it afresh. *)
Theorem C5_store_failure_propagates
    (record : SQSRecord) (envelope : JsVal) (name : string) (w w1 : World) (e : JsError) :
  parse record = Ok envelope ->
  env_TABLE_NAME = Some name -> name <> "" ->
  dynamo_send (command_for name (get_opt envelope "detail") (clock w)) w = (Throw e, w1) ->
  err_name e <> "ConditionalCheckFailedException" ->
  claim (get_opt envelope "detail") w = (Throw e, w1) /\
  outcome record w = StoreFailure /\
  (forall acc, fst (step record acc w) = Ok (acc ++ [messageId record])%list) /\
  processOrder_calls (after record w) = processOrder_calls w /\
  table (after record w) = table w /\
  console (after record w)
  = (console w ++ [failure_line envelope (get_opt envelope "detail") e])%list /\
  (forall (w' : World) (k : string),
     table w' = table (after record w) -> store_answers w' = true ->
     item_key (PutItem (command_for name (get_opt envelope "detail") (clock w'))) = Some k ->
     table w !! k = None ->
     fst (claim (get_opt envelope "detail") w') = Ok New).
Proof.
  intros Hp Hn Hne Hs He. set (detail := get_opt envelope "detail") in *.
  destruct (parse_Ok_inv _ _ Hp) as (_ & _ & Ht & _). fold detail in Ht.
  apply String.eqb_neq in He.
  assert (Hc : claim detail w = (Throw e, w1)).
  { now rewrite (claim_run _ _ _ Hn Hne Ht), Hs, He. }
  destruct (dynamo_send_frame _ _ _ _ Hs) as (_ & Hl & Hcalls & _ & _ & Htab).
  assert (Hafter : after record w = logged (failure_line envelope detail e) w1).
  { unfold world_after. rewrite step_run, Hp. cbv zeta. fold detail. now rewrite Hc. }
  repeat split.
  - exact Hc.
  - unfold classify. rewrite Hp. fold detail. now rewrite Hc.
  - intros acc. rewrite step_run, Hp. cbv zeta. fold detail. now rewrite Hc.
  - now rewrite Hafter.
  - rewrite Hafter. simpl. now apply Htab with e.
  - rewrite Hafter. simpl. now rewrite Hl.
  - intros w' k Htab' Ha Hk Hfree.
    rewrite (claim_run _ _ _ Hn Hne Ht).
    erewrite dynamo_send_absent; eauto.
    rewrite Htab', Hafter. simpl. rewrite (Htab e); auto.
Qed.

(** *** The business rule *)

(** C6. Business processing of an Order Event depends on the event alone
    and throws exactly when some item has the sku FAIL-ME; once the claim
    of its envelope is New, an event with such an item is reported in
    batchItemFailures and an event without one is not. *)
Theorem C6_fail_sku_decides (detail : JsVal) :
  is_OrderCreatedDetail detail = true ->
  (forall w, (exists err w', processOrder detail w = (Throw err, w'))
             <-> contains_fail_sku detail) /\
  (forall w, (exists w', processOrder detail w = (Ok tt, w'))
             <-> ~ contains_fail_sku detail) /\
  (forall w w', fst (processOrder detail w) = fst (processOrder detail w')) /\
  (forall (record : SQSRecord) (envelope : JsVal) (w w1 : World) (acc : list string),
     parse record = Ok envelope -> get_opt envelope "detail" = detail ->
     claim detail w = (Ok New, w1) ->
     (contains_fail_sku detail ->
      fst (step record acc w) = Ok (acc ++ [messageId record])%list /\
      outcome record w = BusinessFailure) /\
     (~ contains_fail_sku detail ->
      fst (step record acc w) = Ok acc /\ outcome record w = Processed)).
Proof.
  intros Ht.
  assert (Hdec : contains_fail_sku detail \/ ~ contains_fail_sku detail).
  { rewrite <- existsb_fail_sku. destruct (existsb _ (items_of detail)); auto. }
  repeat split.
  - intros (err & w' & H). destruct Hdec as [Hc|Hc]; [assumption|].
    rewrite (processOrder_no_fail_sku _ w Ht Hc) in H. discriminate.
  - intros Hc. rewrite (processOrder_fail_sku _ w Ht Hc). eauto.
  - intros (w' & H) Hc. rewrite (processOrder_fail_sku _ w Ht Hc) in H. discriminate.
  - intros Hc. rewrite (processOrder_no_fail_sku _ w Ht Hc). eauto.
  - apply processOrder_deterministic.
  - rewrite step_run, H. cbv zeta. rewrite H0, H1.
    now rewrite (processOrder_fail_sku _ w1 Ht H2).
  - unfold classify. rewrite H, H0, H1.
    now rewrite (processOrder_fail_sku _ w1 Ht H2).
  - rewrite step_run, H. cbv zeta. rewrite H0, H1.
    now rewrite (processOrder_no_fail_sku _ w1 Ht H2).
  - unfold classify. rewrite H, H0, H1.
    now rewrite (processOrder_no_fail_sku _ w1 Ht H2).
Qed.

(** *** The idempotency record *)

(** C9. The record a New claim writes for an Order Event, whose eventId,
    orderId and createdAt are strings, has exactly these three attributes,
    copied from the event, and expiresAt: the claim time in whole seconds
    plus TTL_DAYS * 24 * 60 * 60, where TTL_DAYS is [parseInt] of the
    environment variable when it is set and of 7 when it is unset or
    empty (no number when that text has none). The record is written only
    under a key the table did not hold, and no later batch changes it. *)
Theorem C9_record_written_once (detail : JsVal) (e o c : string) (w w1 : World) :
  get_opt detail "eventId" = JStr e ->
  get_opt detail "orderId" = JStr o ->
  get_opt detail "createdAt" = JStr c ->
  claim detail w = (Ok New, w1) ->
  table w !! e = None /\
  table w1
  = <[e := mkItem (JStr e) (JStr o) (JStr c)
                  (option_map (fun d => clock w / 1000 + d * 24 * 60 * 60) days)]> (table w) /\
  (falsy_str env_TTL_DAYS = true -> days = parseInt10 "7") /\
  (forall s, env_TTL_DAYS = Some s -> s <> "" -> days = parseInt10 s) /\
  (forall (later : list SQSRecord) (w' : World) (it : Item),
     table w' !! e = Some it -> table (after_all later w') !! e = Some it).
Proof.
  intros He Ho Hcr Hc.
  destruct (claim_New_inv _ _ _ Hc) as (name & k & Hn & Hne & Hk & Hfree & Ha & ->).
  revert Hk. unfold claim_command, item_key. simpl. rewrite He. intros [= <-].
  split; [assumption|]. split; [|split; [|split]].
  - simpl. rewrite ?He, ?Ho, ?Hcr. reflexivity.
  - intros Hunset. unfold TTL_DAYS, or_default. unfold falsy_str in Hunset.
    destruct env_TTL_DAYS as [t|]; [now rewrite Hunset|reflexivity].
  - intros s -> Hs. unfold TTL_DAYS, or_default.
    apply String.eqb_neq in Hs. now rewrite Hs.
  - intros later w' it. apply after_all_keeps.
Qed.

(** *** The batch response *)

Lemma outcome_parse_failure (record : SQSRecord) (err : JsError) (w : World) :
  parse record = Throw err -> outcome record w = ParseFailure.
Proof. unfold classify. now intros ->. Qed.

(** An envelope that can succeed does not fail, whatever world a reliable
    store is left in. *)
Lemma outcome_valid (record : SQSRecord) (envelope : JsVal) (w : World) :
  parse record = Ok envelope ->
  is_OrderCreatedDetail (get_opt envelope "detail") = true ->
  ~ contains_fail_sku (get_opt envelope "detail") ->
  ready = true -> store_answers w = true ->
  failed (outcome record w) = false.
Proof.
  intros Hp Ht Hc Hr Ha.
  destruct (typed_detail_strings _ Ht) as (e & _ & _ & He & _).
  unfold classify. rewrite Hp. cbv zeta.
  destruct (table w !! e) as [it|] eqn:Hk.
  - now rewrite (claim_duplicate _ _ _ _ Ht He Hr Ha Hk).
  - destruct (claim_new _ _ _ Ht He Hr Ha Hk) as (name & _ & ->).
    now rewrite (processOrder_no_fail_sku _ _ Ht Hc).
Qed.

(** C3. The handler returns the identifiers of the envelopes that fail
    (at parsing, at the store, or in business processing) and no others,
    in batch order: an identifier is returned exactly when a record that
    carries it fails in the world its predecessors leave. Successes and
    duplicates are not returned, and with a store that answers, an
    envelope that can succeed is not reported whatever its batch-mates do;
    a batch of one malformed and one such envelope, in either order,
    reports exactly the malformed one. *)
Theorem C3_exact_failure_set (Records : list SQSRecord) (w : World) :
  fst (run Records w) = Ok (failures Records w) /\
  (forall id,
     In id (failures Records w) <->
     exists pre record post,
       Records = (pre ++ record :: post)%list /\ messageId record = id /\
       failed (outcome record (after_all pre w)) = true) /\
  (forall pre record post envelope,
     Records = (pre ++ record :: post)%list ->
     parse record = Ok envelope ->
     is_OrderCreatedDetail (get_opt envelope "detail") = true ->
     ~ contains_fail_sku (get_opt envelope "detail") ->
     ready = true -> Forall (fun f => f = None) (store_faults w) ->
     failed (outcome record (after_all pre w)) = false /\
     (~ In (messageId record) (map messageId (pre ++ post)) ->
      ~ In (messageId record) (failures Records w))) /\
  (forall malformed valid err envelope,
     parse malformed = Throw err ->
     parse valid = Ok envelope ->
     is_OrderCreatedDetail (get_opt envelope "detail") = true ->
     ~ contains_fail_sku (get_opt envelope "detail") ->
     ready = true -> Forall (fun f => f = None) (store_faults w) ->
     Records = [malformed; valid] \/ Records = [valid; malformed] ->
     failures Records w = [messageId malformed]).
Proof.
  split; [|split; [|split]].
  - unfold handler. now rewrite loop_run.
  - intros id. apply failures_In.
  - intros pre record post envelope -> Hp Ht Hc Hr Hf.
    assert (Hok : failed (outcome record (after_all pre w)) = false).
    { eapply outcome_valid; eauto. apply no_fault_answers. now apply after_all_no_fault. }
    split; [assumption|].
    intros Hfresh Hin. apply failures_In in Hin as (pre' & r' & post' & Heq & Hid & Hfail).
    assert (Hcase : r' = record /\ pre' = pre \/ In r' (pre ++ post)).
    { clear - Heq. revert pre' Heq. induction pre as [|p pre IH]; intros pre' Heq.
      - destruct pre' as [|p' pre']; simpl in Heq; injection Heq as -> ->; auto.
        right. simpl. apply in_or_app. right. left. reflexivity.
      - destruct pre' as [|p' pre']; simpl in Heq; injection Heq as -> H.
        + right. left. reflexivity.
        + destruct (IH _ H) as [[-> ->]|Hin]; auto. right. now right. }
    destruct Hcase as [[-> ->]|Hin].
    + congruence.
    + apply Hfresh. rewrite <- Hid. now apply in_map.
  - intros malformed valid err envelope Hm Hp Ht Hc Hr Hf [-> | ->]; simpl.
    + rewrite (outcome_parse_failure _ _ _ Hm). simpl.
      erewrite outcome_valid; eauto.
      apply no_fault_answers.
      apply (after_all_no_fault [malformed] w Hf).
    + erewrite outcome_valid; eauto using no_fault_answers.
      rewrite (outcome_parse_failure _ _ _ Hm). reflexivity.
Qed.

(** *** Parsing *)

(** C4, as the code has it. Parsing succeeds exactly when the body is
    non-empty, deserializes as JSON, and the result has truthy [detail],
    [detail-type] and [source]; the envelope is then returned as parsed,
    with a detail that nobody has looked into. Parsing has no effect, and
    when it throws, the envelope is reported failed without the store or
    business processing being reached. *)
Theorem C4_parse_checks_routing_fields_only (record : SQSRecord) :
  (forall envelope,
     parse record = Ok envelope <->
     body record <> "" /\ JSON_parse (body record) = Some envelope /\
     truthy (get_opt envelope "detail") = true /\
     truthy (get_opt envelope "detail-type") = true /\
     truthy (get_opt envelope "source") = true) /\
  (forall err acc w,
     parse record = Throw err ->
     step record acc w
     = (Ok (acc ++ [messageId record])%list,
        logged (failure_line JUndefined JUndefined err) w)).
Proof.
  split.
  - intros envelope. split.
    + intros H. destruct (parse_Ok_inv _ _ H) as (? & ? & ? & ? & ? & _). auto.
    + intros (Hb & Hj & Hd & Ht & Hs). now apply parse_Ok_intro.
  - intros err acc w H. now rewrite step_run, H.
Qed.

End Stages.

(** *** The theorems at work on the example deployment *)

Import Examples.

Example scenario_batch :
  fst (handler_demo
         [record_garbage; record_e1; record_e1_again; record_fail; record_fail_again] world0)
  = Ok ["m-4"; "m-2"].
Proof. vm_compute. reflexivity. Qed.

Lemma C1_duplicate_witness :
  fst (handler_demo [record_e1_again] (after_demo record_e1 world0)) = Ok []
  /\ processOrder_calls (after_demo record_e1_again (after_demo record_e1 world0))
     = [detail_e1]
  /\ size (table (after_demo record_e1_again (after_demo record_e1 world0))) = 1%nat.
Proof.
  destruct (C1_duplicate_acknowledged_once JSON_parse_demo parseInt10_ascii
              (Some "orders-idempotency") (Some "7")
              record_e1_again (envelope_value "evt-1" detail_e1) "e1")
    as [_ H]; try (vm_compute; reflexivity).
  destruct (H record_e1 (envelope_value "evt-1" detail_e1) world0
              (after_demo record_e1 world0))
    as (_ & Hrun & Hcalls & _ & Hsize); try (vm_compute; reflexivity).
  split; [exact Hrun | split; [exact Hcalls | exact Hsize]].
Defined.

Lemma C2_claim_then_execute_witness :
  fst (handler_demo [record_fail] world0) = Ok ["m-2"]
  /\ fst (handler_demo [record_fail_again] (after_demo record_fail world0)) = Ok []
  /\ processOrder_calls (after_demo record_fail_again (after_demo record_fail world0))
     = [detail_fail].
Proof.
  destruct (C2_claim_then_execute JSON_parse_demo parseInt10_ascii
              (Some "orders-idempotency") (Some "7")
              record_fail (envelope_value "evt-2" detail_fail) world0
              (snd (claim_demo detail_fail world0))
              (snd (processOrder detail_fail (snd (claim_demo detail_fail world0))))
              (Error "Failure injection triggered for sku=FAIL-ME"))
    as (e & it & He & _ & _ & Hfail & _ & _ & _ & Hkept & Hagain);
    try (vm_compute; reflexivity).
  injection He as <-.
  destruct (Hagain record_fail_again (after_demo record_fail world0) it [])
    as (_ & Hstep & _ & Hcalls & _); try (vm_compute; reflexivity).
  { apply (Hkept []). }
  split; [|split].
  - apply run_single, (Hfail []).
  - apply run_single, Hstep.
  - exact Hcalls.
Defined.

Lemma C5_store_failure_witness :
  fst (claim_demo detail_e1 world_down) = Throw (mkError "TimeoutError" "socket hang up")
  /\ fst (handler_demo [record_e1] world_down) = Ok ["m-1"]
  /\ processOrder_calls (after_demo record_e1 world_down) = []
  /\ table (after_demo record_e1 world_down) = ∅.
Proof.
  destruct (C5_store_failure_propagates JSON_parse_demo parseInt10_ascii
              (Some "orders-idempotency") (Some "7")
              record_e1 (envelope_value "evt-1" detail_e1) "orders-idempotency"
              world_down (mkWorld ∅ 1704067200000 [] [] [])
              (mkError "TimeoutError" "socket hang up"))
    as (Hc & _ & Hfail & Hcalls & Htab & _);
    try (vm_compute; reflexivity); try discriminate.
  split; [|split; [|split]].
  - exact (f_equal fst Hc).
  - apply run_single, (Hfail []).
  - exact Hcalls.
  - exact Htab.
Defined.

Lemma C6_fail_sku_witness :
  contains_fail_sku detail_fail
  /\ (forall w, exists err w', processOrder detail_fail w = (Throw err, w'))
  /\ ~ contains_fail_sku detail_e1
  /\ (forall w, exists w', processOrder detail_e1 w = (Ok tt, w')).
Proof.
  assert (Hfail : contains_fail_sku detail_fail).
  { exists (JObj [("sku", JStr "FAIL-ME"); ("qty", JNum one)]). split; [left|]; reflexivity. }
  assert (Hfine : ~ contains_fail_sku detail_e1).
  { intros (item & [<-|[]] & H). discriminate. }
  destruct (C6_fail_sku_decides JSON_parse_demo parseInt10_ascii
              (Some "orders-idempotency") (Some "7") detail_fail eq_refl) as (Hthrows & _).
  destruct (C6_fail_sku_decides JSON_parse_demo parseInt10_ascii
              (Some "orders-idempotency") (Some "7") detail_e1 eq_refl) as (_ & Hruns & _).
  split; [|split; [|split]].
  - exact Hfail.
  - intros w. now apply Hthrows.
  - exact Hfine.
  - intros w. now apply Hruns.
Defined.

Lemma C9_record_witness :
  table (snd (claim_default_ttl detail_e1 world0)) !! "e1"
  = Some (mkItem (JStr "e1") (JStr "o1") (JStr "2024-01-01T00:00:00.000Z")
                 (Some (1704067200 + 7 * 24 * 60 * 60)))
  /\ table (snd (recordIdempotency parseInt10_ascii (Some "orders-idempotency") (Some "30")
                                   detail_e1 world0)) !! "e1"
     = Some (mkItem (JStr "e1") (JStr "o1") (JStr "2024-01-01T00:00:00.000Z")
                    (Some (1704067200 + 30 * 24 * 60 * 60))).
Proof.
  split.
  - destruct (C9_record_written_once JSON_parse_demo parseInt10_ascii
                (Some "orders-idempotency") None
                detail_e1 "e1" "o1" "2024-01-01T00:00:00.000Z" world0
                (snd (claim_default_ttl detail_e1 world0)))
      as (_ & Htab & Hdefault & _).
    + reflexivity.
    + reflexivity.
    + reflexivity.
    + vm_compute. reflexivity.
    + rewrite Htab, lookup_insert_eq, (Hdefault eq_refl). reflexivity.
  - destruct (C9_record_written_once JSON_parse_demo parseInt10_ascii
                (Some "orders-idempotency") (Some "30")
                detail_e1 "e1" "o1" "2024-01-01T00:00:00.000Z" world0
                (snd (recordIdempotency parseInt10_ascii (Some "orders-idempotency")
                                        (Some "30") detail_e1 world0)))
      as (_ & Htab & _ & Hset & _).
    + reflexivity.
    + reflexivity.
    + reflexivity.
    + vm_compute. reflexivity.
    + rewrite Htab, lookup_insert_eq, (Hset "30" eq_refl); [reflexivity|discriminate].
Defined.

Lemma C3_partial_batch_witness :
  fst (handler_demo [record_garbage; record_e1] world0) = Ok ["m-4"]
  /\ fst (handler_demo [record_e1; record_garbage] world0) = Ok ["m-4"].
Proof.
  assert (Hfine : ~ contains_fail_sku detail_e1).
  { intros (item & [<-|[]] & H). discriminate. }
  split.
  - destruct (C3_exact_failure_set JSON_parse_demo parseInt10_ascii
                (Some "orders-idempotency") (Some "7") [record_garbage; record_e1] world0)
      as (Hrun & _ & _ & Hpair).
    unfold handler_demo. rewrite Hrun.
    rewrite (Hpair record_garbage record_e1
               (Error "Failed to parse SQS message body as JSON")
               (envelope_value "evt-1" detail_e1));
      try (vm_compute; reflexivity); auto.
  - destruct (C3_exact_failure_set JSON_parse_demo parseInt10_ascii
                (Some "orders-idempotency") (Some "7") [record_e1; record_garbage] world0)
      as (Hrun & _ & _ & Hpair).
    unfold handler_demo. rewrite Hrun.
    rewrite (Hpair record_garbage record_e1
               (Error "Failed to parse SQS message body as JSON")
               (envelope_value "evt-1" detail_e1));
      try (vm_compute; reflexivity); auto.
Defined.

(** The parser accepts an envelope whose detail has none of the fields
    of an Order Event. *)
Lemma C4_unvalidated_detail_counterexample :
  parseEventBridgeEnvelope JSON_parse_demo record_note
  = Ok (envelope_value "evt-3" detail_note)
  /\ get_opt (envelope_value "evt-3" detail_note) "detail" = detail_note
  /\ spec_valid_OrderEvent detail_note = false.
Proof. repeat split; vm_compute; reflexivity. Qed.

End WorkerProps.

(** ** Properties of the replay tool *)

Module ReplayProps.
Import Replay.

Lemma forwardable_spec (m : Message) :
  forwardable m = false <->
  falsy_str (Body m) = true \/ falsy_str (ReceiptHandle m) = true
  \/ falsy_str (MessageId m) = true.
Proof.
  unfold forwardable.
  destruct (falsy_str (Body m)), (falsy_str (ReceiptHandle m)), (falsy_str (MessageId m));
    simpl; intuition discriminate.
Qed.

Lemma forwarded_In (messages : list Message) (answers : list (option JsError)) (m : Message) :
  In m (forwarded messages answers) -> In m messages /\ forwardable m = true.
Proof.
  revert answers. induction messages as [|x rest IH]; intros answers; simpl; [tauto|].
  destruct (forwardable x) eqn:Hx.
  - destruct (head answers) as [[e|]|]; simpl.
    + intros H. destruct (IH _ H). auto.
    + intros [<-|H]; auto. destruct (IH _ H). auto.
    + intros [<-|H]; auto. destruct (IH _ H). auto.
  - intros H. destruct (IH _ H). auto.
Qed.

(** The skipped messages play no part in the loop. *)
Lemma forward_loop_skips (messages : list Message) (n : nat) (toDelete : list Message)
    (w : World) :
  forward_loop messages n toDelete w
  = forward_loop (List.filter forwardable messages) n toDelete w.
Proof.
  revert n toDelete w. induction messages as [|m rest IH]; intros n td w; [reflexivity|].
  simpl. unfold forwardable at 1.
  destruct (falsy_str (Body m) || falsy_str (ReceiptHandle m) || falsy_str (MessageId m))
    eqn:Hskip; simpl.
  - apply IH.
  - unfold forwardable. rewrite Hskip. simpl. unfold bind.
    destruct (try_catch _ _ w) as [[state|e] w']; [apply IH | reflexivity].
Qed.

(** The forwarding loop: what it counts and collects, and what it does
    to the world. *)
Lemma forward_loop_run (messages : list Message) (n : nat) (toDelete : list Message)
    (w : World) :
  exists w1,
    forward_loop messages n toDelete w
    = (Ok ((n + length (forwarded messages (send_script w)))%nat,
           (toDelete ++ forwarded messages (send_script w))%list), w1) /\
    dlq w1 = dlq w /\
    main_queue w1
    = (main_queue w ++ map body_of (forwarded messages (send_script w)))%list /\
    receive_script w1 = receive_script w /\
    delete_script w1 = delete_script w.
Proof.
  revert n toDelete w. induction messages as [|m rest IH]; intros n td w.
  - exists w. simpl. unfold ret. rewrite Nat.add_0_r, !app_nil_r. auto.
  - simpl. unfold forwardable.
    destruct (falsy_str (Body m) || falsy_str (ReceiptHandle m) || falsy_str (MessageId m));
      simpl; [apply IH|].
    unfold bind, try_catch, sqs_send, console_write, modify, ret.
    destruct (head (send_script w)) as [[e|]|] eqn:Hh; simpl.
    + match goal with |- context [forward_loop rest n td ?w0] =>
        destruct (IH n td w0) as (w1 & -> & Hd & Hm & Hr & Hdel) end.
      exists w1. simpl in *. auto.
    + match goal with |- context [forward_loop rest (S n) ?td0 ?w0] =>
        destruct (IH (S n) td0 w0) as (w1 & -> & Hd & Hm & Hr & Hdel) end.
      exists w1. simpl in *. rewrite Hm, <- !app_assoc, Nat.add_succ_r. simpl.
      split; [reflexivity|]. auto.
    + match goal with |- context [forward_loop rest (S n) ?td0 ?w0] =>
        destruct (IH (S n) td0 w0) as (w1 & -> & Hd & Hm & Hr & Hdel) end.
      exists w1. simpl in *. rewrite Hm, <- !app_assoc, Nat.add_succ_r. simpl.
      split; [reflexivity|]. auto.
Qed.

(** *** The batch delete *)

Lemma option_string_eqb_eq (a b : option string) : option_string_eqb a b = true -> a = b.
Proof.
  destruct a, b; simpl; try discriminate; auto.
  intros H. apply String.eqb_eq in H. now subst.
Qed.

Lemma filter_all {A} (l : list A) : List.filter (fun _ => true) l = l.
Proof. induction l; simpl; congruence. Qed.

(** The service removes only messages that an entry of the command
    names, and answers each command once. *)
Lemma sqs_delete_batch_frame (entries : list DeleteEntry) (w w2 : World)
    (r : Res (option (list string))) :
  sqs_delete_batch entries w = (r, w2) ->
  main_queue w2 = main_queue w /\ console w2 = console w /\
  send_script w2 = send_script w /\ receive_script w2 = receive_script w /\
  delete_script w2 = tail (delete_script w) /\
  exists gone,
    (forall e, In e gone -> In e entries) /\
    dlq w2 = List.filter (fun m => negb (removed_by gone m)) (dlq w).
Proof.
  unfold sqs_delete_batch.
  destruct (head (delete_script w)) as [[Failed|e]|]; intros [= <- <-]; simpl;
    repeat split; auto.
  - exists (deleted_entries entries (default [] Failed)). split; [|reflexivity].
    intros x. unfold deleted_entries. rewrite filter_In. tauto.
  - exists []. split; [intros x []|]. simpl. now rewrite filter_all.
  - exists entries. auto.
Qed.

Lemma removed_by_handle (entries : list DeleteEntry) (m : Message) :
  removed_by entries m = true ->
  exists e, In e entries /\ EntryHandle e = ReceiptHandle m.
Proof.
  unfold removed_by. rewrite existsb_exists. intros (e & Hin & H).
  exists e. split; [assumption|]. now apply option_string_eqb_eq.
Qed.

Lemma delete_phase_nil (w : World) : delete_phase [] w = (Ok tt, w).
Proof. reflexivity. Qed.

Lemma delete_phase_cons (toDelete : list Message) (w : World) :
  toDelete <> [] ->
  delete_phase toDelete w =
  match sqs_delete_batch (map entry_of toDelete) w with
  | (Ok Failed, w2) =>
    if (0 <? length (default [] Failed))%nat
    then (Ok tt, logged (LogDeleteFailed (length (default [] Failed))) w2)
    else (Ok tt, w2)
  | (Throw e, w2) => (Throw e, w2)
  end.
Proof.
  intros H. unfold delete_phase. destruct toDelete as [|m rest]; [congruence|].
  change (0 <? length (m :: rest))%nat with true. cbv iota. unfold bind.
  destruct (sqs_delete_batch _ w) as [[Failed|e] w2]; [|reflexivity].
  unfold console_write, modify, logged, ret.
  destruct (0 <? length (default [] Failed))%nat; reflexivity.
Qed.

(** The delete phase leaves the main queue alone and removes from the DLQ
    only messages whose receipt handle a forwarded message carries. *)
Lemma delete_phase_frame (toDelete : list Message) (w w2 : World) (r : Res unit) :
  delete_phase toDelete w = (r, w2) ->
  main_queue w2 = main_queue w /\ receive_script w2 = receive_script w /\
  exists gone,
    (forall e, In e gone -> In e (map entry_of toDelete)) /\
    dlq w2 = List.filter (fun m => negb (removed_by gone m)) (dlq w).
Proof.
  destruct toDelete as [|m rest].
  - rewrite delete_phase_nil. intros [= <- <-]. do 2 (split; [reflexivity|]).
    exists []. split; [intros e []|]. simpl. now rewrite filter_all.
  - rewrite delete_phase_cons by discriminate.
    destruct (sqs_delete_batch _ w) as [[Failed|e] w0] eqn:Hd;
      destruct (sqs_delete_batch_frame _ _ _ _ Hd) as (Hm & _ & _ & Hr & _ & gone & Hg & Hdlq).
    + destruct (0 <? length (default [] Failed))%nat; intros [= <- <-]; simpl;
        (do 2 (split; [assumption|])); exists gone; auto.
    + intros [= <- <-]. do 2 (split; [assumption|]). exists gone. auto.
Qed.

(** *** One pass *)

Lemma receive_ok (w : World) :
  (forall e, head (receive_script w) <> Some (Throw e)) ->
  sqs_receive w = (Ok (Some (received w)), after_receive w)
  \/ (received w = [] /\ sqs_receive w = (Ok None, after_receive w)).
Proof.
  unfold sqs_receive, received, after_receive. intros H.
  destruct (head (receive_script w)) as [[[messages|]|e]|]; auto.
  exfalso. now apply (H e).
Qed.

(** [replayOnce] is the forwarding loop over the received batch followed
    by the delete phase over what was forwarded. *)
Lemma replayOnce_phases (w : World) :
  (forall e, head (receive_script w) <> Some (Throw e)) ->
  exists w1,
    forward_loop (received w) 0 [] (after_receive w)
    = (Ok (length (forwarded (received w) (send_script w)),
           forwarded (received w) (send_script w)), w1) /\
    dlq w1 = dlq w /\
    main_queue w1
    = (main_queue w ++ map body_of (forwarded (received w) (send_script w)))%list /\
    receive_script w1 = tail (receive_script w) /\
    delete_script w1 = delete_script w /\
    replayOnce w =
    match delete_phase (forwarded (received w) (send_script w)) w1 with
    | (Ok _, w2) => (Ok (length (forwarded (received w) (send_script w))), w2)
    | (Throw e, w2) => (Throw e, w2)
    end.
Proof.
  intros Hrecv.
  destruct (forward_loop_run (received w) 0 [] (after_receive w))
    as (w1 & Hloop & Hd & Hm & Hr & Hdel).
  simpl in Hloop, Hd, Hm, Hr, Hdel. exists w1. repeat split; auto.
  unfold replayOnce, bind at 1.
  assert (Hcase : exists result, sqs_receive w = (Ok result, after_receive w)
                                 /\ default [] result = received w).
  { destruct (receive_ok w Hrecv) as [H|[Hnil H]]; rewrite H; eexists; split; eauto. }
  destruct Hcase as (result & -> & ->).
  destruct (received w) as [|m rest] eqn:Hmsgs.
  - simpl in *. injection Hloop as <-. reflexivity.
  - remember (forwarded (m :: rest) (send_script w)) as F eqn:HF.
    change (length (m :: rest) =? 0)%nat with false. cbv iota.
    unfold bind at 1. rewrite Hloop. cbv beta iota. unfold fst, snd.
    change (bind (delete_phase F) (fun _ => ret (length F)) w1
            = match delete_phase F w1 with
              | (Ok _, w2) => (Ok (length F), w2)
              | (Throw e, w2) => (Throw e, w2)
              end).
    unfold bind. destruct (delete_phase F w1) as [[u|e] w2]; reflexivity.
Qed.

(** C7. A message leaves the DLQ only after its body has been forwarded:
    the forwarding loop runs first and touches only the main queue, which
    gains exactly the bodies of the messages whose send succeeded; the one
    batch delete that follows carries exactly the entries of those
    messages, so a message that is gone from the DLQ shares its receipt
    handle with a forwarded one, and a message whose forward failed (no
    forwarded message has its handle) is still there. When the delete
    reports failed entries, the pass still returns its count, prints one
    warning with their number and issues no second delete. *)
Theorem C7_delete_only_after_forward (w : World) :
  (forall e, head (receive_script w) <> Some (Throw e)) ->
  exists w1,
    forward_loop (received w) 0 [] (after_receive w)
    = (Ok (length (forwarded (received w) (send_script w)),
           forwarded (received w) (send_script w)), w1) /\
    dlq w1 = dlq w /\
    main_queue w1
    = (main_queue w ++ map body_of (forwarded (received w) (send_script w)))%list /\
    replayOnce w =
    match delete_phase (forwarded (received w) (send_script w)) w1 with
    | (Ok _, w2) => (Ok (length (forwarded (received w) (send_script w))), w2)
    | (Throw e, w2) => (Throw e, w2)
    end /\
    (forall m, In m (forwarded (received w) (send_script w)) ->
               In m (received w) /\ forwardable m = true) /\
    main_queue (snd (replayOnce w))
    = (main_queue w ++ map body_of (forwarded (received w) (send_script w)))%list /\
    (forall m, In m (dlq w) -> ~ In m (dlq (snd (replayOnce w))) ->
       exists m', In m' (forwarded (received w) (send_script w)) /\
                  ReceiptHandle m' = ReceiptHandle m) /\
    (forall m, In m (dlq w) ->
       (forall m', In m' (forwarded (received w) (send_script w)) ->
                   ReceiptHandle m' <> ReceiptHandle m) ->
       In m (dlq (snd (replayOnce w)))) /\
    (forall failed,
       forwarded (received w) (send_script w) <> [] ->
       head (delete_script w) = Some (Ok (Some failed)) -> failed <> [] ->
       fst (replayOnce w) = Ok (length (forwarded (received w) (send_script w))) /\
       console (snd (replayOnce w))
       = (console w1 ++ [LogDeleteFailed (length failed)])%list /\
       delete_script (snd (replayOnce w)) = tail (delete_script w) /\
       dlq (snd (replayOnce w))
       = List.filter
           (fun m => negb (removed_by
                             (deleted_entries
                                (map entry_of (forwarded (received w) (send_script w)))
                                failed) m))
           (dlq w)).
Proof.
  intros Hrecv.
  destruct (replayOnce_phases w Hrecv) as (w1 & Hloop & Hd & Hm & Hr & Hdel & Hrun).
  set (F := forwarded (received w) (send_script w)) in *.
  exists w1. do 4 (split; [assumption|]).
  assert (Hgone : forall m, In m (dlq w) -> ~ In m (dlq (snd (replayOnce w))) ->
                            exists m', In m' F /\ ReceiptHandle m' = ReceiptHandle m).
  { intros m Hin Hout. rewrite Hrun in Hout.
    destruct (delete_phase F w1) as [[u|e] w2] eqn:Hdp;
      destruct (delete_phase_frame _ _ _ _ Hdp) as (_ & _ & gone & Hsub & Hdlq);
      simpl in Hout; rewrite Hdlq, Hd in Hout;
      (destruct (removed_by gone m) eqn:Hrm;
       [ apply removed_by_handle in Hrm as (x & Hx & Hh);
         apply Hsub, in_map_iff in Hx as (m' & <- & Hm'); exists m'; auto
       | exfalso; apply Hout; apply filter_In; rewrite Hrm; auto ]). }
  split; [|split; [|split; [|split]]].
  - intros m. apply forwarded_In.
  - rewrite Hrun. destruct (delete_phase F w1) as [[u|e] w2] eqn:Hdp;
      destruct (delete_phase_frame _ _ _ _ Hdp) as (Hq & _); simpl; congruence.
  - exact Hgone.
  - intros m Hin Hno.
    destruct (in_dec (fun a b : Message => ltac:(repeat decide equality))
                     m (dlq (snd (replayOnce w)))) as [Hyes|Hout]; [assumption|].
    destruct (Hgone m Hin Hout) as (m' & Hm' & Hh). now apply Hno in Hm'.
  - intros failed HF Hans Hne. rewrite Hrun, (delete_phase_cons _ _ HF).
    unfold sqs_delete_batch. rewrite Hdel, Hans. simpl default.
    destruct failed as [|f rest]; [congruence|]. simpl. rewrite Hd. auto.
Qed.

(** *** The drain loop *)

Lemma replayOnce_receive_throws (w : World) (e : JsError) :
  head (receive_script w) = Some (Throw e) -> replayOnce w = (Throw e, after_receive w).
Proof. intros H. unfold replayOnce, bind, sqs_receive. now rewrite H. Qed.

Lemma received_nil_script (w : World) : receive_script w = [] -> received w = [].
Proof. unfold received. now intros ->. Qed.

(** What a pass that does not throw returns and leaves of the script. *)
Lemma replayOnce_Ok (w w1 : World) (n : nat) :
  replayOnce w = (Ok n, w1) ->
  n = length (forwarded (received w) (send_script w)) /\
  receive_script w1 = tail (receive_script w).
Proof.
  intros H.
  assert (Hrecv : forall e, head (receive_script w) <> Some (Throw e)).
  { intros e He. rewrite (replayOnce_receive_throws _ _ He) in H. discriminate. }
  destruct (replayOnce_phases w Hrecv) as (w0 & _ & _ & _ & Hr & _ & Hrun).
  rewrite Hrun in H.
  destruct (delete_phase _ w0) as [[u|e] w2] eqn:Hdp; [|discriminate].
  injection H as <- <-.
  destruct (delete_phase_frame _ _ _ _ Hdp) as (_ & Hr2 & _). split; congruence.
Qed.

Lemma main_loop_terminates (fuel total : nat) (w : World) :
  (length (receive_script w) < fuel)%nat -> fst (main_loop fuel total w) <> Ok None.
Proof.
  revert total w. induction fuel as [|fuel IH]; intros total w Hlen; [lia|].
  simpl. unfold bind at 1.
  destruct (replayOnce w) as [[n|e] w1] eqn:Hrun; [|discriminate].
  destruct (replayOnce_Ok _ _ _ Hrun) as (Hn & Hr).
  destruct n as [|n]; [discriminate|].
  change (S n =? 0)%nat with false. cbv iota.
  unfold bind, console_write, modify.
  apply IH. simpl. rewrite Hr.
  destruct (receive_script w) as [|a script] eqn:Hs; simpl in *; [|lia].
  rewrite (received_nil_script _ Hs) in Hn. discriminate.
Qed.

(** C8, as the code has it. The drain loop is left, with the total, by
    the first pass that replays nothing, which is a pass that forwards no
    message: the receive came back empty, or every received message was
    skipped or failed to forward. A pass that forwards at least one message
    is followed by another; a pass that throws ends the loop with its
    error. Against an environment that answers finitely many receives with
    messages, the loop is left. *)
Theorem C8_loop_exits_when_nothing_replayed (fuel total : nat) (w : World) :
  (forall n w1, replayOnce w = (Ok n, w1) ->
     n = length (forwarded (received w) (send_script w))) /\
  (forall w1, replayOnce w = (Ok 0%nat, w1) ->
     main_loop (S fuel) total w = (Ok (Some total), w1)) /\
  (forall n w1, replayOnce w = (Ok (S n), w1) ->
     main_loop (S fuel) total w
     = main_loop fuel (total + S n) (logged (LogBatch (S n) (total + S n)) w1)) /\
  (forall e w1, replayOnce w = (Throw e, w1) ->
     main_loop (S fuel) total w = (Throw e, w1)) /\
  (received w = [] -> (forall e, head (receive_script w) <> Some (Throw e)) ->
   fst (replayOnce w) = Ok 0%nat) /\
  ((length (receive_script w) < fuel)%nat -> fst (main_loop fuel total w) <> Ok None).
Proof.
  split; [|split; [|split; [|split; [|split]]]].
  - intros n w1 H. now destruct (replayOnce_Ok _ _ _ H).
  - intros w1 H. simpl. unfold bind. now rewrite H.
  - intros n w1 H. simpl. unfold bind at 1. rewrite H. reflexivity.
  - intros e w1 H. simpl. unfold bind. now rewrite H.
  - intros Hnil Hrecv.
    destruct (replayOnce_phases w Hrecv) as (w1 & _ & _ & _ & _ & _ & Hrun).
    rewrite Hrun, Hnil. reflexivity.
  - apply main_loop_terminates.
Qed.

(** C10. A received message without a body, a receipt handle or an
    identifier takes no part in a pass: the loop runs as if the message
    were not in the batch, so it is neither sent, nor collected for
    deletion, nor counted. A non-empty batch of such messages only makes
    the pass return zero with both queues and the send and delete scripts
    untouched, and the drain loop stops there. *)
Theorem C10_incomplete_messages_skipped :
  (forall m, forwardable m = false <->
     falsy_str (Body m) = true \/ falsy_str (ReceiptHandle m) = true
     \/ falsy_str (MessageId m) = true) /\
  (forall messages n toDelete w,
     forward_loop messages n toDelete w
     = forward_loop (List.filter forwardable messages) n toDelete w) /\
  (forall messages answers m,
     In m (forwarded messages answers) -> forwardable m = true) /\
  (forall messages w fuel total,
     head (receive_script w) = Some (Ok (Some messages)) ->
     messages <> [] ->
     Forall (fun m => forwardable m = false) messages ->
     replayOnce w = (Ok 0%nat, after_receive w) /\
     dlq (after_receive w) = dlq w /\
     main_queue (after_receive w) = main_queue w /\
     send_script (after_receive w) = send_script w /\
     delete_script (after_receive w) = delete_script w /\
     main_loop (S fuel) total w = (Ok (Some total), after_receive w)).
Proof.
  split; [|split; [|split]].
  - apply forwardable_spec.
  - apply forward_loop_skips.
  - intros messages answers m H. now apply forwarded_In in H.
  - intros messages w fuel total Hrecv Hne Hall.
    assert (Hrun : replayOnce w = (Ok 0%nat, after_receive w)).
    { unfold replayOnce, bind at 1, sqs_receive. rewrite Hrecv. fold (after_receive w).
      destruct messages as [|m rest]; [congruence|].
      change (default [] (Some (m :: rest))) with (m :: rest).
      change (length (m :: rest) =? 0)%nat with false. cbv iota.
      unfold bind at 1. rewrite forward_loop_skips.
      assert (Hnil : List.filter forwardable (m :: rest) = []).
      { clear - Hall. induction Hall as [|x l Hx _ IH]; simpl; [reflexivity|].
        now rewrite Hx. }
      rewrite Hnil. reflexivity. }
    repeat split; auto.
    simpl. unfold bind. now rewrite Hrun.
Qed.

(** *** The theorems at work on the example queues *)

Import Examples.

Example replay_pass :
  replayOnce replay_world
  = (Ok 1%nat,
     mkWorld [msg_a] [body_fail] [] [] []
             [LogSendFailed (Some "id-a") "connect ETIMEDOUT"]).
Proof. vm_compute. reflexivity. Qed.

Lemma C7_replay_witness :
  fst (replayOnce replay_world_delete_fails) = Ok 1%nat
  /\ main_queue (snd (replayOnce replay_world_delete_fails)) = [body_fail]
  /\ In msg_a (dlq (snd (replayOnce replay_world_delete_fails)))
  /\ dlq (snd (replayOnce replay_world_delete_fails)) = [msg_a; msg_b]
  /\ console (snd (replayOnce replay_world_delete_fails))
     = [LogSendFailed (Some "id-a") "connect ETIMEDOUT"; LogDeleteFailed 1].
Proof.
  destruct (C7_delete_only_after_forward replay_world_delete_fails)
    as (w1 & Hloop & _ & _ & _ & _ & Hq & _ & Hkept & Hwarn).
  { intros e. discriminate. }
  injection Hloop as <-.
  destruct (Hwarn ["id-b"]) as (Hn & Hc & _ & Hd); try discriminate; try reflexivity.
  split; [exact Hn|]. split; [exact Hq|]. split; [|split; [exact Hd | exact Hc]].
  apply Hkept; [left; reflexivity|].
  intros m' [<-|[]]. discriminate.
Defined.

(** The loop stops after a receive that returned a message: the forward
    failed, nothing was replayed, and the next batch is never asked for. *)
Lemma C8_exit_without_empty_receive_counterexample :
  received replay_world_stuck = [msg_a]
  /\ fst (main_loop 5 0 replay_world_stuck) = Ok (Some 0%nat)
  /\ receive_script (snd (main_loop 5 0 replay_world_stuck)) = [Ok (Some [msg_a])]
  /\ dlq (snd (main_loop 5 0 replay_world_stuck)) = [msg_a].
Proof. repeat split; vm_compute; reflexivity. Qed.

Lemma C8_loop_witness :
  fst (main_loop 5 0 replay_world) = Ok (Some 1%nat).
Proof.
  destruct (C8_loop_exits_when_nothing_replayed 4 0 replay_world)
    as (_ & _ & Hmore & _).
  rewrite (Hmore 0%nat _ replay_pass). change (0 + 1)%nat with 1%nat.
  destruct (C8_loop_exits_when_nothing_replayed 3 1
              (logged (LogBatch 1 1)
                 (mkWorld [msg_a] [body_fail] [] [] []
                          [LogSendFailed (Some "id-a") "connect ETIMEDOUT"])))
    as (_ & Hstop & _).
  erewrite Hstop; [reflexivity|]. vm_compute. reflexivity.
Defined.

Lemma C10_skipped_witness :
  replayOnce replay_world_nobody = (Ok 0%nat, after_receive replay_world_nobody)
  /\ dlq (after_receive replay_world_nobody) = [msg_nobody]
  /\ main_loop 5 0 replay_world_nobody = (Ok (Some 0%nat), after_receive replay_world_nobody).
Proof.
  destruct C10_incomplete_messages_skipped as (_ & _ & _ & H).
  destruct (H [msg_nobody] replay_world_nobody 4%nat 0%nat)
    as (Hrun & Hd & _ & _ & _ & Hloop); try reflexivity; try discriminate.
  { repeat constructor. }
  split; [exact Hrun|]. split; [exact Hd | exact Hloop].
Defined.

End ReplayProps.

(** ** Further properties of the worker *)

Module WorkerMore.
Import Worker WorkerProps.

Section Batches.

Variable JSON_parse : string -> option JsVal.
Variable parseInt10 : string -> option Z.
Variable env_TABLE_NAME : option string.
Variable env_TTL_DAYS : option string.

Local Abbreviation parse := (parseEventBridgeEnvelope JSON_parse).
Local Abbreviation claim := (recordIdempotency parseInt10 env_TABLE_NAME env_TTL_DAYS).
Local Abbreviation step := (handle_record JSON_parse parseInt10 env_TABLE_NAME env_TTL_DAYS).
Local Abbreviation outcome := (classify JSON_parse parseInt10 env_TABLE_NAME env_TTL_DAYS).
Local Abbreviation after := (world_after JSON_parse parseInt10 env_TABLE_NAME env_TTL_DAYS).
Local Abbreviation after_all :=
  (world_after_all JSON_parse parseInt10 env_TABLE_NAME env_TTL_DAYS).
Local Abbreviation failures :=
  (failed_ids JSON_parse parseInt10 env_TABLE_NAME env_TTL_DAYS).
Local Abbreviation run := (handler JSON_parse parseInt10 env_TABLE_NAME env_TTL_DAYS).
Local Abbreviation ready := (configured parseInt10 env_TABLE_NAME env_TTL_DAYS).

Lemma run_result (Records : list SQSRecord) (w : World) :
  run Records w = (Ok (failures Records w), after_all Records w).
Proof. unfold handler. now rewrite loop_run. Qed.

Lemma after_all_snoc (pre : list SQSRecord) (record : SQSRecord) (w : World) :
  after_all (pre ++ [record]) w = after record (after_all pre w).
Proof. unfold world_after_all. now rewrite fold_left_app. Qed.

(** The world one envelope leaves, outcome by outcome. *)
Lemma after_cases (record : SQSRecord) (w : World) :
  (exists err, parse record = Throw err /\
               outcome record w = ParseFailure /\
               after record w = logged (failure_line JUndefined JUndefined err) w) \/
  (exists envelope,
     parse record = Ok envelope /\
     ((exists err w1,
         claim (get_opt envelope "detail") w = (Throw err, w1) /\
         outcome record w = StoreFailure /\
         after record w = logged (failure_line envelope (get_opt envelope "detail") err) w1) \/
      (exists w1,
         claim (get_opt envelope "detail") w = (Ok Duplicate, w1) /\
         outcome record w = DuplicateIgnored /\
         after record w = logged (duplicate_line (get_opt envelope "detail")) w1) \/
      (exists w1 w2 r,
         claim (get_opt envelope "detail") w = (Ok New, w1) /\
         processOrder (get_opt envelope "detail") w1 = (r, w2) /\
         match r with
         | Ok _ => outcome record w = Processed /\ after record w = w2
         | Throw err =>
           outcome record w = BusinessFailure /\
           after record w = logged (failure_line envelope (get_opt envelope "detail") err) w2
         end))).
Proof.
  unfold world_after, classify. rewrite step_run.
  destruct (parse record) as [envelope|err]; [right|left; eauto].
  exists envelope. split; [reflexivity|]. cbv zeta.
  destruct (claim _ w) as [[[|]|err] w1] eqn:Hc.
  - right. right. destruct (processOrder _ w1) as [[u|err] w2] eqn:Hp.
    + exists w1, w2, (Ok u). auto.
    + exists w1, w2, (Throw err). auto.
  - right. left. eauto.
  - left. eauto.
Qed.

(** X1. The handler never throws, and what it returns is a subsequence of
    the identifiers of the batch, in batch order, so no more identifiers
    than records. *)
Theorem X1_failures_subsequence (Records : list SQSRecord) (w : World) :
  exists ids w',
    run Records w = (Ok ids, w') /\
    sublist ids (map messageId Records) /\
    (length ids <= length Records)%nat.
Proof.
  exists (failures Records w), (after_all Records w).
  split; [apply run_result|].
  assert (Hsub : sublist (failures Records w) (map messageId Records)).
  { revert w. induction Records as [|r rest IH]; intros w; simpl; [constructor|].
    destruct (failed (outcome r w)); simpl.
    - apply sublist_skip, IH.
    - apply sublist_cons, IH. }
  split; [assumption|].
  apply sublist_length in Hsub. now rewrite length_map in Hsub.
Qed.

(** X2. Handling a batch is handling its first part and then, in the
    world that leaves, its second part: the identifiers returned are the
    two results one after the other, and the final world is the same. *)
Theorem X2_batch_split (first second : list SQSRecord) (w : World) :
  exists ids1 w1 ids2 w2,
    run first w = (Ok ids1, w1) /\
    run second w1 = (Ok ids2, w2) /\
    run (first ++ second) w = (Ok (ids1 ++ ids2)%list, w2).
Proof.
  exists (failures first w), (after_all first w),
         (failures second (after_all first w)),
         (after_all second (after_all first w)).
  rewrite !run_result. repeat split.
  f_equal.
  - f_equal. revert w. induction first as [|r rest IH]; intros w; simpl; [reflexivity|].
    now rewrite IH, <- app_assoc.
  - unfold world_after_all. apply fold_left_app.
Qed.

(** X3. Every envelope leaves exactly one line on the console, whatever
    becomes of it. *)
Theorem X3_one_line_per_envelope (Records : list SQSRecord) (w : World) :
  length (console (snd (run Records w))) = (length (console w) + length Records)%nat.
Proof.
  rewrite run_result. simpl snd.
  assert (Hstep : forall record w0,
            length (console (after record w0)) = S (length (console w0))).
  { intros record w0.
    destruct (after_cases record w0)
      as [(err & _ & _ & ->)
         |(envelope & _ & [(err & w1 & Hc & _ & ->)
                          |[(w1 & Hc & _ & ->)|(w1 & w2 & r & Hc & Hp & Hr)]])].
    - simpl. rewrite length_app. simpl. lia.
    - destruct (claim_frame _ _ _ _ _ _ _ Hc) as (_ & Hl & _).
      simpl. rewrite length_app, Hl. simpl. lia.
    - destruct (claim_frame _ _ _ _ _ _ _ Hc) as (_ & Hl & _).
      simpl. rewrite length_app, Hl. simpl. lia.
    - destruct (claim_frame _ _ _ _ _ _ _ Hc) as (_ & Hl & _).
      destruct (processOrder_frame _ _ _ _ Hp) as (_ & _ & _ & _ & Hw).
      destruct r as [u|err]; destruct Hr as (_ & ->); rewrite Hw; simpl;
        rewrite length_app, Hl; simpl; lia. }
  revert w. induction Records as [|r rest IH]; intros w; simpl; [lia|].
  change (fold_left _ rest (after r w)) with (after_all rest (after r w)).
  rewrite IH, Hstep. lia.
Qed.

(** X4. Over a batch, the table gains exactly as many records as
    [processOrder] is entered times: every New claim is followed by one
    call, and nothing else writes or calls. *)
Theorem X4_one_call_per_record_written (Records : list SQSRecord) (w : World) :
  (size (table (snd (run Records w))) + length (processOrder_calls w))%nat
  = (size (table w) + length (processOrder_calls (snd (run Records w))))%nat.
Proof.
  rewrite run_result. simpl snd.
  assert (Hstep : forall record w0,
            (size (table (after record w0)) + length (processOrder_calls w0))%nat
            = (size (table w0) + length (processOrder_calls (after record w0)))%nat).
  { intros record w0.
    destruct (after_cases record w0)
      as [(err & _ & _ & ->)
         |(envelope & _ & [(err & w1 & Hc & _ & ->)
                          |[(w1 & Hc & _ & ->)|(w1 & w2 & r & Hc & Hp & Hr)]])].
    - reflexivity.
    - destruct (claim_frame _ _ _ _ _ _ _ Hc) as (_ & _ & Hcalls & _ & _ & Htab).
      simpl. rewrite Hcalls, Htab; [reflexivity|discriminate].
    - destruct (claim_frame _ _ _ _ _ _ _ Hc) as (_ & _ & Hcalls & _ & _ & Htab).
      simpl. rewrite Hcalls, Htab; [reflexivity|discriminate].
    - destruct (claim_New_inv _ _ _ _ _ _ Hc) as (name & k & _ & _ & _ & Hfree & _ & Hw1).
      destruct (processOrder_frame _ _ _ _ Hp) as (Htab & _ & _ & Hcalls & _).
      assert (Hsize : size (table w2) = S (size (table w0))).
      { rewrite Htab, Hw1. simpl. now apply map_size_insert_None. }
      assert (Hlen : length (processOrder_calls w2) = S (length (processOrder_calls w0))).
      { rewrite Hcalls, Hw1, length_app. simpl. lia. }
      destruct r as [u|err]; destruct Hr as (_ & ->); simpl; lia. }
  revert w. induction Records as [|r rest IH]; intros w; simpl; [reflexivity|].
  change (fold_left _ rest (after r w)) with (after_all rest (after r w)).
  specialize (IH (after r w)). specialize (Hstep r w). lia.
Qed.

(** X5. Without a table name every envelope of the batch is reported
    failed, the store is never called and nothing is written or
    processed. *)
Theorem X5_unconfigured_fails_everything (Records : list SQSRecord) (w : World) :
  falsy_str env_TABLE_NAME = true ->
  fst (run Records w) = Ok (map messageId Records) /\
  table (snd (run Records w)) = table w /\
  store_faults (snd (run Records w)) = store_faults w /\
  processOrder_calls (snd (run Records w)) = processOrder_calls w.
Proof.
  intros Hunset. rewrite run_result. simpl fst. simpl snd.
  assert (Hstep : forall record w0,
            failed (outcome record w0) = true /\
            table (after record w0) = table w0 /\
            store_faults (after record w0) = store_faults w0 /\
            processOrder_calls (after record w0) = processOrder_calls w0).
  { intros record w0.
    destruct (after_cases record w0)
      as [(err & _ & -> & ->)
         |(envelope & _ & [(err & w1 & Hc & -> & ->)
                          |[(w1 & Hc & _)|(w1 & w2 & r & Hc & _)]])];
      try (rewrite (claim_unconfigured _ _ _ _ _ Hunset) in Hc; try discriminate).
    - auto.
    - injection Hc as _ <-. auto. }
  revert w. induction Records as [|r rest IH]; intros w; simpl; [auto|].
  change (fold_left _ rest (after r w)) with (after_all rest (after r w)).
  destruct (Hstep r w) as (-> & Ht & Hf & Hc).
  destruct (IH (after r w)) as (Hids & Ht' & Hf' & Hc').
  injection Hids as ->. simpl. repeat split; congruence.
Qed.

(** Where a record of the table comes from, as the store model keeps
    it. *)
Lemma record_origin (Records : list SQSRecord) (w : World) (k : string) (it : Item) :
  table (snd (run Records w)) !! k = Some it ->
  table w !! k = Some it \/
  exists record envelope,
    In record Records /\ parse record = Ok envelope /\
    get_opt (get_opt envelope "detail") "eventId" = JStr k /\
    eventId it = JStr k /\
    orderId it = get_opt (get_opt envelope "detail") "orderId" /\
    createdAt it = get_opt (get_opt envelope "detail") "createdAt".
Proof.
  rewrite run_result. simpl snd.
  assert (Hstep : forall record w0,
            table (after record w0) !! k = Some it ->
            table w0 !! k = Some it \/
            exists envelope,
              parse record = Ok envelope /\
              get_opt (get_opt envelope "detail") "eventId" = JStr k /\
              eventId it = JStr k /\
              orderId it = get_opt (get_opt envelope "detail") "orderId" /\
              createdAt it = get_opt (get_opt envelope "detail") "createdAt").
  { intros record w0.
    destruct (after_cases record w0)
      as [(err & _ & _ & ->)
         |(envelope & Hp & [(err & w1 & Hc & _ & ->)
                           |[(w1 & Hc & _ & ->)|(w1 & w2 & r & Hc & Hpo & Hr)]])].
    - auto.
    - destruct (claim_frame _ _ _ _ _ _ _ Hc) as (_ & _ & _ & _ & _ & Htab).
      simpl. rewrite Htab; [auto|discriminate].
    - destruct (claim_frame _ _ _ _ _ _ _ Hc) as (_ & _ & _ & _ & _ & Htab).
      simpl. rewrite Htab; [auto|discriminate].
    - destruct (claim_New_inv _ _ _ _ _ _ Hc) as (name & k0 & _ & _ & Hk & _ & _ & Hw1).
      destruct (processOrder_frame _ _ _ _ Hpo) as (Htab & _).
      assert (Hafter : table (after record w0) = table w1).
      { destruct r as [u|err]; destruct Hr as (_ & ->); simpl; assumption. }
      rewrite Hafter, Hw1. simpl.
      destruct (item_key_any_time _ _ _ _ _ 0 _ Hk) as (_ & He).
      destruct (decide (k0 = k)) as [->|Hne].
      + rewrite lookup_insert_eq. intros [= <-]. right. exists envelope.
        unfold claim_command. simpl. rewrite He. auto.
      + rewrite lookup_insert_ne by assumption. auto. }
  revert w. induction Records as [|r rest IH]; intros w; simpl; [auto|].
  change (fold_left _ rest (after r w)) with (after_all rest (after r w)).
  intros H. destruct (IH _ H) as [Hbefore|(record & envelope & Hin & Hrest)].
  - destruct (Hstep _ _ Hbefore) as [Hw|(envelope & Hrest)]; [auto|].
    right. exists r, envelope. auto.
  - right. exists record, envelope. auto.
Qed.

(** X6. The handler writes no record of its own invention. For a batch
    whose envelopes carry a string eventId, orderId and createdAt, a record
    the table holds after the batch was there before, or is keyed by the
    eventId of an envelope of the batch and carries the eventId, orderId
    and createdAt of that envelope. *)
Theorem X6_records_come_from_the_batch
    (Records : list SQSRecord) (w : World) (k : string) (it : Item) :
  (forall record envelope,
     In record Records -> parse record = Ok envelope ->
     is_string (get_opt (get_opt envelope "detail") "eventId") = true /\
     is_string (get_opt (get_opt envelope "detail") "orderId") = true /\
     is_string (get_opt (get_opt envelope "detail") "createdAt") = true) ->
  table (snd (run Records w)) !! k = Some it ->
  table w !! k = Some it \/
  exists record envelope o c,
    In record Records /\ parse record = Ok envelope /\
    get_opt (get_opt envelope "detail") "eventId" = JStr k /\
    get_opt (get_opt envelope "detail") "orderId" = JStr o /\
    get_opt (get_opt envelope "detail") "createdAt" = JStr c /\
    it = mkItem (JStr k) (JStr o) (JStr c) (expiresAt it).
Proof.
  intros Htyped Hk.
  destruct (record_origin _ _ _ _ Hk)
    as [Hold|(record & envelope & Hin & Hparse & He & Hie & Hio & Hic)]; [auto|].
  right. destruct (Htyped _ _ Hin Hparse) as (_ & Ho & Hc).
  destruct (get_opt (get_opt envelope "detail") "orderId") as [| | | |o| |] eqn:Hdo;
    try discriminate.
  destruct (get_opt (get_opt envelope "detail") "createdAt") as [| | | |c| |] eqn:Hdc;
    try discriminate.
  exists record, envelope, o, c. repeat split; auto.
  destruct it as [ie io ic ix]. simpl in *. congruence.
Qed.

Lemma claim_calls_store (detail : JsVal) (w w1 : World) (r : Res IdempotencyStatus) :
  falsy_str env_TABLE_NAME = false -> truthy detail = true ->
  claim detail w = (r, w1) -> store_faults w1 = tail (store_faults w).
Proof.
  intros Hset Ht.
  assert (Hn : exists name, env_TABLE_NAME = Some name /\ name <> "").
  { unfold falsy_str in Hset. destruct env_TABLE_NAME as [name|]; [|discriminate].
    exists name. split; [reflexivity|]. now apply String.eqb_neq. }
  destruct Hn as (name & Hn & Hne).
  rewrite (claim_run _ _ _ _ _ _ Hn Hne Ht).
  destruct (dynamo_send _ w) as [[[]|e] w0] eqn:Hs;
    destruct (dynamo_send_frame _ _ _ _ Hs) as (_ & _ & _ & Hf & _).
  - now intros [= _ <-].
  - destruct (String.eqb (err_name e) _); now intros [= _ <-].
Qed.

(** X7. With a table name set, the handler calls the store exactly once
    for every envelope that parses and never for one that does not. *)
Theorem X7_one_store_call_per_parsed_envelope (Records : list SQSRecord) (w : World) :
  falsy_str env_TABLE_NAME = false ->
  store_faults (snd (run Records w))
  = drop (length (List.filter
                    (fun record => match parse record with Ok _ => true | Throw _ => false end)
                    Records))
         (store_faults w).
Proof.
  intros Hset. rewrite run_result. simpl snd.
  assert (Hstep : forall record w0,
            store_faults (after record w0)
            = match parse record with
              | Ok _ => tail (store_faults w0)
              | Throw _ => store_faults w0
              end).
  { intros record w0.
    destruct (after_cases record w0)
      as [(err & Hp & _ & ->)
         |(envelope & Hp & Hcases)]; rewrite Hp; [reflexivity|].
    destruct (parse_Ok_inv _ _ _ Hp) as (_ & _ & Ht & _).
    destruct Hcases as [(err & w1 & Hc & _ & ->)
                       |[(w1 & Hc & _ & ->)|(w1 & w2 & r & Hc & Hpo & Hr)]];
      pose proof (claim_calls_store _ _ _ _ Hset Ht Hc) as Hf.
    - exact Hf.
    - exact Hf.
    - destruct (processOrder_frame _ _ _ _ Hpo) as (_ & _ & Hf2 & _).
      destruct r as [u|err]; destruct Hr as (_ & ->); simpl; congruence. }
  revert w. induction Records as [|r rest IH]; intros w; simpl; [reflexivity|].
  change (fold_left _ rest (after r w)) with (after_all rest (after r w)).
  rewrite IH, Hstep.
  destruct (parse r); simpl; [|reflexivity].
  destruct (store_faults w); simpl; [now rewrite drop_nil|reflexivity].
Qed.

(** An envelope with a typed detail, met by a store that answers, leaves
    its key in the table. *)
Lemma after_has_key (record : SQSRecord) (envelope : JsVal) (e : string) (w : World) :
  parse record = Ok envelope ->
  is_OrderCreatedDetail (get_opt envelope "detail") = true ->
  get_opt (get_opt envelope "detail") "eventId" = JStr e ->
  ready = true -> store_answers w = true ->
  exists it, table (after record w) !! e = Some it.
Proof.
  intros Hp Ht He Hr Ha.
  destruct (table w !! e) as [it|] eqn:Hk.
  - exists it. now apply after_frame.
  - destruct (after_first_delivery _ _ _ _ _ _ _ _ Hp Ht He Hr Ha Hk) as (name & _ & -> & _).
    eexists. apply lookup_insert_eq.
Qed.

(** What a duplicate leaves behind. *)
Lemma duplicate_leaves (record : SQSRecord) (envelope : JsVal) (e : string) (it : Item)
    (w : World) :
  parse record = Ok envelope ->
  is_OrderCreatedDetail (get_opt envelope "detail") = true ->
  get_opt (get_opt envelope "detail") "eventId" = JStr e ->
  ready = true -> store_answers w = true -> table w !! e = Some it ->
  outcome record w = DuplicateIgnored /\
  processOrder_calls (after record w) = processOrder_calls w /\
  table (after record w) = table w.
Proof.
  intros Hp Ht He Hr Ha Hk.
  pose proof (claim_duplicate parseInt10 env_TABLE_NAME env_TTL_DAYS _ _ _ _ Ht He Hr Ha Hk)
    as Hc.
  unfold world_after, classify.
  rewrite (step_duplicate JSON_parse parseInt10 env_TABLE_NAME env_TTL_DAYS
             _ _ _ _ _ _ Hp Ht He Hr Ha Hk), Hp, Hc. auto.
Qed.

(** X8. A batch that is handled and then redelivered in full is not
    processed twice. With a store that answers and details of the shape of
    [OrderCreatedDetail], the second pass claims every envelope that parses
    as Duplicate: it enters [processOrder] for none, writes nothing, and
    reports only the envelopes that do not parse, so an envelope whose
    business processing failed the first time is acknowledged the second
    time. *)
Theorem X8_redelivered_batch_not_processed_twice
    (Records : list SQSRecord) (w w' : World) :
  ready = true ->
  (forall record envelope,
     In record Records -> parse record = Ok envelope ->
     is_OrderCreatedDetail (get_opt envelope "detail") = true) ->
  Forall (fun f => f = None) (store_faults w) ->
  Forall (fun f => f = None) (store_faults w') ->
  (forall k it, table (snd (run Records w)) !! k = Some it -> table w' !! k = Some it) ->
  fst (run Records w')
  = Ok (map messageId
            (List.filter
               (fun record => match parse record with Ok _ => false | Throw _ => true end)
               Records)) /\
  processOrder_calls (snd (run Records w')) = processOrder_calls w' /\
  table (snd (run Records w')) = table w'.
Proof.
  intros Hr Htyped Hw Hw' Hkept. rewrite !run_result in *. simpl fst. simpl snd in *.
  (* every typed envelope of the batch has its key in the later world *)
  assert (Hkeys : forall record envelope,
            In record Records -> parse record = Ok envelope ->
            exists e it, get_opt (get_opt envelope "detail") "eventId" = JStr e /\
                         table w' !! e = Some it).
  { intros record envelope Hin Hp.
    pose proof (Htyped _ _ Hin Hp) as Ht.
    destruct (typed_detail_strings _ Ht) as (e & _ & _ & He & _).
    apply in_split in Hin as (pre & post & ->).
    assert (Hmid : exists it, table (after_all (pre ++ [record]) w) !! e = Some it).
    { rewrite after_all_snoc. eapply after_has_key; eauto.
      apply no_fault_answers. now apply after_all_no_fault. }
    destruct Hmid as (it & Hit).
    exists e, it. split; [assumption|]. apply Hkept.
    replace (pre ++ record :: post)%list with ((pre ++ [record]) ++ post)%list
      by now rewrite <- app_assoc.
    unfold world_after_all. rewrite fold_left_app. now apply after_all_keeps. }
  clear Hkept Hw.
  assert (Hgen : forall batch w0,
            incl batch Records ->
            table w0 = table w' -> Forall (fun f => f = None) (store_faults w0) ->
            failures batch w0
            = map messageId
                  (List.filter
                     (fun record => match parse record with
                                    | Ok _ => false | Throw _ => true end) batch) /\
            processOrder_calls (after_all batch w0) = processOrder_calls w0 /\
            table (after_all batch w0) = table w').
  { induction batch as [|r rest IH]; intros w0 Hincl Htab Hnf; simpl; [auto|].
    change (fold_left _ rest (after r w0)) with (after_all rest (after r w0)).
    assert (Hin : In r Records) by (apply Hincl; now left).
    assert (Hrest : incl rest Records) by (intros x Hx; apply Hincl; now right).
    destruct (parse r) as [envelope|err] eqn:Hp.
    - destruct (Hkeys _ _ Hin Hp) as (e & it & He & Hit).
      pose proof (Htyped _ _ Hin Hp) as Ht.
      rewrite <- Htab in Hit.
      destruct (duplicate_leaves r envelope e it w0 Hp Ht He Hr
                  (no_fault_answers _ Hnf) Hit) as (Ho & Hc & Ht0).
      rewrite Ho. simpl.
      assert (Htab1 : table (after r w0) = table w') by congruence.
      assert (Hnf1 : Forall (fun f => f = None) (store_faults (after r w0))).
      { destruct (after_frame JSON_parse parseInt10 env_TABLE_NAME env_TTL_DAYS r w0)
          as (_ & [-> | ->] & _); auto using tail_no_fault. }
      destruct (IH (after r w0) Hrest Htab1 Hnf1) as (-> & Hc' & Ht').
      split; [reflexivity|]. split; congruence.
    - rewrite (outcome_parse_failure _ _ _ _ _ _ _ Hp). simpl.
      destruct (after_cases r w0) as [(err' & _ & _ & Hafter)|(envelope & Hp' & _)];
        [|congruence].
      assert (Htab1 : table (after r w0) = table w') by now rewrite Hafter.
      assert (Hnf1 : Forall (fun f => f = None) (store_faults (after r w0)))
        by now rewrite Hafter.
      destruct (IH (after r w0) Hrest Htab1 Hnf1) as (-> & Hc' & Ht').
      split; [reflexivity|]. split; [|assumption]. now rewrite Hc', Hafter. }
  destruct (Hgen Records w' (incl_refl _) eq_refl Hw') as (-> & Hc & Ht).
  split; [reflexivity|]. split; assumption.
Qed.

End Batches.


Import Examples.

Lemma X5_unconfigured_witness :
  fst (handler JSON_parse_demo parseInt10_ascii None (Some "7")
               [record_e1; record_garbage] world0) = Ok ["m-1"; "m-4"]
  /\ table (snd (handler JSON_parse_demo parseInt10_ascii None (Some "7")
                         [record_e1; record_garbage] world0)) = ∅.
Proof.
  destruct (X5_unconfigured_fails_everything JSON_parse_demo parseInt10_ascii None (Some "7")
              [record_e1; record_garbage] world0 eq_refl) as (Hids & Htab & _).
  split; [exact Hids | exact Htab].
Defined.

Lemma X6_origin_witness :
  exists record envelope,
    In record [record_e1; record_garbage] /\
    parseEventBridgeEnvelope JSON_parse_demo record = Ok envelope /\
    get_opt (get_opt envelope "detail") "orderId" = JStr "o1".
Proof.
  destruct (X6_records_come_from_the_batch JSON_parse_demo parseInt10_ascii
              (Some "orders-idempotency") (Some "7") [record_e1; record_garbage] world0 "e1"
              (mkItem (JStr "e1") (JStr "o1") (JStr "2024-01-01T00:00:00.000Z")
                      (Some (1704067200 + 7 * 24 * 60 * 60))))
    as [Hold|(record & envelope & o & c & Hin & Hparse & _ & Ho & _ & Hit)].
  - intros record envelope [<-|[<-|[]]] Hparse; vm_compute in Hparse;
      try discriminate; injection Hparse as <-; repeat split.
  - vm_compute. reflexivity.
  - discriminate.
  - exists record, envelope. split; [exact Hin|]. split; [exact Hparse|].
    injection Hit as <- _. exact Ho.
Defined.

Lemma X7_store_calls_witness :
  store_faults (snd (handler_demo [record_garbage; record_e1] world_down)) = [].
Proof.
  apply (X7_one_store_call_per_parsed_envelope JSON_parse_demo parseInt10_ascii
           (Some "orders-idempotency") (Some "7") [record_garbage; record_e1] world_down).
  reflexivity.
Defined.

Lemma X8_redelivery_witness :
  fst (handler_demo [record_garbage; record_e1; record_fail]
         (snd (handler_demo [record_garbage; record_e1; record_fail] world0)))
  = Ok ["m-4"]
  /\ processOrder_calls
       (snd (handler_demo [record_garbage; record_e1; record_fail]
               (snd (handler_demo [record_garbage; record_e1; record_fail] world0))))
     = [detail_e1; detail_fail].
Proof.
  destruct (X8_redelivered_batch_not_processed_twice JSON_parse_demo parseInt10_ascii
              (Some "orders-idempotency") (Some "7")
              [record_garbage; record_e1; record_fail] world0
              (snd (handler_demo [record_garbage; record_e1; record_fail] world0)))
    as (Hids & Hcalls & _).
  - reflexivity.
  - intros record envelope [<-|[<-|[<-|[]]]] Hparse; vm_compute in Hparse;
      try discriminate; injection Hparse as <-; reflexivity.
  - constructor.
  - vm_compute. constructor.
  - intros k it H. exact H.
  - split; [exact Hids|]. etransitivity; [exact Hcalls|]. vm_compute. reflexivity.
Defined.

End WorkerMore.

(** ** Further properties of the replay tool *)

Module ReplayMore.
Import Replay ReplayProps.

Lemma forwardable_body (m : Message) :
  forwardable m = true -> Body m = Some (body_of m).
Proof.
  unfold forwardable, body_of, falsy_str. destruct (Body m) as [b|]; simpl; [reflexivity|].
  discriminate.
Qed.

Lemma received_in_script (w : World) (m : Message) :
  In m (received w) ->
  exists messages, In (Ok (Some messages)) (receive_script w) /\ In m messages.
Proof.
  unfold received. destruct (receive_script w) as [|[[messages|]|e] script]; simpl; try tauto.
  intros H. exists messages. auto.
Qed.

(** What one pass does to the two queues and the scripts, however it
    ends. *)
Lemma replayOnce_effect (w w1 : World) (r : Res nat) :
  replayOnce w = (r, w1) ->
  exists sent gone,
    (forall m, In m sent -> In m (received w) /\ forwardable m = true) /\
    main_queue w1 = (main_queue w ++ map body_of sent)%list /\
    (forall n, r = Ok n -> n = length sent) /\
    receive_script w1 = tail (receive_script w) /\
    (forall e, In e gone -> In e (map entry_of sent)) /\
    dlq w1 = List.filter (fun m => negb (removed_by gone m)) (dlq w).
Proof.
  intros Hrun.
  destruct (head (receive_script w)) as [[result|e]|] eqn:Hhead.
  2:{ rewrite (replayOnce_receive_throws _ _ Hhead) in Hrun. injection Hrun as <- <-.
      exists [], []. simpl. rewrite app_nil_r, filter_all.
      repeat split; auto; try tauto. discriminate. }
  all: (assert (Hrecv : forall e, head (receive_script w) <> Some (Throw e))
          by (intros e; rewrite Hhead; discriminate);
        destruct (replayOnce_phases w Hrecv) as (w0 & _ & Hd & Hm & Hr & _ & Hphase);
        rewrite Hphase in Hrun;
        exists (forwarded (received w) (send_script w));
        destruct (delete_phase _ w0) as [[u|e] w2] eqn:Hdp;
        destruct (delete_phase_frame _ _ _ _ Hdp) as (Hq & Hr2 & gone & Hsub & Hdlq);
        injection Hrun as <- <-; exists gone;
        (split; [intros m; apply forwarded_In|]);
        (split; [congruence|]);
        (split; [intros n Hn; congruence|]);
        (split; [congruence|]);
        (split; [assumption|]); congruence).
Qed.

(** The drain loop as a whole: what it adds to the main queue, what it
    leaves of the DLQ, and what it counts. *)
Lemma main_loop_effect (fuel total : nat) (w w' : World) (r : Res (option nat)) :
  main_loop fuel total w = (r, w') ->
  exists sent,
    (forall m, In m sent ->
       forwardable m = true /\
       exists messages, In (Ok (Some messages)) (receive_script w) /\ In m messages) /\
    main_queue w' = (main_queue w ++ map body_of sent)%list /\
    (forall n, r = Ok (Some n) -> n = (total + length sent)%nat) /\
    (forall m, In m (dlq w') -> In m (dlq w)) /\
    (sent = [] -> dlq w' = dlq w).
Proof.
  revert total w. induction fuel as [|fuel IH]; intros total w; simpl.
  - intros [= <- <-]. exists []. simpl. rewrite app_nil_r.
    repeat split; auto; try tauto. discriminate.
  - unfold bind at 1. destruct (replayOnce w) as [[n|e] w1] eqn:Hrun;
      destruct (replayOnce_effect _ _ _ Hrun)
        as (sent & gone & Hsent & Hq & Hn & Hr & Hsub & Hdlq).
    + specialize (Hn n eq_refl).
      assert (Hfrom : forall m, In m sent ->
                forwardable m = true /\
                exists messages, In (Ok (Some messages)) (receive_script w) /\ In m messages).
      { intros m Hm. destruct (Hsent m Hm) as (Hin & Hf). split; [assumption|].
        now apply received_in_script. }
      assert (Hshrink : forall m, In m (dlq w1) -> In m (dlq w)).
      { intros m. rewrite Hdlq, filter_In. tauto. }
      assert (Hsame : sent = [] -> dlq w1 = dlq w).
      { intros ->. rewrite Hdlq. destruct gone as [|x gone]; [apply filter_all|].
        exfalso. apply (Hsub x). now left. }
      destruct n as [|n].
      * intros [= <- <-]. exists sent. repeat split; auto.
        -- now apply Hfrom.
        -- now apply Hfrom.
        -- intros k [= <-]. lia.
      * change (S n =? 0)%nat with false. cbv iota.
        unfold bind, console_write, modify. intros Hloop.
        destruct (IH _ _ Hloop) as (more & Hmore & Hq' & Hn' & Hshrink' & Hsame').
        simpl in Hmore, Hq', Hshrink', Hsame'.
        exists (sent ++ more)%list. split; [|split; [|split; [|split]]].
        -- intros m Hm. apply in_app_or in Hm as [Hm|Hm]; [now apply Hfrom|].
           destruct (Hmore m Hm) as (Hf & messages & Hin & Hmem). split; [assumption|].
           exists messages. split; [|assumption].
           rewrite Hr in Hin. destruct (receive_script w); simpl in Hin; [tauto|now right].
        -- rewrite Hq', Hq, map_app, app_assoc. reflexivity.
        -- intros k Hk. rewrite (Hn' k Hk), length_app. lia.
        -- auto.
        -- intros Hnil. apply app_eq_nil in Hnil as (-> & ->). discriminate.
    + intros [= <- <-]. exists sent. split; [|split; [|split; [|split]]].
      * intros m Hm. destruct (Hsent m Hm) as (Hin & Hf). split; [assumption|].
        now apply received_in_script.
      * assumption.
      * discriminate.
      * intros m. rewrite Hdlq, filter_In. tauto.
      * intros ->. rewrite Hdlq. destruct gone as [|x gone]; [apply filter_all|].
        exfalso. apply (Hsub x). now left.
Qed.

Lemma main_effect (fuel : nat) (w w' : World) (r : Res (option nat)) :
  main fuel w = (r, w') ->
  exists sent,
    (forall m, In m sent ->
       forwardable m = true /\
       exists messages, In (Ok (Some messages)) (receive_script w) /\ In m messages) /\
    main_queue w' = (main_queue w ++ map body_of sent)%list /\
    (forall n, r = Ok (Some n) -> n = length sent) /\
    (forall m, In m (dlq w') -> In m (dlq w)) /\
    (sent = [] -> dlq w' = dlq w).
Proof.
  unfold main, bind, console_write, modify.
  destruct (main_loop fuel 0 _) as [[[total|]|e] w1] eqn:Hloop;
    destruct (main_loop_effect _ _ _ _ _ Hloop) as (sent & Hsent & Hq & Hn & Hshrink & Hsame);
    simpl in Hsent, Hq, Hshrink, Hsame;
    intros [= <- <-]; exists sent; simpl; repeat split; auto;
    try (now apply Hsent); try discriminate.
Qed.

(** The last line of a run that ends. *)
Lemma main_last_line (fuel total : nat) (w w' : World) :
  main fuel w = (Ok (Some total), w') ->
  exists earlier, console w' = (earlier ++ [LogDone total])%list.
Proof.
  unfold main, bind, console_write, modify.
  destruct (main_loop fuel 0 _) as [[[n|]|e] w1]; try discriminate.
  intros [= <- <-]. exists (console w1). reflexivity.
Qed.

(** X9. When the script ends, the last line it prints is the Done line,
    and the total on that line is the number of messages the run put on
    the main queue, which only grows at its end. *)
Theorem X9_logged_total_is_number_enqueued (fuel total : nat) (w w' : World) :
  main fuel w = (Ok (Some total), w') ->
  exists added earlier,
    main_queue w' = (main_queue w ++ added)%list /\
    console w' = (earlier ++ [LogDone (length added)])%list /\
    length added = total.
Proof.
  intros H. destruct (main_effect _ _ _ _ H) as (sent & _ & Hq & Hn & _).
  destruct (main_last_line _ _ _ _ H) as (earlier & Hc).
  exists (map body_of sent), earlier. split; [assumption|].
  rewrite length_map, <- (Hn total eq_refl). split; [exact Hc | reflexivity].
Qed.

(** X10. However a run ends, the DLQ holds no message it did not hold
    before, and when the run put nothing on the main queue the DLQ is
    exactly as it was. *)
Theorem X10_dlq_only_shrinks (fuel : nat) (w w' : World) (r : Res (option nat)) :
  main fuel w = (r, w') ->
  (forall m, In m (dlq w') -> In m (dlq w)) /\
  (main_queue w' = main_queue w -> dlq w' = dlq w).
Proof.
  intros H. destruct (main_effect _ _ _ _ H) as (sent & _ & Hq & _ & Hshrink & Hsame).
  split; [assumption|].
  intros Heq. apply Hsame. rewrite Heq in Hq.
  rewrite <- (app_nil_r (main_queue w)) in Hq at 1. apply app_inv_head in Hq.
  destruct sent; [reflexivity|discriminate].
Qed.

(** X11. The script invents no message and alters none: every body it
    puts on the main queue is, unchanged, the body of a message that a
    receive from the DLQ returned. *)
Theorem X11_bodies_forwarded_unchanged (fuel : nat) (w w' : World) (r : Res (option nat)) :
  main fuel w = (r, w') ->
  exists added,
    main_queue w' = (main_queue w ++ added)%list /\
    forall b, In b added ->
      exists messages m,
        In (Ok (Some messages)) (receive_script w) /\ In m messages /\ Body m = Some b.
Proof.
  intros H. destruct (main_effect _ _ _ _ H) as (sent & Hsent & Hq & _).
  exists (map body_of sent). split; [assumption|].
  intros b Hb. apply in_map_iff in Hb as (m & <- & Hm).
  destruct (Hsent m Hm) as (Hf & messages & Hin & Hmem).
  exists messages, m. repeat split; auto. now apply forwardable_body.
Qed.

(** *** The exit status *)

Import ReplayScript.









Import Examples.

Lemma X9_total_witness :
  exists added earlier,
    main_queue (snd (main 5 replay_world)) = added /\
    console (snd (main 5 replay_world)) = (earlier ++ [LogDone (length added)])%list.
Proof.
  destruct (X9_logged_total_is_number_enqueued 5 1 replay_world (snd (main 5 replay_world)))
    as (added & earlier & Hq & Hc & _).
  - vm_compute. reflexivity.
  - exists added, earlier. split; [exact Hq | exact Hc].
Defined.

Lemma X10_dlq_witness :
  Forall (fun m => m = msg_a \/ m = msg_b) (dlq (snd (main 5 replay_world))).
Proof.
  apply List.Forall_forall.
  destruct (X10_dlq_only_shrinks 5 replay_world (snd (main 5 replay_world))
              (fst (main 5 replay_world))) as (Hsub & _).
  - vm_compute. reflexivity.
  - intros m Hm. destruct (Hsub m Hm) as [<-|[<-|[]]]; auto.
Defined.

Lemma X11_bodies_witness :
  Forall (fun b => b = body_e1 \/ b = body_fail) (main_queue (snd (main 5 replay_world))).
Proof.
  apply List.Forall_forall.
  destruct (X11_bodies_forwarded_unchanged 5 replay_world (snd (main 5 replay_world))
              (fst (main 5 replay_world))) as (added & Hq & Hb).
  - vm_compute. reflexivity.
  - intros b Hin. rewrite Hq in Hin. destruct (Hb b Hin) as (messages & m & Hs & Hm & Hbody).
    destruct Hs as [Hs|[]]. injection Hs as <-.
    destruct Hm as [<-|[<-|[]]]; injection Hbody as <-; auto.
Defined.


End ReplayMore.

(** ** Properties of the API handler *)

Module ApiProps.
Import Api.

Section Validation.

Variable trim : string -> string.

Local Abbreviation check_item := (validate_item trim).
Local Abbreviation check_items := (validate_items trim).
Local Abbreviation validate := (validateOrderPayload trim).
Local Abbreviation acceptable := (valid_item trim).

(** An item as the validation takes it from the payload. *)
Lemma validate_item_Ok (item : JsVal) (index : nat) (v : OrderItem) :
  check_item item index = Ok v <->
  truthy item = true /\ get_opt item "sku" = JStr (sku v) /\
  get_opt item "qty" = JNum (qty v) /\ acceptable v = true.
Proof.
  unfold validate_item, valid_item. split.
  - destruct (truthy item) eqn:Ht.
    2:{ discriminate. }
    destruct (get_opt item "sku") as [| | | |s| |]; try discriminate.
    destruct (String.eqb (trim s) "") eqn:Hs; [discriminate|].
    destruct (get_opt item "qty") as [| | |x| | |]; try discriminate.
    destruct x as [neg|neg| |[|] m e]; simpl; try discriminate.
    intros [= <-]. simpl. rewrite Hs. auto.
  - intros (-> & -> & -> & Hv). destruct v as [s x]. simpl in *.
    apply andb_prop in Hv as (Hs & Hx). apply negb_true_iff in Hs. rewrite Hs.
    destruct x as [neg|neg| |[|] m e]; try discriminate. reflexivity.
Qed.

Lemma item_value_checks (v : OrderItem) (index : nat) :
  acceptable v = true -> check_item (item_value v) index = Ok v.
Proof. intros Hv. apply validate_item_Ok. repeat split. assumption. Qed.

(** A list of items validates exactly when each of them does. *)
Lemma validate_items_Ok (raw : list JsVal) (index : nat) (vs : list OrderItem) :
  check_items raw index = Ok vs <->
  Forall2 (fun item v =>
             truthy item = true /\ get_opt item "sku" = JStr (sku v) /\
             get_opt item "qty" = JNum (qty v) /\ acceptable v = true) raw vs.
Proof.
  revert index vs. induction raw as [|item rest IH]; intros index vs; simpl.
  - split.
    + intros [= <-]. constructor.
    + intros H. inversion H. reflexivity.
  - split.
    + destruct (check_item item index) as [v|e] eqn:Hi; [|discriminate].
      destruct (check_items rest (S index)) as [others|e] eqn:Hr; [|discriminate].
      intros [= <-]. constructor; [now apply (validate_item_Ok item index)|].
      now apply (IH (S index)).
    + intros H. inversion H as [|? v ? others Hv Hrest]; subst.
      apply (validate_item_Ok item index) in Hv. rewrite Hv.
      apply (IH (S index)) in Hrest. now rewrite Hrest.
Qed.

Lemma string_if_provided_Ok (x : JsVal) (message : string) (o : option string) :
  string_if_provided x message = Ok o <-> x = optional_string o.
Proof.
  destruct x, o; simpl; split; try discriminate; try congruence.
Qed.

Lemma validate_Ok_iff (payload : JsVal) (p : OrderPayload) :
  validate payload = Ok p <->
  truthy payload = true /\
  items p <> [] /\
  (exists raw,
     get_opt payload "items" = JArr raw /\
     Forall2 (fun item v =>
                truthy item = true /\ get_opt item "sku" = JStr (sku v) /\
                get_opt item "qty" = JNum (qty v) /\ acceptable v = true)
             raw (items p)) /\
  get_opt payload "customerId" = optional_string (customerId p) /\
  get_opt payload "orderId" = optional_string (orderId p).
Proof.
  unfold validateOrderPayload. split.
  - destruct (truthy payload) eqn:Ht.
    2:{ simpl. discriminate. }
    destruct (get_opt payload "items") as [| | | | |raw|] eqn:Hitems; try discriminate.
    destruct raw as [|first others]; [discriminate|].
    destruct (validate_items trim (first :: others) 0) as [vs|e] eqn:Hv; [|discriminate].
    destruct (string_if_provided (get_opt payload "customerId") _) as [c|e] eqn:Hc;
      [|discriminate].
    destruct (string_if_provided (get_opt payload "orderId") _) as [o|e] eqn:Ho;
      [|discriminate].
    intros [= <-]. simpl.
    apply validate_items_Ok in Hv. apply string_if_provided_Ok in Hc, Ho.
    repeat split; auto.
    + inversion Hv. discriminate.
    + exists (first :: others). auto.
  - intros (-> & Hne & (raw & -> & Hall) & Hc & Ho).
    destruct raw as [|first others].
    { inversion Hall as [Hraw Hnil|]. symmetry in Hnil. contradiction. }
    apply (validate_items_Ok (first :: others) 0) in Hall. rewrite Hall.
    rewrite Hc, Ho.
    destruct p as [[c|] [o|] its]; reflexivity.
Qed.

(** X13. What [validateOrderPayload] accepts, and what it returns. A
    payload is accepted exactly when it is truthy, its [items] is a
    non-empty array of truthy values each with a string [sku] that is not
    blank and a finite [qty] above zero, and its [customerId] and
    [orderId] are strings or undefined; the result holds the sku and qty
    of each item, in order and nothing else of it, and the two
    identifiers as given. *)
Theorem X13_validation_accepts_exactly (payload : JsVal) (p : OrderPayload) :
  validate payload = Ok p <->
  truthy payload = true /\
  items p <> [] /\
  (exists raw,
     get_opt payload "items" = JArr raw /\
     Forall2 (fun item v =>
                truthy item = true /\ get_opt item "sku" = JStr (sku v) /\
                get_opt item "qty" = JNum (qty v) /\ acceptable v = true)
             raw (items p)) /\
  get_opt payload "customerId" = optional_string (customerId p) /\
  get_opt payload "orderId" = optional_string (orderId p).
Proof. apply validate_Ok_iff. Qed.

Lemma validated_items_acceptable (payload : JsVal) (p : OrderPayload) :
  validate payload = Ok p -> items p <> [] /\ Forall (fun v => acceptable v = true) (items p).
Proof.
  intros H. apply validate_Ok_iff in H as (_ & Hne & (raw & _ & Hall) & _).
  split; [assumption|]. clear Hne.
  induction Hall as [|item v raw vs (_ & _ & _ & Hv) _ IH]; constructor; auto.
Qed.

(** X14. Validating what the validation returned changes nothing: the
    payload a validated order stands for is accepted again, with the same
    result. *)
Theorem X14_validation_is_idempotent (payload : JsVal) (p : OrderPayload) :
  validate payload = Ok p -> validate (payload_value p) = Ok p.
Proof.
  intros H. destruct (validated_items_acceptable _ _ H) as (Hne & Hall).
  apply validate_Ok_iff. repeat split; auto.
  exists (map item_value (items p)). split; [reflexivity|].
  clear H Hne. induction Hall as [|v vs Hv _ IH]; simpl; constructor; auto.
Qed.

Lemma validate_items_first_rejected
    (raw : list JsVal) (k i : nat) (item : JsVal) (err : JsError) :
  raw !! i = Some item ->
  (forall j item', (j < i)%nat -> raw !! j = Some item' ->
                   exists v, check_item item' (k + j) = Ok v) ->
  check_item item (k + i) = Throw err ->
  check_items raw k = Throw err.
Proof.
  revert k i. induction raw as [|x rest IH]; intros k i Hi Hbefore Herr; [discriminate|].
  destruct i as [|i]; simpl in *.
  - injection Hi as ->. rewrite Nat.add_0_r in Herr. now rewrite Herr.
  - destruct (Hbefore 0%nat x) as (v & Hv); [lia|reflexivity|].
    rewrite Nat.add_0_r in Hv. rewrite Hv.
    rewrite (IH (S k) i Hi); [reflexivity| |].
    + intros j item' Hj Hl. replace (S k + j)%nat with (k + S j)%nat by lia.
      apply Hbefore; [lia|assumption].
    + now replace (S k + i)%nat with (k + S i)%nat by lia.
Qed.

Lemma validate_item_Throw (item : JsVal) (index : nat) (err : JsError) :
  check_item item index = Throw err ->
  err = Error ("items[" +:+ dec index +:+ "].sku must be a non-empty string") \/
  err = Error ("items[" +:+ dec index +:+ "].qty must be a positive number").
Proof.
  unfold validate_item.
  destruct (if truthy item then get_opt item "sku" else JUndefined) as [| | | |s| |];
    try (intros [= <-]; auto; fail).
  destruct (String.eqb (trim s) ""); [intros [= <-]; auto|].
  destruct (get_opt item "qty") as [| | |x| | |]; try (intros [= <-]; auto; fail).
  destruct (negb (Number_isFinite x) || le_zero x); [intros [= <-]; auto|discriminate].
Qed.

(** X15. When an item of the payload is rejected, the request fails with
    the error of the first such item, which names its position and the
    field at fault; neither a later item nor the identifiers are looked
    at. *)
Theorem X15_first_rejected_item_decides
    (payload : JsVal) (raw : list JsVal) (i : nat) (item : JsVal) (err : JsError) :
  truthy payload = true ->
  get_opt payload "items" = JArr raw ->
  raw !! i = Some item ->
  (forall j item', (j < i)%nat -> raw !! j = Some item' ->
                   exists v, check_item item' j = Ok v) ->
  check_item item i = Throw err ->
  validate payload = Throw err /\
  (err = Error ("items[" +:+ dec i +:+ "].sku must be a non-empty string") \/
   err = Error ("items[" +:+ dec i +:+ "].qty must be a positive number")).
Proof.
  intros Ht Hitems Hi Hbefore Herr. split; [|now apply validate_item_Throw with item].
  unfold validateOrderPayload. rewrite Ht, Hitems.
  destruct raw as [|first others]; [discriminate|].
  now rewrite (validate_items_first_rejected (first :: others) 0 i item err Hi Hbefore Herr).
Qed.

End Validation.

(** *** Messages and their status *)

Lemma includes_app_r (a b p : string) : includes b p = true -> includes (a +:+ b) p = true.
Proof.
  intros H. induction a as [|c a IH]; simpl; [assumption|].
  rewrite IH. apply orb_true_r.
Qed.

Lemma ascii_lower_app (a b : string) :
  ascii_lower (a +:+ b) = ascii_lower a +:+ ascii_lower b.
Proof. induction a as [|c a IH]; simpl; [reflexivity|]. now rewrite IH. Qed.

Lemma is_ascii_app (a b : string) : is_ascii (a +:+ b) = is_ascii a && is_ascii b.
Proof. induction a as [|c a IH]; simpl; [reflexivity|]. now rewrite IH, andb_assoc. Qed.

Lemma is_ascii_digits (d : Decimal.uint) : is_ascii (NilEmpty.string_of_uint d) = true.
Proof. induction d; simpl; auto. Qed.

Lemma is_ascii_dec (n : nat) : is_ascii (dec n) = true.
Proof.
  unfold dec, NilZero.string_of_uint.
  destruct (Nat.to_uint n) eqn:Hd; try reflexivity; rewrite <- Hd; apply is_ascii_digits.
Qed.

(** *** The handler *)

Section Requests.

Variable JSON_parse : string -> option JsVal.
Variable trim : string -> string.
Variable toLowerCase : string -> string.
Variable toISOString : Z -> string.
Variable env_EVENT_BUS_NAME : option string.

Local Abbreviation validate := (validateOrderPayload trim).
Local Abbreviation request := (requested_order JSON_parse trim).
Local Abbreviation status := (error_status toLowerCase).
Local Abbreviation serve :=
  (handler JSON_parse trim toLowerCase toISOString env_EVENT_BUS_NAME).

(** On ASCII text [toLowerCase] moves the letters A to Z and nothing
    else. *)
Hypothesis toLowerCase_ascii :
  forall s, is_ascii s = true -> toLowerCase s = ascii_lower s.

Lemma status_ascii (message : string) :
  is_ascii message = true ->
  status message
  = if includes (ascii_lower message) "must" || includes (ascii_lower message) "invalid"
    then 400%nat else 500%nat.
Proof. intros H. unfold error_status. now rewrite (toLowerCase_ascii _ H). Qed.

Lemma status_item_message (index : nat) (rest : string) :
  is_ascii rest = true -> includes (ascii_lower rest) "must" = true ->
  status ("items[" +:+ dec index +:+ rest) = 400%nat.
Proof.
  intros Ha Hm. rewrite status_ascii.
  - rewrite !ascii_lower_app.
    now rewrite (includes_app_r _ _ _ (includes_app_r _ _ _ Hm)).
  - rewrite !is_ascii_app, is_ascii_dec, Ha. reflexivity.
Qed.

Lemma validate_items_Throw (raw : list JsVal) (k : nat) (err : JsError) :
  validate_items trim raw k = Throw err ->
  exists item i, validate_item trim item i = Throw err.
Proof.
  revert k. induction raw as [|x rest IH]; intros k; simpl; [discriminate|].
  destruct (validate_item trim x k) as [v|e] eqn:Hx.
  - destruct (validate_items trim rest (S k)) as [vs|e] eqn:Hr; [discriminate|].
    intros [= <-]. now apply (IH (S k)).
  - intros [= <-]. eauto.
Qed.

(** Every error of the validation is answered 400. *)
Lemma validate_Throw_status (payload : JsVal) (err : JsError) :
  validate payload = Throw err -> status (err_message err) = 400%nat.
Proof.
  unfold validateOrderPayload.
  destruct (get_opt _ "items") as [| | | | |[|first others]|];
    try (intros [= <-]; now rewrite status_ascii).
  destruct (validate_items trim (first :: others) 0) as [vs|e] eqn:Hv.
  - destruct (string_if_provided _ "customerId must be a string if provided")
      as [c|e] eqn:Hc.
    + destruct (string_if_provided _ "orderId must be a string if provided")
        as [o|e] eqn:Ho; [discriminate|].
      intros [= <-]. unfold string_if_provided in Ho.
      destruct (get_opt _ "orderId"); try discriminate;
        injection Ho as <-; now rewrite status_ascii.
    + intros [= <-]. unfold string_if_provided in Hc.
      destruct (get_opt _ "customerId"); try discriminate;
        injection Hc as <-; now rewrite status_ascii.
  - intros [= <-]. apply validate_items_Throw in Hv as (item & i & Hi).
    apply validate_item_Throw in Hi as [-> | ->]; simpl;
      now apply status_item_message.
Qed.

Lemma requestId_step (event : APIGatewayProxyEvent) (w : World) :
  (if falsy_str (requestId event) then uuidv4 else ret (default "" (requestId event))) w
  = (Ok (fst (take_requestId event w)), snd (take_requestId event w)).
Proof. unfold take_requestId, uuidv4, ret. now destruct (falsy_str (requestId event)). Qed.

Lemma take_requestId_frame (event : APIGatewayProxyEvent) (w : World) :
  event_bus (snd (take_requestId event w)) = event_bus w /\
  put_events_script (snd (take_requestId event w)) = put_events_script w /\
  clock (snd (take_requestId event w)) = clock w /\
  uuid_supply (snd (take_requestId event w)) = uuid_supply w.
Proof. unfold take_requestId. destruct (falsy_str (requestId event)); simpl; auto. Qed.

(** Without a bus name the handler answers 500 and does nothing else. *)
Lemma serve_unconfigured (event : APIGatewayProxyEvent) (w : World) :
  falsy_str env_EVENT_BUS_NAME = true ->
  serve event w
  = (Ok (mkResult 500 (message_body "Internal server error")),
     logged (LogMissingBus (fst (take_requestId event w))) (snd (take_requestId event w))).
Proof.
  intros Hunset. unfold handler, bind at 1. rewrite requestId_step.
  unfold EVENT_BUS_NAME, falsy_str in *.
  destruct env_EVENT_BUS_NAME as [name|]; [rewrite Hunset|]; reflexivity.
Qed.

(** A request that asks for no valid order is answered from the [catch]
    block, before anything is drawn or sent. *)
Lemma serve_rejected (event : APIGatewayProxyEvent) (w : World) (err : JsError) :
  falsy_str env_EVENT_BUS_NAME = false ->
  request event = Throw err ->
  serve event w
  = (Ok (mkResult (status (err_message err)) (message_body (err_message err))),
     logged (LogRequestFailed (fst (take_requestId event w)) (err_message err))
            (snd (take_requestId event w))).
Proof.
  intros Hset Hreq. unfold handler, bind at 1. rewrite requestId_step.
  unfold EVENT_BUS_NAME, falsy_str in *.
  destruct env_EVENT_BUS_NAME as [name|]; [|discriminate]. rewrite Hset.
  unfold requested_order in Hreq. unfold try_catch, bind, lift.
  destruct (parseBody JSON_parse event) as [payload|e]; [|now injection Hreq as ->].
  now rewrite Hreq.
Qed.

(** A request that asks for a valid order: the identifiers are drawn,
    the entry is sent, and the answer of the bus decides. *)
Lemma serve_accepted (event : APIGatewayProxyEvent) (w : World) (p : OrderPayload)
    (name : string) :
  env_EVENT_BUS_NAME = Some name -> name <> "" ->
  request event = Ok p ->
  let rid := fst (take_requestId event w) in
  let w0 := snd (take_requestId event w) in
  let eventId := fresh_eventId w0 in
  let orderId := chosen_orderId p w0 in
  let entry :=
    mkEntry name "myapp.orders" "OrderCreated"
            (detail_value eventId orderId (toISOString (clock w)) (customerId p) (items p)) in
  exists w',
    put_events_script w' = tail (put_events_script w) /\
    match next_bus_answer w with
    | BusThrows e =>
      serve event w
      = (Ok (mkResult (status (err_message e)) (message_body (err_message e))), w') /\
      event_bus w' = event_bus w
    | BusRejects n =>
      serve event w = (Ok (mkResult 500 (message_body "Failed to publish event")), w') /\
      event_bus w' = event_bus w
    | BusAccepts =>
      serve event w
      = (Ok (mkResult 202 (JObj [("orderId", JStr orderId); ("eventId", JStr eventId)])), w') /\
      event_bus w' = (event_bus w ++ [entry])%list
    end.
Proof.
  intros Hn Hne Hreq. cbv zeta.
  destruct (take_requestId_frame event w) as (Hbus & Hscript & Hclock & Hsupply).
  remember (serve event w) as result eqn:Hres.
  unfold handler, bind at 1 in Hres. rewrite requestId_step in Hres.
  unfold EVENT_BUS_NAME in Hres. rewrite Hn in Hres.
  apply String.eqb_neq in Hne. rewrite Hne in Hres.
  unfold requested_order in Hreq. unfold try_catch, bind at 1, lift in Hres.
  destruct (parseBody JSON_parse event) as [payload|e]; [|discriminate].
  unfold bind at 1 in Hres. rewrite Hreq in Hres.
  unfold next_bus_answer, fresh_eventId, chosen_orderId.
  set (w0 := snd (take_requestId event w)) in *.
  unfold bind, uuidv4, Date_now, eventbridge_send, console_write, modify, ret in Hres.
  destruct (falsy_str (orderId p)); simpl in Hres; rewrite Hscript, Hclock in Hres;
    (destruct (head (put_events_script w)) as [[[[|n]|]|e]|]; simpl in Hres; rewrite Hres;
     eexists; (split; [|split; [reflexivity|]]); simpl; congruence).
Qed.

(** X16. A request that asks for no valid order. With the bus
    configured, a request whose body is missing or empty is answered 500,
    and one whose body is not JSON or does not validate is answered 400;
    the answer carries the message of the error, and nothing is drawn,
    sent or published. *)
Theorem X16_request_errors (event : APIGatewayProxyEvent) (w : World) (err : JsError) :
  falsy_str env_EVENT_BUS_NAME = false ->
  request event = Throw err ->
  exists w',
    serve event w
    = (Ok (mkResult (if falsy_str (body event) then 500%nat else 400%nat)
                    (message_body (err_message err))), w') /\
    event_bus w' = event_bus w /\
    put_events_script w' = put_events_script w /\
    uuid_next w' = uuid_next (snd (take_requestId event w)).
Proof.
  intros Hset Hreq. rewrite (serve_rejected _ _ _ Hset Hreq).
  destruct (take_requestId_frame event w) as (Hbus & Hscript & _).
  exists (logged (LogRequestFailed (fst (take_requestId event w)) (err_message err))
                 (snd (take_requestId event w))).
  split; [|simpl; split; [exact Hbus|split; [exact Hscript|reflexivity]]].
  do 2 f_equal. f_equal.
  unfold requested_order, parseBody in Hreq.
  destruct (falsy_str (body event)).
  - injection Hreq as <-. now rewrite status_ascii.
  - destruct (JSON_parse _) as [payload|].
    + now apply validate_Throw_status with payload.
    + injection Hreq as <-. now rewrite status_ascii.
Qed.

Lemma status_cases (message : string) :
  status message = 400%nat \/ status message = 500%nat.
Proof. unfold error_status. destruct (_ || _); auto. Qed.

Lemma bus_name_cases :
  falsy_str env_EVENT_BUS_NAME = true \/
  exists name, env_EVENT_BUS_NAME = Some name /\ name <> "".
Proof.
  unfold falsy_str. destruct env_EVENT_BUS_NAME as [name|]; [|auto].
  destruct (String.eqb name "") eqn:Hn; [auto|].
  right. exists name. split; [reflexivity|]. now apply String.eqb_neq.
Qed.

Lemma bus_name_set (name : string) :
  env_EVENT_BUS_NAME = Some name -> name <> "" -> falsy_str env_EVENT_BUS_NAME = false.
Proof. intros -> H. simpl. now apply String.eqb_neq. Qed.

(** The only way to a 202. *)
Lemma serve_202_inv (event : APIGatewayProxyEvent) (w w' : World)
    (res : APIGatewayProxyResult) :
  serve event w = (Ok res, w') -> statusCode res = 202%nat ->
  exists name p,
    env_EVENT_BUS_NAME = Some name /\ name <> "" /\
    request event = Ok p /\ next_bus_answer w = BusAccepts.
Proof.
  intros Hrun H202.
  destruct bus_name_cases as [Hunset|(name & Hn & Hne)].
  { rewrite (serve_unconfigured _ _ Hunset) in Hrun. injection Hrun as <- _.
    discriminate. }
  destruct (request event) as [p|err] eqn:Hreq.
  - exists name, p. repeat split; auto.
    destruct (serve_accepted event w p name Hn Hne Hreq) as (w1 & _ & Hcase).
    destruct (next_bus_answer w) as [e|n|]; [| |reflexivity];
      destruct Hcase as (Hrun' & _); rewrite Hrun' in Hrun; injection Hrun as <- _.
    + simpl in H202. destruct (status_cases (err_message e)); congruence.
    + discriminate.
  - rewrite (serve_rejected _ _ _ (bus_name_set _ Hn Hne) Hreq) in Hrun.
    injection Hrun as <- _. simpl in H202.
    destruct (status_cases (err_message err)); congruence.
Qed.

(** X17. The handler never throws and answers 202, 400 or 500. It
    answers 202 exactly when it has put one entry on the bus, an
    OrderCreated event of source myapp.orders on the configured bus; with
    any other answer the bus is as it was. *)
Theorem X17_published_exactly_on_202 (event : APIGatewayProxyEvent) (w : World) :
  exists res w',
    serve event w = (Ok res, w') /\
    (statusCode res = 202%nat \/ statusCode res = 400%nat \/ statusCode res = 500%nat) /\
    (statusCode res = 202%nat ->
     exists entry,
       event_bus w' = (event_bus w ++ [entry])%list /\
       Source entry = "myapp.orders" /\ DetailType entry = "OrderCreated" /\
       env_EVENT_BUS_NAME = Some (EventBusName entry)) /\
    (statusCode res <> 202%nat -> event_bus w' = event_bus w).
Proof.
  destruct (take_requestId_frame event w) as (Hbus & _).
  destruct bus_name_cases as [Hunset|(name & Hn & Hne)].
  { eexists _, _. split; [apply (serve_unconfigured _ _ Hunset)|]. simpl.
    split; [auto|]. split; [discriminate|auto]. }
  destruct (request event) as [p|err] eqn:Hreq.
  - destruct (serve_accepted event w p name Hn Hne Hreq) as (w1 & _ & Hcase).
    destruct (next_bus_answer w) as [e|n|]; destruct Hcase as (Hrun & Hb);
      eexists _, w1; (split; [exact Hrun|]); simpl.
    + split; [destruct (status_cases (err_message e)); auto|].
      split; [|auto]. intros H. destruct (status_cases (err_message e)); congruence.
    + split; [auto|]. split; [discriminate|auto].
    + split; [auto|]. split; [|congruence]. intros _. eexists. split; [exact Hb|].
      simpl. auto.
  - eexists _, _. split; [apply (serve_rejected _ _ _ (bus_name_set _ Hn Hne) Hreq)|].
    simpl. split; [destruct (status_cases (err_message err)); auto|].
    split; [|auto]. intros H. destruct (status_cases (err_message err)); congruence.
Qed.

(** X18. What follows a valid request. The event carries a fresh eventId,
    the orderId of the caller when it gave a non-empty one and a second
    fresh identifier otherwise, the time of the call, and the customerId
    and items of the validated order. When the bus accepts the entry the
    answer is 202 with that orderId and eventId; when the bus reports a
    failed entry the answer is 500 and nothing is published; when the send
    throws, the message of the error decides between 400 and 500. *)
Theorem X18_valid_request (event : APIGatewayProxyEvent) (w : World) (p : OrderPayload)
    (name : string) :
  env_EVENT_BUS_NAME = Some name -> name <> "" ->
  request event = Ok p ->
  let w0 := snd (take_requestId event w) in
  let eventId := uuid_supply w0 (uuid_next w0) in
  let orderId :=
    match orderId p with
    | Some given => if String.eqb given "" then uuid_supply w0 (S (uuid_next w0)) else given
    | None => uuid_supply w0 (S (uuid_next w0))
    end in
  let entry :=
    mkEntry name "myapp.orders" "OrderCreated"
            (detail_value eventId orderId (toISOString (clock w)) (customerId p) (items p)) in
  exists w',
    put_events_script w' = tail (put_events_script w) /\
    match head (put_events_script w) with
    | Some (Throw e) =>
      serve event w
      = (Ok (mkResult (status (err_message e)) (message_body (err_message e))), w') /\
      event_bus w' = event_bus w
    | Some (Ok (Some (S n))) =>
      serve event w = (Ok (mkResult 500 (message_body "Failed to publish event")), w') /\
      event_bus w' = event_bus w
    | _ =>
      serve event w
      = (Ok (mkResult 202 (JObj [("orderId", JStr orderId); ("eventId", JStr eventId)])), w') /\
      event_bus w' = (event_bus w ++ [entry])%list
    end.
Proof.
  intros Hn Hne Hreq. cbv zeta.
  destruct (serve_accepted event w p name Hn Hne Hreq) as (w' & Hscript & Hcase).
  exists w'. split; [assumption|].
  unfold next_bus_answer, fresh_eventId, chosen_orderId, falsy_str in Hcase.
  destruct (head (put_events_script w)) as [[[[|n]|]|e]|];
    destruct (orderId p) as [given|]; exact Hcase.
Qed.

End Requests.


Import Examples ApiExamples.

Example toISOString_new_year :
  toISOString_utc 1704067200000 = "2024-01-01T00:00:00.000Z"
  /\ toISOString_utc 951782400123 = "2000-02-29T00:00:00.123Z".
Proof. split; vm_compute; reflexivity. Qed.

Example serve_order :
  serve_demo event_order api_world
  = (Ok (mkResult 202 (JObj [("orderId", JStr "uuid-1"); ("eventId", JStr "uuid-0")])),
     mkWorld [mkEntry "orders-bus" "myapp.orders" "OrderCreated"
                      (Api.detail_value "uuid-0" "uuid-1" "2024-01-01T00:00:00.000Z"
                                        (Some "c-1") [mkItem "SKU-1" two])]
             1704067200000 uuid_demo 2 []
             [LogPublished "req-1" "uuid-0" "uuid-1" (Some "c-1") 1]).
Proof. vm_compute. reflexivity. Qed.

Lemma X14_idempotent_witness :
  validateOrderPayload trim_ascii
    (payload_value (mkPayload (Some "c-1") None [mkItem "SKU-1" two]))
  = Ok (mkPayload (Some "c-1") None [mkItem "SKU-1" two]).
Proof.
  apply (X14_validation_is_idempotent trim_ascii (order_value "c-1" "SKU-1" two)).
  vm_compute. reflexivity.
Defined.

Lemma X15_first_rejected_witness :
  validateOrderPayload trim_ascii order_mixed
  = Throw (Error "items[1].qty must be a positive number").
Proof.
  apply (X15_first_rejected_item_decides trim_ascii order_mixed
           [JObj [("sku", JStr "SKU-1"); ("qty", JNum two)];
            JObj [("sku", JStr "SKU-2"); ("qty", JNum (S754_zero false))]]
           1%nat (JObj [("sku", JStr "SKU-2"); ("qty", JNum (S754_zero false))])).
  - reflexivity.
  - reflexivity.
  - reflexivity.
  - intros j item' Hj Hl. destruct j as [|j]; [|lia].
    injection Hl as <-. eexists. vm_compute. reflexivity.
  - vm_compute. reflexivity.
Defined.

Lemma X16_request_error_witness :
  exists w',
    serve_demo event_zero api_world
    = (Ok (mkResult 400 (message_body "items[0].qty must be a positive number")), w')
    /\ event_bus w' = [].
Proof.
  destruct (X16_request_errors JSON_parse_api trim_ascii Api.ascii_lower toISOString_utc
              (Some "orders-bus") (fun s _ => eq_refl) event_zero api_world
              (Error "items[0].qty must be a positive number"))
    as (w' & Hrun & Hbus & _).
  - reflexivity.
  - vm_compute. reflexivity.
  - exists w'. split; [exact Hrun | exact Hbus].
Defined.

Lemma X18_valid_request_witness :
  fst (serve_demo event_order api_world)
  = Ok (mkResult 202 (JObj [("orderId", JStr "uuid-1"); ("eventId", JStr "uuid-0")]))
  /\ fst (serve_demo event_order api_world_rejecting)
     = Ok (mkResult 500 (message_body "Failed to publish event")).
Proof.
  split.
  - destruct (X18_valid_request JSON_parse_api trim_ascii Api.ascii_lower toISOString_utc
                (Some "orders-bus") event_order api_world
                (mkPayload (Some "c-1") None [mkItem "SKU-1" two]) "orders-bus")
      as (w' & _ & Hrun & _).
    + reflexivity.
    + discriminate.
    + vm_compute. reflexivity.
    + exact (f_equal fst Hrun).
  - destruct (X18_valid_request JSON_parse_api trim_ascii Api.ascii_lower toISOString_utc
                (Some "orders-bus") event_order api_world_rejecting
                (mkPayload (Some "c-1") None [mkItem "SKU-1" two]) "orders-bus")
      as (w' & _ & Hrun & _).
    + reflexivity.
    + discriminate.
    + vm_compute. reflexivity.
    + exact (f_equal fst Hrun).
Defined.

End ApiProps.

(** ** From the API to the worker

    The detail the API publishes is the detail the worker reads, after its
    passage through [JSON.stringify] and [JSON.parse]. *)

Module PipelineProps.
Import Api.

Lemma items_typed (its : list OrderItem) :
  forallb Worker.is_OrderItem (map item_value its) = true.
Proof. induction its as [|v rest IH]; [reflexivity|]. simpl. exact IH. Qed.

Lemma wire_detail_typed (eventId orderId createdAt : string) (cust : option string)
    (its : list OrderItem) :
  Worker.is_OrderCreatedDetail (on_the_wire (detail_value eventId orderId createdAt cust its))
  = true.
Proof. destruct cust; simpl; apply items_typed. Qed.

Lemma wire_detail_fields (eventId orderId createdAt : string) (cust : option string)
    (its : list OrderItem) :
  let detail := on_the_wire (detail_value eventId orderId createdAt cust its) in
  get_opt detail "eventId" = JStr eventId /\
  get_opt detail "orderId" = JStr orderId /\
  get_opt detail "createdAt" = JStr createdAt /\
  get_opt detail "customerId" = optional_string cust /\
  get_opt detail "items" = JArr (map item_value its).
Proof. destruct cust; simpl; auto. Qed.

Lemma wire_detail_items (eventId orderId createdAt : string) (cust : option string)
    (its : list OrderItem) :
  Worker.items_of (on_the_wire (detail_value eventId orderId createdAt cust its))
  = map item_value its.
Proof. destruct cust; reflexivity. Qed.

Lemma wire_detail_fail_sku (eventId orderId createdAt : string) (cust : option string)
    (its : list OrderItem) :
  Worker.contains_fail_sku (on_the_wire (detail_value eventId orderId createdAt cust its))
  <-> existsb (fun v => String.eqb (sku v) "FAIL-ME") its = true.
Proof.
  unfold Worker.contains_fail_sku. rewrite wire_detail_items, existsb_exists. split.
  - intros (item & Hin & Hsku). apply in_map_iff in Hin as (v & <- & Hin).
    exists v. split; [assumption|]. unfold item_value in Hsku. simpl in Hsku.
    injection Hsku as ->. reflexivity.
  - intros (v & Hin & Hsku). apply String.eqb_eq in Hsku.
    exists (item_value v). split; [now apply in_map|]. unfold item_value. simpl.
    now rewrite Hsku.
Qed.

Section Published.

Variable JSON_parse : string -> option JsVal.
Variable trim : string -> string.
Variable toLowerCase : string -> string.
Variable toISOString : Z -> string.
Variable env_EVENT_BUS_NAME : option string.

Local Abbreviation serve :=
  (handler JSON_parse trim toLowerCase toISOString env_EVENT_BUS_NAME).

Lemma valid_items_spec (its : list OrderItem) :
  trim "" = "" ->
  Forall (fun v => valid_item trim v = true) its ->
  forallb Worker.spec_valid_item (map item_value its) = true.
Proof.
  intros Htrim. induction 1 as [|v rest Hv _ IH]; [reflexivity|].
  simpl map. simpl forallb. rewrite IH, andb_true_r.
  unfold valid_item in Hv. apply andb_prop in Hv as (Hs & Hq).
  unfold Worker.spec_valid_item. simpl.
  destruct (String.eqb (sku v) "") eqn:He.
  - apply String.eqb_eq in He. rewrite He, Htrim in Hs. discriminate.
  - simpl. destruct (qty v) as [| | |[|] m e]; try discriminate. reflexivity.
Qed.

(** X19. Every event the API reports as accepted has, as it arrives after
    its JSON encoding, the shape the worker assumes and is a valid Order
    Event: string eventId, orderId and createdAt, a non-empty list of
    items, each with a non-empty sku and a positive quantity; and the
    response names the orderId and the eventId of that event. *)
Theorem X19_published_events_fit_the_worker
    (event : APIGatewayProxyEvent) (w w' : World) (res : APIGatewayProxyResult) :
  trim "" = "" ->
  serve event w = (Ok res, w') -> statusCode res = 202%nat ->
  exists entry,
    event_bus w' = (event_bus w ++ [entry])%list /\
    Worker.is_OrderCreatedDetail (on_the_wire (Detail entry)) = true /\
    Worker.spec_valid_OrderEvent (on_the_wire (Detail entry)) = true /\
    result_body res
    = JObj [("orderId", get_opt (on_the_wire (Detail entry)) "orderId");
            ("eventId", get_opt (on_the_wire (Detail entry)) "eventId")].
Proof.
  intros Htrim Hrun H202.
  destruct (ApiProps.serve_202_inv _ _ _ _ _ _ _ _ _ Hrun H202)
    as (name & p & Hn & Hne & Hreq & Hbus).
  destruct (ApiProps.serve_accepted JSON_parse trim toLowerCase toISOString
              env_EVENT_BUS_NAME event w p name Hn Hne Hreq) as (w1 & _ & Hcase).
  rewrite Hbus in Hcase. destruct Hcase as (Hrun' & Hb).
  rewrite Hrun' in Hrun. injection Hrun as <- <-.
  eexists. split; [exact Hb|]. cbn [Detail result_body].
  split; [apply wire_detail_typed|].
  unfold requested_order in Hreq. destruct (parseBody _ _) as [raw|]; [|discriminate].
  apply ApiProps.validated_items_acceptable in Hreq as (Hne' & Hall).
  split.
  - pose proof (valid_items_spec _ Htrim Hall) as Hitems.
    destruct (items p) as [|v rest] eqn:Hp; [contradiction|].
    unfold Worker.spec_valid_OrderEvent.
    destruct (wire_detail_fields (fresh_eventId (snd (take_requestId event w)))
                (chosen_orderId p (snd (take_requestId event w)))
                (toISOString (clock w)) (customerId p) (v :: rest))
      as (-> & -> & -> & _ & ->).
    simpl map in *. simpl Worker.is_string. exact Hitems.
  - destruct (wire_detail_fields (fresh_eventId (snd (take_requestId event w)))
                (chosen_orderId p (snd (take_requestId event w)))
                (toISOString (clock w)) (customerId p) (items p))
      as (-> & -> & _). reflexivity.
Qed.

End Published.

Section Consumed.

Variable JSON_parse : string -> option JsVal.
Variable parseInt10 : string -> option Z.
Variable env_TABLE_NAME : option string.
Variable env_TTL_DAYS : option string.

Local Abbreviation parse := (Worker.parseEventBridgeEnvelope JSON_parse).
Local Abbreviation outcome :=
  (Worker.classify JSON_parse parseInt10 env_TABLE_NAME env_TTL_DAYS).
Local Abbreviation after :=
  (Worker.world_after JSON_parse parseInt10 env_TABLE_NAME env_TTL_DAYS).
Local Abbreviation ready := (Worker.configured parseInt10 env_TABLE_NAME env_TTL_DAYS).
Local Abbreviation days := (Worker.TTL_DAYS parseInt10 env_TTL_DAYS).

(** X20. An envelope that carries a detail built by the API, delivered to
    a configured worker whose store answers: it is ignored as a duplicate
    when the table holds its eventId; otherwise it is recorded under its
    eventId with the orderId and createdAt the API gave it and the expiry
    time of the configured number of days, and it fails exactly when one
    of the ordered items has the sku FAIL-ME. *)
Theorem X20_published_order_through_the_worker
    (record : Worker.SQSRecord) (envelope : JsVal) (eventId orderId createdAt : string)
    (cust : option string) (its : list OrderItem) (w : Worker.World) :
  parse record = Ok envelope ->
  get_opt envelope "detail" = on_the_wire (detail_value eventId orderId createdAt cust its) ->
  ready = true -> Worker.store_answers w = true ->
  outcome record w
  = match Worker.table w !! eventId with
    | Some _ => Worker.DuplicateIgnored
    | None =>
      if existsb (fun v => String.eqb (sku v) "FAIL-ME") its
      then Worker.BusinessFailure else Worker.Processed
    end /\
  (Worker.table w !! eventId = None ->
   exists d,
     days = Some d /\
     Worker.table (after record w)
     = <[eventId := Worker.mkItem (JStr eventId) (JStr orderId) (JStr createdAt)
                      (Some (Worker.clock w / 1000 + d * 24 * 60 * 60))]> (Worker.table w)).
Proof.
  intros Hparse Hdetail Hready Hstore.
  pose proof (wire_detail_typed eventId orderId createdAt cust its) as Htyped.
  destruct (wire_detail_fields eventId orderId createdAt cust its)
    as (He & Ho & Hc & _ & _).
  cbv zeta in He, Ho, Hc.
  pose proof (wire_detail_fail_sku eventId orderId createdAt cust its) as Hfail.
  rewrite <- Hdetail in Htyped, He, Ho, Hc, Hfail.
  split.
  - unfold Worker.classify. rewrite Hparse. cbv zeta.
    destruct (Worker.table w !! eventId) as [it|] eqn:Hk.
    + now rewrite (WorkerProps.claim_duplicate parseInt10 env_TABLE_NAME env_TTL_DAYS
                     _ eventId it w Htyped He Hready Hstore Hk).
    + destruct (WorkerProps.claim_new parseInt10 env_TABLE_NAME env_TTL_DAYS
                  _ eventId w Htyped He Hready Hstore Hk) as (name & _ & ->).
      destruct (existsb _ its) eqn:Hsku.
      * rewrite WorkerProps.processOrder_fail_sku; [reflexivity|assumption|].
        now apply Hfail.
      * rewrite WorkerProps.processOrder_no_fail_sku; [reflexivity|assumption|].
        intros H. apply Hfail in H. discriminate.
  - intros Hk.
    destruct (WorkerProps.after_first_delivery JSON_parse parseInt10 env_TABLE_NAME
                env_TTL_DAYS record envelope eventId w Hparse Htyped He Hready Hstore Hk)
      as (name & _ & -> & _).
    destruct (WorkerProps.ready_inv parseInt10 env_TABLE_NAME env_TTL_DAYS Hready)
      as (name' & d & _ & _ & Hd).
    exists d. split; [assumption|].
    unfold Worker.claim_command. rewrite He, Ho, Hc, Hd. reflexivity.
Qed.

End Consumed.


Import Examples ApiExamples.

Lemma X19_published_event_witness :
  exists entry,
    event_bus (snd (serve_demo event_order api_world)) = [entry] /\
    Worker.spec_valid_OrderEvent (on_the_wire (Detail entry)) = true.
Proof.
  destruct (X19_published_events_fit_the_worker JSON_parse_api trim_ascii Api.ascii_lower
              toISOString_utc (Some "orders-bus") event_order api_world
              (snd (serve_demo event_order api_world))
              (mkResult 202 (JObj [("orderId", JStr "uuid-1"); ("eventId", JStr "uuid-0")])))
    as (entry & Hbus & _ & Hvalid & _).
  - reflexivity.
  - vm_compute. reflexivity.
  - reflexivity.
  - exists entry. split; [exact Hbus | exact Hvalid].
Defined.

Lemma X20_published_order_witness :
  Worker.classify JSON_parse_published parseInt10_ascii (Some "orders-idempotency") (Some "7")
                  record_published world0
  = Worker.Processed.
Proof.
  destruct (X20_published_order_through_the_worker JSON_parse_published parseInt10_ascii
              (Some "orders-idempotency") (Some "7") record_published
              (envelope_value "evt-9" published_detail)
              "uuid-0" "uuid-1" "2024-01-01T00:00:00.000Z" (Some "c-1")
              [mkItem "SKU-1" two] world0) as (Hout & _).
  - vm_compute. reflexivity.
  - reflexivity.
  - reflexivity.
  - reflexivity.
  - exact Hout.
Defined.

End PipelineProps.

(** ** The order form *)

Module FrontendProps.
Import Frontend.

Section Form.

Variable trim : string -> string.

Local Abbreviation form_check := (validateForm trim).
Local Abbreviation server := (Api.validateOrderPayload trim).

Lemma form_items_pass (its : list ItemForm) (i k : nat) :
  validate_from trim its i = None ->
  Api.validate_items trim
    (map (fun item => JObj [("sku", JStr (sku item)); ("qty", JNum (qty item))]) its) k
  = Ok (map (fun item => Api.mkItem (sku item) (qty item)) its).
Proof.
  revert i k. induction its as [|item rest IH]; intros i k; [reflexivity|].
  simpl. unfold Api.validate_item. simpl.
  destruct (String.eqb (trim (sku item)) ""); [discriminate|].
  destruct (negb (Api.Number_isFinite (qty item)) || Api.le_zero (qty item));
    [discriminate|].
  intros H. now rewrite (IH _ (S k) H).
Qed.

Lemma form_items_fail (its : list ItemForm) (i k : nat) (message : string) :
  validate_from trim its i = Some message ->
  exists err,
    Api.validate_items trim
      (map (fun item => JObj [("sku", JStr (sku item)); ("qty", JNum (qty item))]) its) k
    = Throw err.
Proof.
  revert i k. induction its as [|item rest IH]; intros i k; [discriminate|].
  simpl. unfold Api.validate_item. simpl.
  destruct (String.eqb (trim (sku item)) ""); [eauto|].
  destruct (negb (Api.Number_isFinite (qty item)) || Api.le_zero (qty item)); [eauto|].
  intros H. destruct (IH _ (S k) H) as (err & ->). eauto.
Qed.

Lemma server_unfold (customerId : JsVal) (raw : list JsVal) :
  server (JObj [("customerId", customerId); ("items", JArr raw)])
  = match raw with
    | [] => Throw (Error "items must be a non-empty array")
    | _ =>
      match Api.validate_items trim raw 0 with
      | Throw e => Throw e
      | Ok validatedItems =>
        match Api.string_if_provided customerId "customerId must be a string if provided" with
        | Throw e => Throw e
        | Ok given => Ok (Api.mkPayload given None validatedItems)
        end
      end
    end.
Proof. destruct raw; reflexivity. Qed.

Lemma server_unfold_wire (raw : list JsVal) :
  server (JObj [("items", JArr raw)])
  = match raw with
    | [] => Throw (Error "items must be a non-empty array")
    | _ =>
      match Api.validate_items trim raw 0 with
      | Throw e => Throw e
      | Ok validatedItems => Ok (Api.mkPayload None None validatedItems)
      end
    end.
Proof. destruct raw; reflexivity. Qed.

(** X21. The check of the form and the validation of the API agree on
    what the form submits: when [validateForm] returns null, the payload
    of [handleSubmit] passes [validateOrderPayload], as built and as it
    arrives without its undefined members, and yields the items of the
    form, the customerId unless it is empty, and no orderId; when
    [validateForm] returns a message, the API would reject that payload. *)
Theorem X21_form_check_agrees_with_api (customerId : string) (its : list ItemForm) :
  match form_check its with
  | None =>
    server (submit_payload customerId its)
    = Ok (Api.mkPayload (if String.eqb customerId "" then None else Some customerId) None
                        (map (fun item => Api.mkItem (sku item) (qty item)) its)) /\
    server (Api.on_the_wire (submit_payload customerId its))
    = server (submit_payload customerId its)
  | Some _ => exists err, server (submit_payload customerId its) = Throw err
  end.
Proof.
  unfold validateForm, submit_payload, Api.on_the_wire. destruct its as [|item rest].
  { simpl. eauto. }
  change (length (item :: rest) =? 0)%nat with false. cbv iota.
  destruct (validate_from trim (item :: rest) 0) as [message|] eqn:Hform.
  - destruct (form_items_fail _ _ 0%nat _ Hform) as (err & Herr). exists err.
    rewrite server_unfold, Herr. reflexivity.
  - pose proof (form_items_pass _ _ 0%nat Hform) as Hok.
    split.
    + rewrite server_unfold, Hok. now destruct (String.eqb customerId "").
    + destruct (String.eqb customerId ""); cbn [List.filter snd negb Api.is_undefined];
        rewrite ?server_unfold, ?server_unfold_wire, Hok; reflexivity.
Qed.

Lemma validate_from_None (its : list ItemForm) (i : nat) :
  validate_from trim its i = None <->
  Forall (fun item =>
            String.eqb (trim (sku item)) "" = false /\
            negb (Api.Number_isFinite (qty item)) || Api.le_zero (qty item) = false) its.
Proof.
  revert i. induction its as [|item rest IH]; intros i; simpl.
  - split; [constructor|reflexivity].
  - destruct (String.eqb (trim (sku item)) "") eqn:Hs.
    { split; [discriminate|]. intros H. apply Forall_inv in H as (Hf & _). congruence. }
    destruct (negb (Api.Number_isFinite (qty item)) || Api.le_zero (qty item)) eqn:Hq.
    { split; [discriminate|]. intros H. apply Forall_inv in H as (_ & Hf). congruence. }
    rewrite (IH (S i)). split.
    + intros H. constructor; auto.
    + intros H. now inversion H.
Qed.

(** X22. Removing an item leaves a form that passes the check in a state
    that passes it, as long as an item remains; the items left are those
    with another id, in their order. *)
Theorem X22_removing_items_keeps_form_valid (id_ : Z) (its : list ItemForm) :
  form_check its = None -> removeItem id_ its <> [] ->
  form_check (removeItem id_ its) = None /\
  sublist (removeItem id_ its) its /\
  (forall item, In item (removeItem id_ its) <-> In item its /\ id item <> id_).
Proof.
  unfold validateForm. intros Hform Hleft.
  destruct (length its =? 0)%nat; [discriminate|].
  apply validate_from_None in Hform.
  split; [|split].
  - destruct (removeItem id_ its) as [|item rest] eqn:Hrem; [contradiction|].
    change (length (item :: rest) =? 0)%nat with false. cbv iota.
    apply validate_from_None. rewrite <- Hrem. unfold removeItem.
    apply List.Forall_forall. intros x Hx. apply List.filter_In in Hx as (Hx & _).
    revert x Hx. now apply List.Forall_forall.
  - unfold removeItem. clear. induction its as [|item rest IH]; simpl; [constructor|].
    destruct (negb _); now constructor.
  - intros item. unfold removeItem. rewrite List.filter_In, negb_true_iff, Z.eqb_neq.
    reflexivity.
Qed.

End Form.


Import Examples ApiExamples.

Lemma X22_remove_witness :
  validateForm trim_ascii (removeItem 1 form_items) = None.
Proof.
  apply (X22_removing_items_keeps_form_valid trim_ascii 1 form_items).
  - vm_compute. reflexivity.
  - discriminate.
Defined.

End FrontendProps.
